(** * Footprint re-association scripts: a shallow embedding

    The two scripts [apply_mapping.py] and [reassociate_components.py]
    rewrite a board file held in memory as one Python [str].  They locate
    footprint blocks with regular expressions and a parenthesis counter,
    rename the "Reference" property and splice a path fragment into the
    block.

    Text is modelled as a list of characters.  A character is a code point
    below 256 (the Latin-1 range of Unicode), which is enough for every
    literal of the scripts; the classes [\s] and [\d] are the Unicode
    classes of Python's [re] restricted to that range. *)

From Stdlib Require Import String Ascii List ZArith NArith Lia Bool Arith.
From Stdlib Require Import DecimalString Permutation Sorted.
Import ListNotations.
Open Scope list_scope.

Set Implicit Arguments.

(** ** Text *)

Definition str := list ascii.

(** A Python string literal without tab, newline or quote characters. *)
Definition s (x : string) : str := list_ascii_of_string x.

Definition TAB : ascii := "009"%char.
Definition NL : ascii := "010"%char.
Definition DQ : ascii := "034"%char.
Definition LPAR : ascii := "("%char.
Definition RPAR : ascii := ")"%char.

(** [content[a:b]] for [0 <= a]; an empty slice when [b <= a]. *)
Definition slice (a b : nat) (t : str) : str := firstn (b - a) (skipn a t).

Definition str_eqb (a b : str) : bool :=
  if list_eq_dec ascii_dec a b then true else false.

Fixpoint starts_with (w t : str) : bool :=
  match w, t with
  | [], _ => true
  | c :: w', d :: t' => Ascii.eqb c d && starts_with w' t'
  | _ :: _, [] => false
  end.

(** [str(n)] for a non-negative Python int. *)
Definition str_of_nat (n : nat) : str :=
  list_ascii_of_string (NilEmpty.string_of_uint (Nat.to_uint n)).

(** ** Regular expressions

    The fragment of Python's [re] that the scripts use: literals, character
    classes, greedy [*] and [+] over a class, sequencing and numbered
    capture groups.  Matching is by backtracking, in continuation-passing
    style; a greedy quantifier tries the longest run first. *)

Inductive regex : Type :=
| Str (w : str)
| Class (p : ascii -> bool)
| ClassStar (p : ascii -> bool)
| ClassPlus (p : ascii -> bool)
| Seq (r1 r2 : regex)
| Group (n : nat) (r : regex).

Declare Scope regex_scope.
Delimit Scope regex_scope with re.
Bind Scope regex_scope with regex.
Infix ";;" := Seq (at level 61, right associativity) : regex_scope.

(** Group number, with the span [start, end) it captured. *)
Definition caps := list (nat * (nat * nat)).

Record re_match : Type := MkMatch {
  m_start : nat;
  m_end : nat;
  m_caps : caps
}.

Section Matcher.
Variable A : Type.

Definition kont := nat -> str -> caps -> option A.

Fixpoint star_run (p : ascii -> bool) (i : nat) (t : str) (cs : caps)
         (k : kont) : option A :=
  match t with
  | c :: t' =>
      if p c then
        match star_run p (S i) t' cs k with
        | Some r => Some r
        | None => k i t cs
        end
      else k i t cs
  | [] => k i t cs
  end.

Fixpoint rmatch (r : regex) (i : nat) (t : str) (cs : caps) (k : kont)
  : option A :=
  match r with
  | Str w =>
      if starts_with w t then k (i + length w) (skipn (length w) t) cs
      else None
  | Class p =>
      match t with
      | c :: t' => if p c then k (S i) t' cs else None
      | [] => None
      end
  | ClassStar p => star_run p i t cs k
  | ClassPlus p =>
      match t with
      | c :: t' => if p c then star_run p (S i) t' cs k else None
      | [] => None
      end
  | Seq r1 r2 => rmatch r1 i t cs (fun j u cs' => rmatch r2 j u cs' k)
  | Group n r0 => rmatch r0 i t cs (fun j u cs' => k j u ((n, (i, j)) :: cs'))
  end.
End Matcher.

(** A match of [r] starting exactly at position [i], where [t] is the text
    from [i] on. *)
Definition match_here (r : regex) (i : nat) (t : str) : option re_match :=
  rmatch r i t [] (fun j _ cs => Some (MkMatch i j cs)).

(** [re.search]: the leftmost match at or after position [i]. *)
Fixpoint search_from (r : regex) (i : nat) (t : str) : option re_match :=
  match match_here r i t with
  | Some m => Some m
  | None =>
      match t with
      | [] => None
      | _ :: t' => search_from r (S i) t'
      end
  end.

Definition re_search (r : regex) (text : str) : option re_match :=
  search_from r 0 text.

(** [re.finditer]: the successive non-overlapping matches, left to right.
    [skip] counts the characters of the last match still to be passed. *)
Fixpoint finditer_from (r : regex) (i : nat) (t : str) (skip : nat)
  : list re_match :=
  match skip with
  | S sk =>
      match t with
      | [] => []
      | _ :: t' => finditer_from r (S i) t' sk
      end
  | O =>
      match match_here r i t with
      | Some m =>
          m :: match t with
               | [] => []
               | _ :: t' => finditer_from r (S i) t' (m_end m - i - 1)
               end
      | None =>
          match t with
          | [] => []
          | _ :: t' => finditer_from r (S i) t' 0
          end
      end
  end.

Definition re_finditer (r : regex) (text : str) : list re_match :=
  finditer_from r 0 text 0.

(** [match.group(n)]; the scripts only read groups that took part in the
    match. *)
Fixpoint cap_lookup (n : nat) (cs : caps) : option (nat * nat) :=
  match cs with
  | [] => None
  | (k, sp) :: cs' => if Nat.eqb k n then Some sp else cap_lookup n cs'
  end.

Definition group (n : nat) (text : str) (m : re_match) : str :=
  match cap_lookup n (m_caps m) with
  | Some (a, b) => slice a b text
  | None => []
  end.

(** [re.sub] with a replacement computed from each match. *)
Fixpoint sub_build (text : str) (pos : nat) (ms : list re_match)
         (repl : re_match -> str) : str :=
  match ms with
  | [] => skipn pos text
  | m :: ms' =>
      slice pos (m_start m) text ++ repl m ++ sub_build text (m_end m) ms' repl
  end.

Definition re_sub (r : regex) (repl : re_match -> str) (text : str) : str :=
  sub_build text 0 (re_finditer r text) repl.

(** ** Character classes *)

Definition code (c : ascii) : nat := nat_of_ascii c.

Definition in_range (lo hi : nat) (c : ascii) : bool :=
  (lo <=? code c) && (code c <=? hi).

(** [\s] on [str] patterns: the Unicode white space below 256. *)
Definition is_space (c : ascii) : bool :=
  in_range 9 13 c || in_range 28 32 c || Nat.eqb (code c) 133
  || Nat.eqb (code c) 160.

(** [\d]: the decimal digits below 256 are the ASCII ones. *)
Definition is_digit (c : ascii) : bool := in_range 48 57 c.

Definition not_quote (c : ascii) : bool := negb (Ascii.eqb c DQ).
Definition not_rpar (c : ascii) : bool := negb (Ascii.eqb c RPAR).

(** [[a-f0-9-]] *)
Definition is_hexdash (c : ascii) : bool :=
  in_range 97 102 c || is_digit c || Ascii.eqb c "-"%char.

(** [[0-9.-]] *)
Definition is_numch (c : ascii) : bool :=
  is_digit c || Ascii.eqb c "."%char || Ascii.eqb c "-"%char.

(** ** The block scanner

    Both scripts walk the text from [block_start] with a counter that
    starts at 0, goes up on every "(" and down on every ")", and stop
    right after the ")" that brings it back to 0.  When the text runs out
    first, [block_end] keeps its initial value [block_start]. *)

Fixpoint scan_block (chars : str) (i : nat) (depth : Z) : option nat :=
  match chars with
  | [] => None
  | c :: rest =>
      if Ascii.eqb c LPAR then scan_block rest (S i) (depth + 1)
      else if Ascii.eqb c RPAR then
        if (depth - 1 =? 0)%Z then Some (S i)
        else scan_block rest (S i) (depth - 1)
      else scan_block rest (S i) depth
  end.

Definition find_block_end (content : str) (block_start : nat) : nat :=
  match scan_block (skipn block_start content) block_start 0 with
  | Some e => e
  | None => block_start
  end.

(** ** [float] of a coordinate

    The coordinate groups match [[0-9.-]+].  On such text [float] accepts
    an optional leading "-", then digits with at most one ".", and at least
    one digit; anything else raises [ValueError].  The value is kept exact,
    as [(-1)^neg * num / 10^scale]. *)

Record dec : Type := MkDec { d_neg : bool; d_num : N; d_scale : nat }.

Definition digit_val (c : ascii) : N := N.of_nat (code c - 48).

Fixpoint read_digits (t : str) (acc : N) (cnt : nat) : N * nat * str :=
  match t with
  | c :: t' =>
      if is_digit c then read_digits t' (acc * 10 + digit_val c)%N (S cnt)
      else (acc, cnt, t)
  | [] => (acc, cnt, [])
  end.

Definition py_float (t : str) : option dec :=
  let (neg, body) :=
    match t with
    | c :: t' => if Ascii.eqb c "-"%char then (true, t') else (false, t)
    | [] => (false, [])
    end in
  let '(ip, n1, rest) := read_digits body 0%N 0 in
  match rest with
  | [] => if Nat.eqb n1 0 then None else Some (MkDec neg ip 0)
  | c :: rest' =>
      if Ascii.eqb c "."%char then
        let '(v, n2, rest'') := read_digits rest' ip 0 in
        match rest'' with
        | [] => if Nat.eqb (n1 + n2) 0 then None else Some (MkDec neg v n2)
        | _ :: _ => None
        end
      else None
  end.

(** [y >= 180] on the double nearest to the decimal.  180 is a double with
    an even mantissa and its predecessor is [180 - 2^-45], so the decimal
    rounds to 180 or above exactly when it is at least [180 - 2^-46]. *)
Definition float_ge_180 (y : dec) : bool :=
  if d_neg y then false
  else ((180 * 2 ^ 46 - 1) * 10 ^ N.of_nat (d_scale y) <=? d_num y * 2 ^ 46)%N.

(** ** What a run can end with *)

(** The exceptions that leave the scripts: those of [float], [int] and
    indexing, and those of [open], [read] and [write]. *)
Inductive exn : Type :=
| ValueError
| IndexError
| FileNotFoundError
| PermissionError
| IsADirectoryError
| UnicodeDecodeError
| OSError.

Inductive outcome (A : Type) : Type :=
| Ok (a : A)
| Raise (e : exn).
Arguments Raise {A} e.

(** The files of a run, by name.  [read_text n] is what
    [open(n, 'r', encoding='utf-8')] followed by [read()] gives: the decoded
    text, or the exception that [open] raises (no such file, no permission,
    a directory) or that [read] raises (bytes that are no UTF-8).
    [write_error n] is the exception that [open(n, 'w', encoding='utf-8')]
    or [write] raises for [n], if any. *)
Record files : Type := MkFiles {
  read_text : string -> outcome str;
  write_error : string -> option exn
}.

(** [with open(name, 'w', encoding='utf-8') as f: f.write(text)]: the
    exception, or the files with [text] under [name]. *)
Definition write_file (fs : files) (name : string) (text : str)
  : outcome files :=
  match write_error fs name with
  | Some e => Raise e
  | None =>
      Ok (MkFiles (fun n => if String.eqb n name then Ok text
                            else read_text fs n)
                  (write_error fs))
  end.

(** ** [apply_mapping.py] *)

Module ApplyMapping.

(** The dict [MAPPING], in insertion order: old reference, new reference,
    schematic uuid. *)
Definition entry : Type := str * (str * str).

Definition MAPPING : list entry :=
  [ (s "U11", (s "U27", s "e9131814-0fd0-4849-9e00-37477ad2ee85"));
    (s "Y1", (s "Y2", s "114ce896-9d2e-4f4a-99c7-1d06169e7762"));
    (s "L6", (s "L7", s "81ea4cab-2d71-4b8a-8c70-67ca8e9489c5"));
    (s "D34", (s "D33", s "827f3c6a-8683-48e2-8797-78f8f7ccbf8c"));
    (s "SW1", (s "SW3", s "c462dde2-8d33-4944-9461-42ab8017ec14"));
    (s "SW2", (s "SW4", s "8714c774-6e97-4614-ae33-6a064005529f"));
    (s "J9", (s "J16", s "3655f5dc-78f0-4980-abba-cb1727603416"));
    (s "C27", (s "C37", s "6c7f03a8-70dd-4ebe-bb07-236673108691"));
    (s "C32", (s "C48", s "ffd91b9f-ec3c-4091-b6d6-27f751d5a551"));
    (s "C35", (s "C61", s "bc989d8d-9f40-41eb-b7ab-96d69ed0b185"));
    (s "C36", (s "C69", s "ee311b15-2016-4c7e-83a2-5b1bee8661a5"));
    (s "C46", (s "C71", s "3f29c3b7-eebf-4047-9201-fee02c8c5fdf"));
    (s "C47", (s "C72", s "18988aca-3352-4f03-bec6-161e8a071ef0"));
    (s "C58", (s "C117", s "1a5988b0-b975-4058-bfd5-9895e9de44cc"));
    (s "C59", (s "C118", s "08a9067d-188d-4e72-8b0f-cc126224f7f5"));
    (s "C60", (s "C120", s "4e3eaf2c-55b8-4d46-b03b-d843768c9e56"));
    (s "C63", (s "C123", s "7aea52b4-3055-4f2a-aef2-798bda605aef"));
    (s "C64", (s "C124", s "0dcab54f-d5d7-4a99-babe-8c651bbd87b3"));
    (s "C65", (s "C126", s "8a796792-e1c8-45ae-a05f-2625b15906fd"));
    (s "C66", (s "C127", s "4d7b5974-73c5-4078-aa05-856c81275efe"));
    (s "C67", (s "C128", s "44b4b8ea-c748-4761-b496-627b1ace9521"));
    (s "C70", (s "C129", s "0f949479-a7e9-4af1-9b22-d27ba227d642"));
    (s "C74", (s "C130", s "daf50076-ab18-45b1-baaa-0c4227b2f622"));
    (s "C78", (s "C131", s "e41a5372-d764-49df-8ffa-b16dc5d8e01d"));
    (s "R33", (s "R19", s "d0bb546d-01b1-47de-8ba8-9a857a26e9cb"));
    (s "R43", (s "R21", s "f3d7b815-cebc-4b68-9446-81b032afa6de"));
    (s "R46", (s "R24", s "e16f74c3-1aea-40eb-8095-078a827e1055"));
    (s "R49", (s "R48", s "6e4cf0f6-c652-479c-98b9-e9cf6e9c484d"));
    (s "R50", (s "R58", s "5f058f98-653f-4803-af1d-30e4b7222025"));
    (s "R51", (s "R167", s "b0a946fc-02f0-414f-b178-91b6b13bd5a6"));
    (s "R52", (s "R168", s "773a0e0e-14d2-41d6-bb67-56306bf94f83"));
    (s "R56", (s "R170", s "b98c1234-edff-4803-a0be-8a8d2638c8fb"));
    (s "R80", (s "R171", s "110cc942-f5d0-4c75-a2bb-e1d38da8302d")) ].

(** [\n\t\t] *)
Definition NTT : str := [NL; TAB; TAB].

(** The footprint header pattern of line 71. *)
Definition pattern : regex :=
  Group 1
    (Str (TAB :: s "(footprint " ++ [DQ]) ;; Group 2 (ClassPlus not_quote) ;;
     Str [DQ] ;; ClassStar is_space ;;
     Str (NTT ++ s "(layer " ++ [DQ]) ;; ClassPlus not_quote ;;
     Str (DQ :: s ")") ;; ClassStar is_space ;;
     Str (NTT ++ s "(uuid " ++ [DQ]) ;; Group 3 (ClassPlus is_hexdash) ;;
     Str (DQ :: s ")") ;; ClassStar is_space ;;
     Str (NTT ++ s "(at ") ;; Group 4 (ClassPlus is_numch) ;;
     Str (s " ") ;; Group 5 (ClassPlus is_numch))%re.

(** [\(property "Reference" ] *)
Definition ref_head : str := s "(property " ++ [DQ] ++ s "Reference" ++ [DQ] ++ s " ".

(** ["{re.escape(old_ref)}"]: the escaped reference matches itself. *)
Definition quoted (x : str) : str := [DQ] ++ x ++ [DQ].

Definition ref_pattern (old_ref : str) : regex := Str (ref_head ++ quoted old_ref).

(** [\(path "/[a-f0-9-]+"\)] *)
Definition path_pattern : regex :=
  (Str (s "(path " ++ [DQ] ++ s "/") ;; ClassPlus is_hexdash ;; Str (DQ :: s ")"))%re.

(** [(\(property "Reference" )"{re.escape(old_ref)}"] *)
Definition rename_pattern (old_ref : str) : regex :=
  (Group 1 (Str ref_head) ;; Str (quoted old_ref))%re.

(** [\(attr [^\)]+\)], [\n\t\t\(fp_] and [\n\t\t\(pad ] *)
Definition attr_pattern : regex :=
  (Str (s "(attr ") ;; ClassPlus not_rpar ;; Str (s ")"))%re.
Definition fp_pattern : regex := Str (NTT ++ s "(fp_").
Definition pad_pattern : regex := Str (NTT ++ s "(pad ").

Definition insert_text (sch_uuid : str) : str :=
  NTT ++ s "(path " ++ [DQ] ++ s "/" ++ sch_uuid ++ [DQ] ++ s ")" ++
  NTT ++ s "(sheetname " ++ [DQ] ++ s "/" ++ [DQ] ++ s ")" ++
  NTT ++ s "(sheetfile " ++ [DQ] ++ s "isoSPI-M3Y-BMS-PCB.kicad_sch" ++ [DQ] ++ s ")".

Definition has_match (r : regex) (text : str) : bool :=
  match re_search r text with Some _ => true | None => false end.

(** [new_block[:insert_pos] + insert_text + new_block[insert_pos:]] *)
Definition insert_at (pos : nat) (ins text : str) : str :=
  firstn pos text ++ ins ++ skipn pos text.

(** Step 1, lines 110-114.  The replacement [\1"{new_ref}"] is expanded as
    group 1 followed by the quoted new reference; the new references of
    [MAPPING] hold no backslash, so [re.sub] takes them as they are. *)
Definition rename_reference (old_ref new_ref block : str) : str :=
  re_sub (rename_pattern old_ref)
         (fun m => group 1 block m ++ quoted new_ref) block.

(** Step 2, lines 117-135. *)
Definition add_path (sch_uuid new_block : str) : str :=
  match re_search attr_pattern new_block with
  | Some attr_match => insert_at (m_end attr_match) (insert_text sch_uuid) new_block
  | None =>
      match re_search fp_pattern new_block with
      | Some fp_match => insert_at (m_start fp_match) (insert_text sch_uuid) new_block
      | None =>
          match re_search pad_pattern new_block with
          | Some pad_match =>
              insert_at (m_start pad_match) (insert_text sch_uuid) new_block
          | None => new_block
          end
      end
  end.

Definition msg_skipping (old_ref : str) : str :=
  s "Skipping " ++ old_ref ++ s " - already linked".
Definition msg_processing (old_ref new_ref : str) : str :=
  s "Processing " ++ old_ref ++ s " -> " ++ new_ref.

(** The body of the inner [for match in re.finditer(pattern, content)],
    over the matches still to come.  It ends with the new content when a
    block was rewritten (the [break]), with [None] when the matches ran
    out, or with the exception of [float].  [out] collects what is printed. *)
Fixpoint scan_matches (content old_ref new_ref sch_uuid : str)
         (ms : list re_match) (out : list str)
  : outcome (option str * list str) :=
  match ms with
  | [] => Ok (None, out)
  | m :: ms' =>
      match py_float (group 5 content m) with
      | None => Raise ValueError
      | Some y_coord =>
          if float_ge_180 y_coord then
            scan_matches content old_ref new_ref sch_uuid ms' out
          else
            let block_start := m_start m in
            let block_end := find_block_end content block_start in
            let block := slice block_start block_end content in
            if negb (has_match (ref_pattern old_ref) block) then
              scan_matches content old_ref new_ref sch_uuid ms' out
            else if has_match path_pattern block then
              scan_matches content old_ref new_ref sch_uuid ms'
                           (out ++ [msg_skipping old_ref])
            else
              let new_block :=
                add_path sch_uuid (rename_reference old_ref new_ref block) in
              Ok (Some (firstn block_start content ++ new_block
                          ++ skipn block_end content),
                  out ++ [msg_processing old_ref new_ref])
      end
  end.

(** One iteration of the outer loop over the entries. *)
Definition process_entry (e : entry) (content : str) (out : list str)
  : outcome (option str * list str) :=
  let '(old_ref, (new_ref, sch_uuid)) := e in
  scan_matches content old_ref new_ref sch_uuid
               (re_finditer pattern content) out.

Record loop_state : Type := MkState {
  st_content : str;
  st_changes : nat;
  st_out : list str
}.

Fixpoint run_entries (mapping : list entry) (st : loop_state)
  : outcome loop_state :=
  match mapping with
  | [] => Ok st
  | e :: rest =>
      match process_entry e (st_content st) (st_out st) with
      | Raise x => Raise x
      | Ok (None, out) =>
          run_entries rest (MkState (st_content st) (st_changes st) out)
      | Ok (Some content', out) =>
          run_entries rest (MkState content' (S (st_changes st)) out)
      end
  end.

Definition msg_total (changes_made : nat) : str :=
  NL :: s "Total changes made: " ++ str_of_nat changes_made.
Definition msg_written (output_file : string) : str :=
  s "Output written to: " ++ s output_file.

(** What a completed call leaves behind: the files, the printed lines and
    the returned count. *)
Record result : Type := MkResult {
  r_files : files;
  r_out : list str;
  r_changes : nat
}.

(** [apply_mapping(pcb_file, output_file)] over the entries [mapping]; the
    script runs it with [MAPPING]. *)
Definition apply_mapping_with (mapping : list entry) (fs : files)
           (pcb_file output_file : string) : outcome result :=
  match read_text fs pcb_file with
  | Raise x => Raise x
  | Ok content =>
      match run_entries mapping (MkState content 0 []) with
      | Raise x => Raise x
      | Ok st =>
          match write_file fs output_file (st_content st) with
          | Raise x => Raise x
          | Ok fs' =>
              Ok (MkResult fs'
                           (st_out st ++ [msg_total (st_changes st);
                                          msg_written output_file])
                           (st_changes st))
          end
      end
  end.

Definition apply_mapping := apply_mapping_with MAPPING.

End ApplyMapping.

(** ** [reassociate_components.py] *)

Module Reassociate.

Import ApplyMapping.

(** *** Substring search: [in], [str.find], [str.rfind] *)

Fixpoint find_from (w : str) (i : nat) (t : str) : option nat :=
  if starts_with w t then Some i
  else match t with
       | [] => None
       | _ :: t' => find_from w (S i) t'
       end.

(** [t.find(w)]; [None] stands for -1. *)
Definition find (w t : str) : option nat := find_from w 0 t.

(** [w in t] *)
Definition contains (w t : str) : bool :=
  match find w t with Some _ => true | None => false end.

Fixpoint rfind_from (w : str) (i : nat) (t : str) (best : option nat)
  : option nat :=
  let best' := if starts_with w t then Some i else best in
  match t with
  | [] => best'
  | _ :: t' => rfind_from w (S i) t' best'
  end.

(** [t.rfind(w, 0, stop)]: the last occurrence that lies within
    [t[0:stop]]. *)
Definition rfind (w : str) (stop : nat) (t : str) : option nat :=
  rfind_from w 0 (firstn stop t) None.

(** *** The classifier *)

Inductive fp_type : Type :=
| MCU | CAP | RES | LED | CRYSTAL | INDUCTOR | SWITCH | CONNECTOR | OTHER.

Definition fp_type_eqb (a b : fp_type) : bool :=
  match a, b with
  | MCU, MCU | CAP, CAP | RES, RES | LED, LED | CRYSTAL, CRYSTAL
  | INDUCTOR, INDUCTOR | SWITCH, SWITCH | CONNECTOR, CONNECTOR
  | OTHER, OTHER => true
  | _, _ => false
  end.

Definition fp_type_name (t : fp_type) : str :=
  match t with
  | MCU => s "MCU" | CAP => s "CAP" | RES => s "RES" | LED => s "LED"
  | CRYSTAL => s "CRYSTAL" | INDUCTOR => s "INDUCTOR" | SWITCH => s "SWITCH"
  | CONNECTOR => s "CONNECTOR" | OTHER => s "OTHER"
  end.

(** [str.lower] below 256: A-Z and the upper-case letters of Latin-1
    (192-222 without the multiplication sign 215) move up by 32. *)
Definition lower_char (c : ascii) : ascii :=
  if in_range 65 90 c || (in_range 192 222 c && negb (Nat.eqb (code c) 215))
  then ascii_of_nat (code c + 32) else c.

Definition lower (t : str) : str := map lower_char t.

(** [w in fp_lower] for a literal [w]. *)
Definition has (w : string) (fp_lower : str) : bool := contains (s w) fp_lower.

Definition get_footprint_type (footprint : str) : fp_type :=
  let fp_lower := lower footprint in
  if has "rp2350" fp_lower && (has "qfn" fp_lower || has "ep" fp_lower) then MCU
  else if has "capacitor" fp_lower || has "c_0" fp_lower then CAP
  else if has "resistor" fp_lower || has "r_0" fp_lower then RES
  else if has "led" fp_lower then LED
  else if has "crystal" fp_lower then CRYSTAL
  else if has "l_pol" fp_lower || has "inductor" fp_lower then INDUCTOR
  else if has "sw_push" fp_lower || has "switch" fp_lower then SWITCH
  else if has "pinheader" fp_lower || has "connector" fp_lower || has "conn" fp_lower then CONNECTOR
  else OTHER.

(** *** Components

    The dicts built by the two parsers.  [lib_id] is only present on the
    schematic side; [x] and [y] keep the decimal the float was read from. *)

Record component : Type := MkComp {
  reference : str;
  lib_id : option str;
  footprint : str;
  x : dec;
  y : dec;
  uuid : str
}.

(** *** The sort key of lines 174 and 177

    [(x['reference'][0], int(first run of digits) or 0)]: the first
    character of the reference and the number read from the first run of
    digits anywhere in it.  Indexing the empty reference raises
    [IndexError], and [int] raises [ValueError] on a run that is longer
    than the interpreter allows. *)

Fixpoint first_digits (t : str) : option str :=
  match t with
  | [] => None
  | c :: t' =>
      if is_digit c then
        Some (c :: (fix run (u : str) : str :=
                      match u with
                      | d :: u' => if is_digit d then d :: run u' else []
                      | [] => []
                      end) t')
      else first_digits t'
  end.

(** The number a run of digits stands for. *)
Definition int_value (digits : str) : N :=
  fold_left (fun acc c => (acc * 10 + digit_val c)%N) digits 0%N.

(** The longest run of digits that [int] converts: CPython's default,
    [sys.int_info.default_max_str_digits]. *)
Definition int_max_str_digits : nat := 4300.

(** [int] of a run of digits; [None] is the [ValueError] for a run with
    more digits than the limit, leading zeros counted. *)
Definition py_int (digits : str) : option N :=
  if int_max_str_digits <? length digits then None
  else Some (int_value digits).

Definition sort_key (c : component) : outcome (ascii * N) :=
  match reference c with
  | [] => Raise IndexError
  | c0 :: _ =>
      match first_digits (reference c) with
      | Some ds =>
          match py_int ds with
          | Some n => Ok (c0, n)
          | None => Raise ValueError
          end
      | None => Ok (c0, 0%N)
      end
  end.

(** [<] on the key tuples: one-character strings compare by code point. *)
Definition key_ltb (a b : ascii * N) : bool :=
  (code (fst a) <? code (fst b))
  || (Nat.eqb (code (fst a)) (code (fst b)) && (snd a <? snd b)%N).

(** [list.sort(key=...)] is stable: an element goes after every element
    that is not greater than it.  Any stable sort gives this list. *)
Fixpoint insert_sorted (kx : ascii * N) (v : component)
         (l : list ((ascii * N) * component)) : list ((ascii * N) * component) :=
  match l with
  | [] => [(kx, v)]
  | (ky, w) :: l' =>
      if key_ltb kx ky then (kx, v) :: l
      else (ky, w) :: insert_sorted kx v l'
  end.

Definition stable_sort (l : list ((ascii * N) * component))
  : list ((ascii * N) * component) :=
  fold_left (fun acc p => insert_sorted (fst p) (snd p) acc) l [].

(** The keys are computed first, element by element; the first key that
    raises ends the sort. *)
Fixpoint keyed (l : list component) : outcome (list ((ascii * N) * component)) :=
  match l with
  | [] => Ok []
  | c :: l' =>
      match sort_key c with
      | Raise e => Raise e
      | Ok k =>
          match keyed l' with
          | Raise e => Raise e
          | Ok r => Ok ((k, c) :: r)
          end
      end
  end.

(** [l.sort(key=...)] *)
Definition sort_components (l : list component) : outcome (list component) :=
  match keyed l with
  | Ok kl => Ok (map snd (stable_sort kl))
  | Raise e => Raise e
  end.

(** *** [create_mapping] *)

(** A [defaultdict(list)], with its keys in insertion order. *)
Definition groups := list (fp_type * list component).

Fixpoint group_add (t : fp_type) (c : component) (g : groups) : groups :=
  match g with
  | [] => [(t, [c])]
  | (t', l) :: g' =>
      if fp_type_eqb t' t then (t', l ++ [c]) :: g'
      else (t', l) :: group_add t c g'
  end.

Definition group_by_type (comps : list component) : groups :=
  fold_left (fun g c => group_add (get_footprint_type (footprint c)) c g)
            comps [].

(** [d.get(fp_type, [])] *)
Fixpoint get_group (t : fp_type) (g : groups) : list component :=
  match g with
  | [] => []
  | (t', l) :: g' => if fp_type_eqb t' t then l else get_group t g'
  end.

Definition keys (g : groups) : list fp_type := map fst g.

(** The loops of lines 173-177: every list is sorted in place. *)
Fixpoint sort_groups (g : groups) : outcome groups :=
  match g with
  | [] => Ok []
  | (t, l) :: g' =>
      match sort_components l with
      | Raise e => Raise e
      | Ok l' =>
          match sort_groups g' with
          | Raise e => Raise e
          | Ok r => Ok ((t, l') :: r)
          end
      end
  end.

Record mapping_entry : Type := MkEntry {
  pcb_ref : str;
  pcb_uuid : str;
  sch_ref : str;
  sch_uuid : str;
  footprint_type : fp_type
}.

Definition msg_group (t : fp_type) (n_sch n_pcb : nat) : str :=
  NL :: fp_type_name t ++ s ": " ++ str_of_nat n_sch ++ s " schematic, "
     ++ str_of_nat n_pcb ++ s " PCB".
Definition msg_pair (pcb sch : component) : str :=
  s "  " ++ reference pcb ++ s " -> " ++ reference sch.
Definition msg_no_match (pcb : component) : str :=
  s "  " ++ reference pcb ++ s " -> NO MATCH (extra PCB component)".

(** The loop of lines 188-200 from index [i] on: the mapping entries
    appended and the lines printed. *)
Fixpoint pair_up (t : fp_type) (sch_list : list component) (i : nat)
         (pcb_list : list component) : list mapping_entry * list str :=
  match pcb_list with
  | [] => ([], [])
  | pcb_comp :: rest =>
      let (ms, out) := pair_up t sch_list (S i) rest in
      match nth_error sch_list i with
      | Some sch_comp =>
          (MkEntry (reference pcb_comp) (uuid pcb_comp)
                   (reference sch_comp) (uuid sch_comp) t :: ms,
           msg_pair pcb_comp sch_comp :: out)
      | None => (ms, msg_no_match pcb_comp :: out)
      end
  end.

Definition pair_type (sch_by_type pcb_by_type : groups) (t : fp_type)
  : list mapping_entry * list str :=
  let sch_list := get_group t sch_by_type in
  let pcb_list := get_group t pcb_by_type in
  let (ms, out) := pair_up t sch_list 0 pcb_list in
  (ms, msg_group t (length sch_list) (length pcb_list) :: out).

Fixpoint pair_types (sch_by_type pcb_by_type : groups) (ts : list fp_type)
  : list mapping_entry * list str :=
  match ts with
  | [] => ([], [])
  | t :: ts' =>
      let (ms, out) := pair_type sch_by_type pcb_by_type t in
      let (ms', out') := pair_types sch_by_type pcb_by_type ts' in
      (ms ++ ms', out ++ out')
  end.

Section CreateMapping.
(** The order in which Python iterates [set(keys)]; the language leaves
    it open, so it is a parameter. *)
Variable set_order : list fp_type -> list fp_type.

(** Returns the mapping list and the printed lines. *)
Definition create_mapping (sch_components pcb_components : list component)
  : outcome (list mapping_entry * list str) :=
  let sch_by_type := group_by_type sch_components in
  let pcb_by_type := group_by_type pcb_components in
  match sort_groups sch_by_type with
  | Raise e => Raise e
  | Ok sch_sorted =>
      match sort_groups pcb_by_type with
      | Raise e => Raise e
      | Ok pcb_sorted =>
          Ok (pair_types sch_sorted pcb_sorted
                         (set_order (keys sch_sorted ++ keys pcb_sorted)))
      end
  end.
End CreateMapping.

(** *** [apply_mapping_to_pcb] *)

Definition uuid_pattern (pcb_uuid : str) : str :=
  s "(uuid " ++ quoted pcb_uuid ++ s ")".

(** The text a footprint block opens with: tab, "(footprint ", quote. *)
Definition footprint_open : str := TAB :: s "(footprint " ++ [DQ].

(** The text "(path " followed by a quote and a slash. *)
Definition path_open : str := s "(path " ++ [DQ] ++ s "/".

Definition fp_line_pattern : regex := Str (NTT ++ s "(fp_line").

(** No backslash: [re.sub] takes such a replacement text as it is. *)
Definition plain (t : str) : bool :=
  forallb (fun c => negb (Ascii.eqb c "\"%char)) t.

(** Step 1, lines 250-254.  [re.sub] expands the backslash escapes of its
    replacement; the embedding covers the new references without a
    backslash and answers [None] for the others. *)
Definition rename_reference (old_ref new_ref block : str) : option str :=
  if plain new_ref then
    Some (re_sub (ref_pattern old_ref)
                 (fun _ => ref_head ++ quoted new_ref) block)
  else None.

(** Step 2, lines 257-272. *)
Definition add_path (sch_uuid new_block : str) : str :=
  if negb (contains path_open new_block) then
    match re_search attr_pattern new_block with
    | Some attr_match =>
        insert_at (m_end attr_match) (insert_text sch_uuid) new_block
    | None =>
        match re_search fp_line_pattern new_block with
        | Some fp_line_match =>
            insert_at (m_start fp_line_match) (insert_text sch_uuid) new_block
        | None => new_block
        end
    end
  else new_block.

Definition msg_no_uuid (pcb_uuid : str) : str :=
  s "WARNING: Could not find UUID " ++ pcb_uuid ++ s " in PCB file".
Definition msg_no_start (pcb_uuid : str) : str :=
  s "WARNING: Could not find footprint block start for " ++ pcb_uuid.
Definition msg_wrote (output_file : string) : str :=
  NL :: s "Wrote updated PCB to: " ++ s output_file.

(** One iteration of the loop over [mapping]: the new content and the
    lines printed so far. *)
Definition apply_entry (m : mapping_entry) (content : str) (out : list str)
  : option (str * list str) :=
  if negb (contains (uuid_pattern (pcb_uuid m)) content) then
    Some (content, out ++ [msg_no_uuid (pcb_uuid m)])
  else
    match find (uuid_pattern (pcb_uuid m)) content with
    | None => Some (content, out ++ [msg_no_uuid (pcb_uuid m)])
    | Some uuid_pos =>
        match rfind footprint_open uuid_pos content with
        | None => Some (content, out ++ [msg_no_start (pcb_uuid m)])
        | Some block_start =>
            let block_end := find_block_end content block_start in
            let old_block := slice block_start block_end content in
            match rename_reference (pcb_ref m) (sch_ref m) old_block with
            | None => None
            | Some renamed =>
                let new_block := add_path (sch_uuid m) renamed in
                Some (firstn block_start content ++ new_block
                        ++ skipn block_end content, out)
            end
        end
    end.

Fixpoint apply_entries (mapping : list mapping_entry) (content : str)
         (out : list str) : option (str * list str) :=
  match mapping with
  | [] => Some (content, out)
  | m :: rest =>
      match apply_entry m content out with
      | None => None
      | Some (content', out') => apply_entries rest content' out'
      end
  end.

(** [apply_mapping_to_pcb(pcb_file, mapping, output_file)]: the files and
    the printed lines it leaves.  [None] is a run that leaves the embedding
    (see [rename_reference]). *)
Definition apply_mapping_to_pcb (fs : files) (pcb_file : string)
           (mapping : list mapping_entry) (output_file : string)
  : option (outcome (files * list str)) :=
  match read_text fs pcb_file with
  | Raise x => Some (Raise x)
  | Ok content =>
      match apply_entries mapping content [] with
      | None => None
      | Some (content', out) =>
          match write_file fs output_file content' with
          | Raise x => Some (Raise x)
          | Ok fs' => Some (Ok (fs', out ++ [msg_wrote output_file]))
          end
      end
  end.

(** *** [str.split] with a separator

    [t.split(w)] for a separator [w] that is not empty: the pieces between
    the successive occurrences of [w], found left to right without
    overlap.  [split_aux] gives the piece under way and the pieces after
    it; [skip] counts the characters of the separator still to be passed. *)

Fixpoint split_aux (w t : str) (skip : nat) : str * list str :=
  match t with
  | [] => ([], [])
  | c :: t' =>
      match skip with
      | S k => split_aux w t' k
      | O =>
          if starts_with w t then
            let (p, ps) := split_aux w t' (length w - 1) in ([], p :: ps)
          else
            let (p, ps) := split_aux w t' 0 in (c :: p, ps)
      end
  end.

Definition split (w t : str) : list str :=
  let (p, ps) := split_aux w t 0 in p :: ps.

(** *** The two parsers *)

(** [head([class]+)tail], with the run of the class as group 1. *)
Definition field (head : str) (p : ascii -> bool) (tail : str) : regex :=
  (Str head ;; Group 1 (ClassPlus p) ;; Str tail)%re.

(** The pattern of line 29: the quoted value of [lib_id], without quote
    characters inside, and the closing parenthesis. *)
Definition lib_id_pattern : regex :=
  field (s "(lib_id " ++ [DQ]) not_quote (DQ :: s ")").
(** [\(at ([0-9.-]+) ([0-9.-]+)] *)
Definition at_pattern : regex :=
  (Str (s "(at ") ;; Group 1 (ClassPlus is_numch) ;; Str (s " ") ;;
   Group 2 (ClassPlus is_numch))%re.
(** The pattern of lines 45 and 106: the quoted value of [uuid], of
    class [[a-f0-9-]], and the closing parenthesis. *)
Definition uuid_field_pattern : regex :=
  field (s "(uuid " ++ [DQ]) is_hexdash (DQ :: s ")").
(** The pattern of lines 51 and 112: the quoted value of the Reference
    property. *)
Definition reference_pattern : regex := field (ref_head ++ [DQ]) not_quote [DQ].
(** The pattern of line 61: the quoted value of the Footprint property. *)
Definition footprint_property_pattern : regex :=
  field (s "(property " ++ [DQ] ++ s "Footprint" ++ [DQ] ++ s " " ++ [DQ])
        not_quote [DQ].
(** The pattern of line 90: the quoted name a footprint opens with. *)
Definition footprint_name_pattern : regex :=
  field (s "(footprint " ++ [DQ]) not_quote [DQ].

(** [y >= 0] on the double nearest to the decimal: a negative decimal
    gives a double that is not below 0 only when it rounds to -0.0, that
    is when its size is at most half the least subnormal, [2^-1075]. *)
Definition float_ge_0 (y : dec) : bool :=
  negb (d_neg y) || (d_num y * 2 ^ 1075 <=? 10 ^ N.of_nat (d_scale y))%N.

(** [parts[0]] of a split, which always has a first piece. *)
Definition first_piece (w t : str) : str :=
  match split w t with
  | p :: _ => p
  | [] => []
  end.

(** The separators of lines 84 and 87: newline, tab and the opening of a
    footprint; and the same after newline, tab and a closing parenthesis. *)
Definition footprint_sep : str := NL :: footprint_open.
Definition footprint_inner_sep : str := [NL; TAB] ++ s ")" ++ footprint_sep.

(** [\t(symbol\n], [\n\t(symbol\n] and [\n\t)\n\t(symbol\n] *)
Definition symbol_open : str := TAB :: s "(symbol" ++ [NL].
Definition symbol_sep : str := NL :: symbol_open.
Definition symbol_inner_sep : str := [NL; TAB] ++ s ")" ++ symbol_sep.

Definition pcb_block (part : str) : str :=
  footprint_open ++ first_piece footprint_inner_sep part.

Definition sch_block (part : str) : str :=
  symbol_open ++ first_piece symbol_inner_sep part.

(** The body of the loop of lines 86-130 on one part: the component to
    append, [None] for a [continue], or the exception of [float]. *)
Definition pcb_component (part : str) : outcome (option component) :=
  let block := pcb_block part in
  match re_search footprint_name_pattern block with
  | None => Ok None
  | Some fp_match =>
      match re_search at_pattern block with
      | None => Ok None
      | Some at_match =>
          match py_float (group 1 block at_match),
                py_float (group 2 block at_match) with
          | Some x_coord, Some y_coord =>
              if float_ge_180 y_coord then Ok None
              else
                match re_search uuid_field_pattern block with
                | None => Ok None
                | Some uuid_match =>
                    match re_search reference_pattern block with
                    | None => Ok None
                    | Some ref_match =>
                        if has_match path_pattern block then Ok None
                        else
                          Ok (Some (MkComp (group 1 block ref_match) None
                                           (group 1 block fp_match)
                                           x_coord y_coord
                                           (group 1 block uuid_match)))
                    end
                end
          | _, _ => Raise ValueError
          end
      end
  end.

(** The body of the loop of lines 21-71 on one part. *)
Definition sch_component (part : str) : outcome (option component) :=
  let block := sch_block part in
  if negb (contains (s "(lib_name ") block)
     && negb (contains (s "(lib_id ") block) then Ok None
  else
    match re_search lib_id_pattern block with
    | None => Ok None
    | Some lib_match =>
        match re_search at_pattern block with
        | None => Ok None
        | Some at_match =>
            match py_float (group 1 block at_match),
                  py_float (group 2 block at_match) with
            | Some x_coord, Some y_coord =>
                if float_ge_0 y_coord then Ok None
                else
                  match re_search uuid_field_pattern block with
                  | None => Ok None
                  | Some uuid_match =>
                      match re_search reference_pattern block with
                      | None => Ok None
                      | Some ref_match =>
                          let ref := group 1 block ref_match in
                          if starts_with (s "#") ref then Ok None
                          else
                            Ok (Some (MkComp ref
                                        (Some (group 1 block lib_match))
                                        match re_search
                                                footprint_property_pattern
                                                block with
                                        | Some fp_match => group 1 block fp_match
                                        | None => []
                                        end
                                        x_coord y_coord
                                        (group 1 block uuid_match)))
                      end
                  end
            | _, _ => Raise ValueError
            end
        end
    end.

(** The loop over [parts[1:]]: the components appended, in order, unless
    a part raises. *)
Fixpoint collect (body : str -> outcome (option component)) (parts : list str)
  : outcome (list component) :=
  match parts with
  | [] => Ok []
  | part :: rest =>
      match body part with
      | Raise e => Raise e
      | Ok r =>
          match collect body rest with
          | Raise e => Raise e
          | Ok l => Ok (match r with Some c => c :: l | None => l end)
          end
      end
  end.

Definition parse_pcb_components (fs : files) (pcb_file : string)
  : outcome (list component) :=
  match read_text fs pcb_file with
  | Raise x => Raise x
  | Ok content => collect pcb_component (tl (split footprint_sep content))
  end.

Definition parse_schematic_components (fs : files) (sch_file : string)
  : outcome (list component) :=
  match read_text fs sch_file with
  | Raise x => Raise x
  | Ok content => collect sch_component (tl (split symbol_sep content))
  end.

End Reassociate.

(** ** Vocabulary of the statements *)

Module Props.

Import ApplyMapping.

(** What one character does to the counter. *)
Definition paren_delta (c : ascii) : Z :=
  if Ascii.eqb c LPAR then 1 else if Ascii.eqb c RPAR then -1 else 0.

(** Opening minus closing parentheses of a text, quoted or not. *)
Fixpoint depth_of (t : str) : Z :=
  match t with
  | [] => 0
  | c :: t' => (paren_delta c + depth_of t')%Z
  end.

(** Blanking every double quote. *)
Definition unquote (c : ascii) : ascii :=
  if Ascii.eqb c DQ then " "%char else c.

(** Position [n] of [chars] holds a ")" that brings a counter started at
    [d] back to 0. *)
Definition closes_at (d : Z) (chars : str) (n : nat) : Prop :=
  nth_error chars n = Some RPAR /\ (d + depth_of (firstn (S n) chars) = 0)%Z.

(** The scanner as the specification words it: parentheses between two
    double quotes leave the counter alone.  [in_quotes] is the state the
    specification asks for; the scripts have no such state. *)
Fixpoint spec_scan_block (chars : str) (i : nat) (depth : Z)
         (in_quotes : bool) : option nat :=
  match chars with
  | [] => None
  | c :: rest =>
      if Ascii.eqb c DQ then spec_scan_block rest (S i) depth (negb in_quotes)
      else if in_quotes then spec_scan_block rest (S i) depth in_quotes
      else if Ascii.eqb c LPAR then
        spec_scan_block rest (S i) (depth + 1) in_quotes
      else if Ascii.eqb c RPAR then
        if (depth - 1 =? 0)%Z then Some (S i)
        else spec_scan_block rest (S i) (depth - 1) in_quotes
      else spec_scan_block rest (S i) depth in_quotes
  end.

Definition spec_find_block_end (content : str) (block_start : nat)
  : option nat :=
  spec_scan_block (skipn block_start content) block_start 0 false.

(** How many times the parenthesis [p] stands between two double quotes
    of [chars], read from the quote state [in_quotes]. *)
Fixpoint quoted_parens (p : ascii) (chars : str) (in_quotes : bool) : nat :=
  match chars with
  | [] => 0
  | c :: rest =>
      if Ascii.eqb c DQ then quoted_parens p rest (negb in_quotes)
      else (if in_quotes && Ascii.eqb c p then 1 else 0)
           + quoted_parens p rest in_quotes
  end.

(** [u] is [t] with the occurrences of [old] replaced by [new], from left
    to right, none left out and none overlapping another, and every other
    character kept. *)
Inductive rewrites (old new : str) : str -> str -> Prop :=
| rw_nil : rewrites old new [] []
| rw_keep c t u :
    starts_with old (c :: t) = false ->
    rewrites old new t u -> rewrites old new (c :: t) (c :: u)
| rw_repl t u : rewrites old new t u -> rewrites old new (old ++ t) (new ++ u).











(** The block that [apply_mapping] cuts out for a header match. *)
Definition block_of (content : str) (m : re_match) : str :=
  slice (m_start m) (find_block_end content (m_start m)) content.

(** The tests of lines 74-103 on one header match: in the copied area,
    carrying the old reference, and not yet linked. *)
Definition in_copied_area (content : str) (m : re_match) : bool :=
  match py_float (group 5 content m) with
  | Some y_coord => negb (float_ge_180 y_coord)
  | None => false
  end.

Definition carries (old_ref content : str) (m : re_match) : bool :=
  has_match (ref_pattern old_ref) (block_of content m).

Definition linked (content : str) (m : re_match) : bool :=
  has_match path_pattern (block_of content m).

Definition rewritable (old_ref content : str) (m : re_match) : bool :=
  in_copied_area content m && carries old_ref content m
  && negb (linked content m).

(** In the copied area and carrying the old reference, but linked: line
    102 prints its message and the loop goes on. *)
Definition passed_as_linked (old_ref content : str) (m : re_match) : bool :=
  in_copied_area content m && carries old_ref content m && linked content m.

(** The text with the block of [m] replaced by [nb]. *)
Definition splice_block (content : str) (m : re_match) (nb : str) : str :=
  firstn (m_start m) content ++ nb
    ++ skipn (find_block_end content (m_start m)) content.

(** What [apply_mapping] puts in the place of a block. *)
Definition patched (old_ref new_ref sch_uuid block : str) : str :=
  add_path sch_uuid (rename_reference old_ref new_ref block).

(** One of the three anchors of step 2 is in the block. *)
Definition has_anchor (block : str) : bool :=
  has_match attr_pattern block || has_match fp_pattern block
  || has_match pad_pattern block.

(** The sort key as the specification words it: the whole leading run of
    letters, and the digits the identifier ends with (0 when none). *)
Definition is_alpha (c : ascii) : bool := in_range 65 90 c || in_range 97 122 c.

Fixpoint alpha_prefix (t : str) : str :=
  match t with
  | c :: t' => if is_alpha c then c :: alpha_prefix t' else []
  | [] => []
  end.

Fixpoint digit_suffix (t : str) : str :=
  match t with
  | [] => []
  | c :: t' =>
      if forallb is_digit t then t else digit_suffix t'
  end.

Definition spec_sort_key (c : Reassociate.component) : str * N :=
  (alpha_prefix (Reassociate.reference c),
   Reassociate.int_value (digit_suffix (Reassociate.reference c))).

(** [<] on Python strings: by code point, a proper prefix first. *)
Fixpoint str_ltb (a b : str) : bool :=
  match a, b with
  | _, [] => false
  | [], _ :: _ => true
  | c :: a', d :: b' =>
      (code c <? code d) || (Nat.eqb (code c) (code d) && str_ltb a' b')
  end.

Definition spec_key_ltb (a b : str * N) : bool :=
  str_ltb (fst a) (fst b)
  || (str_eqb (fst a) (fst b) && (snd a <? snd b)%N).

(** [<=] on the keys the script sorts by. *)
Definition key_le (a b : Reassociate.component) : Prop :=
  match Reassociate.sort_key a, Reassociate.sort_key b with
  | Ok ka, Ok kb => Reassociate.key_ltb kb ka = false
  | _, _ => False
  end.

(** Two keys neither of which sorts before the other. *)
Definition same_key (a b : ascii * N) : bool :=
  negb (Reassociate.key_ltb a b) && negb (Reassociate.key_ltb b a).

(** The components whose key ties with [k]. *)
Definition with_key (k : ascii * N) (c : Reassociate.component) : bool :=
  match Reassociate.sort_key c with
  | Ok k' => same_key k' k
  | Raise _ => false
  end.

(** The components whose footprint is of type [t]. *)
Definition of_type (t : Reassociate.fp_type) (c : Reassociate.component)
  : bool :=
  Reassociate.fp_type_eqb
    (Reassociate.get_footprint_type (Reassociate.footprint c)) t.

(** The first place of [block] where the literal [w] stands. *)
Definition first_at (w block : str) (pos : nat) : Prop :=
  starts_with w (skipn pos block) = true
  /\ forall j, j < pos -> starts_with w (skipn j block) = false.

(** The text an "(attr ...)" sub-field is made of: at least one character
    other than ")" between "(attr " and ")". *)
Definition attr_field (body : str) : str := s "(attr " ++ body ++ [RPAR].


(** Pairing by position within one type: the entries and the lines that
    lines 188-200 give for the two sorted lists. *)
Definition paired (t : Reassociate.fp_type)
           (sch_list pcb_list : list Reassociate.component)
  : list Reassociate.mapping_entry :=
  map (fun ps =>
         Reassociate.MkEntry
           (Reassociate.reference (fst ps)) (Reassociate.uuid (fst ps))
           (Reassociate.reference (snd ps)) (Reassociate.uuid (snd ps)) t)
      (combine pcb_list sch_list).

Definition report (t : Reassociate.fp_type)
           (sch_list pcb_list : list Reassociate.component) : list str :=
  Reassociate.msg_group t (length sch_list) (length pcb_list)
    :: map (fun ps => Reassociate.msg_pair (fst ps) (snd ps))
           (combine pcb_list sch_list)
    ++ map Reassociate.msg_no_match (skipn (length sch_list) pcb_list).

(** [<=] on the keyed components that the sort works on. *)
Definition keyed_le (p q : (ascii * N) * Reassociate.component) : Prop :=
  Reassociate.key_ltb (fst q) (fst p) = false.

(** A printed line that announces a change. *)
Definition is_processing (line : str) : bool :=
  starts_with (s "Processing ") line.


Definition balanced_pcb_entry (e : Reassociate.mapping_entry) : Prop :=
  depth_of (Reassociate.pcb_ref e) = depth_of (Reassociate.sch_ref e)
  /\ depth_of (Reassociate.sch_uuid e) = 0%Z.

End Props.

(** ** Sample board texts *)

Module Samples.

Import ApplyMapping.

(** [(property "k" "v")] on a line of its own inside a footprint. *)
Definition property (k v : string) : str :=
  NTT ++ s "(property " ++ quoted (s k) ++ s " " ++ quoted (s v) ++ s ")".

(** The header the pattern of [apply_mapping] looks for, up to the
    closing parenthesis of [(at x y)]. *)
Definition header (name uuid x y : string) : str :=
  TAB :: s "(footprint " ++ quoted (s name)
      ++ NTT ++ s "(layer " ++ quoted (s "F.Cu") ++ s ")"
      ++ NTT ++ s "(uuid " ++ quoted (s uuid) ++ s ")"
      ++ NTT ++ s "(at " ++ s x ++ s " " ++ s y ++ s ")".

(** A whole footprint block, closed on a line of its own. *)
Definition footprint_block (name uuid x y : string) (body : str) : str :=
  header name uuid x y ++ body ++ [NL; TAB] ++ s ")" ++ [NL].

Definition attr_smd : str := NTT ++ s "(attr smd)".
Definition fp_line : str := NTT ++ s "(fp_line (start 0 0) (end 1 1))".
Definition pad1 : str := NTT ++ s "(pad " ++ quoted (s "1") ++ s " smd rect)".
Definition path_of (u : string) : str :=
  NTT ++ s "(path " ++ quoted (s "/" ++ s u) ++ s ")".

Definition board (blocks : str) : str :=
  s "(kicad_pcb" ++ [NL] ++ blocks ++ s ")" ++ [NL].

(** One unlinked footprint U11 with the three anchors. *)
Definition u11_block : str :=
  footprint_block "Package_DFN_QFN:QFN-60" "aa-01" "100.5" "120"
    (property "Reference" "U11" ++ attr_smd ++ fp_line ++ pad1).

Definition doc_plain : str := board u11_block.

(** A quoted ")" right before the closing parenthesis of the block. *)
Definition quoted_paren_block : str :=
  header "Package_DFN_QFN:QFN-60" "aa-01" "100.5" "120"
    ++ property "Reference" "U11" ++ attr_smd ++ property "Value" "x)"
    ++ s ")" ++ [NL].

Definition doc_quoted_paren : str := board quoted_paren_block.

(** A footprint whose closing parenthesis is missing, after a sound one. *)
Definition unterminated_block : str :=
  header "Crystal:Crystal_SMD" "aa-02" "50" "60"
    ++ property "Reference" "Y1" ++ attr_smd ++ [NL].

Definition doc_unterminated : str :=
  s "(kicad_pcb" ++ [NL] ++ u11_block ++ unterminated_block.

(** U11 already linked. *)
Definition u11_linked_block : str :=
  footprint_block "Package_DFN_QFN:QFN-60" "aa-01" "100.5" "120"
    (property "Reference" "U11" ++ attr_smd ++ path_of "0000-1111" ++ fp_line).

Definition doc_linked : str := board u11_linked_block.

(** U11 with none of the three anchors. *)
Definition u11_bare_block : str :=
  footprint_block "Package_DFN_QFN:QFN-60" "aa-01" "100.5" "120"
    (property "Reference" "U11" ++ property "Value" "RP2350").

Definition doc_bare : str := board u11_bare_block.

(** Two unlinked footprints that both carry the reference U11. *)
Definition u11_second_block : str :=
  footprint_block "Package_DFN_QFN:QFN-60" "aa-03" "110.5" "120"
    (property "Reference" "U11" ++ attr_smd ++ fp_line).

Definition doc_twice : str := board (u11_block ++ u11_second_block).

(** A linked U11 followed by an unlinked one. *)
Definition doc_linked_then_free : str :=
  board (u11_linked_block ++ u11_second_block).

(** One board file that can be read, in a directory that can be written. *)
Definition fs_of (text : str) : files :=
  MkFiles (fun n => if String.eqb n "board.kicad_pcb" then Ok text
                    else Raise FileNotFoundError)
          (fun _ => None).

(** The same in a directory that cannot be written. *)
Definition fs_read_only (text : str) : files :=
  MkFiles (read_text (fs_of text)) (fun _ => Some PermissionError).

(** Components for [create_mapping]. *)
Definition zero : dec := MkDec false 0 0.

Definition cap (ref u : string) : Reassociate.component :=
  Reassociate.MkComp (s ref) None (s "Capacitor_SMD:C_0402_1005Metric")
                     zero zero (s u).

Definition sch_caps : list Reassociate.component :=
  [cap "C1" "s-1"; cap "C2" "s-2"; cap "C3" "s-3"].
Definition pcb_caps : list Reassociate.component :=
  [cap "C10" "p-10"; cap "C11" "p-11"].

(** A mapping entry that targets the linked U11 by its uuid. *)
Definition entry_u11 : Reassociate.mapping_entry :=
  Reassociate.MkEntry (s "U11") (s "aa-01") (s "U27") (s "e913-1814")
                      Reassociate.MCU.

(** The first entry of [MAPPING] and the block it makes of [u11_block]. *)
Definition u27_uuid : str := s "e9131814-0fd0-4849-9e00-37477ad2ee85".

Definition u27_block : str :=
  footprint_block "Package_DFN_QFN:QFN-60" "aa-01" "100.5" "120"
    (property "Reference" "U27" ++ attr_smd ++ insert_text u27_uuid
       ++ fp_line ++ pad1).

Definition u27_second_block : str :=
  footprint_block "Package_DFN_QFN:QFN-60" "aa-03" "110.5" "120"
    (property "Reference" "U27" ++ attr_smd ++ insert_text u27_uuid
       ++ fp_line).

Definition u27_bare_block : str :=
  footprint_block "Package_DFN_QFN:QFN-60" "aa-01" "100.5" "120"
    (property "Reference" "U27" ++ property "Value" "RP2350").

Definition u27_linked_block : str :=
  footprint_block "Package_DFN_QFN:QFN-60" "aa-01" "100.5" "120"
    (property "Reference" "U27" ++ attr_smd ++ path_of "0000-1111" ++ fp_line).

Definition start_of (text : str) : loop_state := MkState text 0 [].

(** Parts that only differ in their reference. *)
Definition part (ref : string) : Reassociate.component :=
  Reassociate.MkComp (s ref) None (s "Button_Switch_SMD:SW_Push_SPST")
                     zero zero (s "p-0").

(** An iteration order for [set(keys)]: each key once, as first seen. *)
Fixpoint first_seen (ts : list Reassociate.fp_type) : list Reassociate.fp_type :=
  match ts with
  | [] => []
  | t :: ts' =>
      t :: filter (fun u => negb (Reassociate.fp_type_eqb u t)) (first_seen ts')
  end.

(** The unterminated footprint alone, and a mapping entry that targets it
    by its uuid. *)
Definition doc_open : str := s "(kicad_pcb" ++ [NL] ++ unterminated_block.

Definition entry_y1 : Reassociate.mapping_entry :=
  Reassociate.MkEntry (s "Y1") (s "aa-02") (s "Y2") (s "114c-e896")
                      Reassociate.CRYSTAL.

(** A schematic text: C1 above the sheet, a power symbol, C2 on the
    sheet. *)
Definition symbol_block (ref y : string) : str :=
  [NL; TAB] ++ s "(symbol"
    ++ NTT ++ s "(lib_id " ++ quoted (s "Device:C") ++ s ")"
    ++ NTT ++ s "(at 10 " ++ s y ++ s " 0)"
    ++ NTT ++ s "(uuid " ++ quoted (s "ab-12") ++ s ")"
    ++ property "Reference" ref
    ++ property "Footprint" "Capacitor_SMD:C_0402_1005Metric"
    ++ [NL; TAB] ++ s ")".

Definition doc_sch : str :=
  s "(kicad_sch" ++ symbol_block "C1" "-20.5" ++ symbol_block "#PWR1" "-3"
    ++ symbol_block "C2" "5" ++ [NL] ++ s ")" ++ [NL].

Definition fs_both : files :=
  MkFiles (fun n => if String.eqb n "board.kicad_sch" then Ok doc_sch
                    else read_text (fs_of doc_twice) n)
          (fun _ => None).
















(** A footprint whose y coordinate has two points. *)
Definition doc_bad_y : str :=
  board (footprint_block "Crystal:Crystal_SMD" "aa-02" "50" "1.2.3"
           (property "Reference" "Y1" ++ attr_smd)).



End Samples.

(** * Properties *)

Unset Implicit Arguments.
Import Props.
(** ** The scanner *)

Lemma depth_of_cons c t : depth_of (c :: t) = (paren_delta c + depth_of t)%Z.
Proof. reflexivity. Qed.

Lemma closes_at_0 d c rest :
  closes_at d (c :: rest) 0 <-> c = RPAR /\ (d - 1 = 0)%Z.
Proof.
  unfold closes_at. simpl nth_error. simpl firstn. rewrite depth_of_cons.
  unfold paren_delta. simpl depth_of. split.
  - intros [H1 H2]. injection H1 as ->. simpl in H2. split; [reflexivity | lia].
  - intros [-> H]. simpl. split; [reflexivity | lia].
Qed.

Lemma closes_at_S d c rest n :
  closes_at d (c :: rest) (S n) <-> closes_at (d + paren_delta c) rest n.
Proof.
  unfold closes_at. simpl nth_error.
  change (firstn (S (S n)) (c :: rest)) with (c :: firstn (S n) rest).
  rewrite depth_of_cons. split; intros [H1 H2]; (split; [exact H1 | lia]).
Qed.

Lemma scan_block_step c rest i d :
  scan_block (c :: rest) i d =
  if Ascii.eqb c RPAR && (d - 1 =? 0)%Z then Some (S i)
  else scan_block rest (S i) (d + paren_delta c).
Proof.
  simpl. unfold paren_delta.
  destruct (Ascii.eqb c LPAR) eqn:EL.
  - apply Ascii.eqb_eq in EL. subst c. reflexivity.
  - destruct (Ascii.eqb c RPAR); simpl.
    + destruct (d - 1 =? 0)%Z; [reflexivity | f_equal; lia].
    + f_equal. lia.
Qed.

Lemma scan_block_first_close chars :
  forall i d e,
    scan_block chars i d = Some e <->
    exists n, e = i + S n /\ closes_at d chars n
              /\ forall m, m < n -> ~ closes_at d chars m.
Proof.
  induction chars as [|c rest IH]; intros i d e.
  - split; [discriminate |].
    intros (n & _ & [H _] & _). destruct n; discriminate.
  - rewrite scan_block_step.
    destruct (Ascii.eqb c RPAR && (d - 1 =? 0)%Z) eqn:E.
    + apply andb_prop in E as [Ec Ed].
      apply Ascii.eqb_eq in Ec. apply Z.eqb_eq in Ed.
      assert (H0 : closes_at d (c :: rest) 0) by (apply closes_at_0; auto).
      split.
      * intros H. injection H as <-. exists 0. split; [lia |].
        split; [exact H0 | intros m Hm; lia].
      * intros (n & -> & _ & Hmin). destruct n; [f_equal; lia |].
        exfalso. apply (Hmin 0); [lia | exact H0].
    + assert (H0 : ~ closes_at d (c :: rest) 0).
      { rewrite closes_at_0. intros [-> Hd].
        rewrite (proj2 (Z.eqb_eq _ _) Hd) in E. discriminate. }
      rewrite IH. split.
      * intros (n & -> & Hc & Hmin). exists (S n). split; [lia |].
        split; [apply closes_at_S; exact Hc |].
        intros [|m] Hm; [exact H0 |].
        rewrite closes_at_S. apply Hmin. lia.
      * intros (n & -> & Hc & Hmin). destruct n; [contradiction |].
        exists n. split; [lia |]. split; [apply closes_at_S; exact Hc |].
        intros m Hm. rewrite <- closes_at_S. apply Hmin. lia.
Qed.

Lemma scan_block_none chars :
  forall i d,
    scan_block chars i d = None <-> forall n, ~ closes_at d chars n.
Proof.
  induction chars as [|c rest IH]; intros i d.
  - split; [| reflexivity]. intros _ n [H _]. destruct n; discriminate.
  - rewrite scan_block_step.
    destruct (Ascii.eqb c RPAR && (d - 1 =? 0)%Z) eqn:E.
    + split; [discriminate |]. intros H. exfalso. apply (H 0).
      apply andb_prop in E as [Ec Ed]. apply closes_at_0.
      split; [apply Ascii.eqb_eq; exact Ec | apply Z.eqb_eq; exact Ed].
    + rewrite IH. split.
      * intros H [|n].
        -- rewrite closes_at_0. intros [-> Hd].
           rewrite (proj2 (Z.eqb_eq _ _) Hd) in E. discriminate.
        -- rewrite closes_at_S. apply H.
      * intros H n. rewrite <- closes_at_S. apply H.
Qed.

(** A character map that keeps both parentheses where they are and makes
    no new one leaves the scan as it is. *)
Lemma scan_block_map (f : ascii -> ascii) chars :
  (forall c, paren_delta (f c) = paren_delta c) ->
  (forall c, Ascii.eqb (f c) RPAR = Ascii.eqb c RPAR) ->
  forall i d, scan_block (map f chars) i d = scan_block chars i d.
Proof.
  intros Hd Hr. induction chars as [|c rest IH]; intros i d; [reflexivity |].
  change (map f (c :: rest)) with (f c :: map f rest).
  rewrite !scan_block_step, Hd, Hr, IH. reflexivity.
Qed.

Lemma unquote_paren c :
  paren_delta (unquote c) = paren_delta c
  /\ Ascii.eqb (unquote c) RPAR = Ascii.eqb c RPAR.
Proof.
  unfold unquote. destruct (Ascii.eqb c DQ) eqn:E; [| split; reflexivity].
  apply Ascii.eqb_eq in E. subst c. split; reflexivity.
Qed.

(** *** With and without the quote state *)

Lemma spec_scan_block_gt : forall chars i d q e,
  spec_scan_block chars i d q = Some e -> i < e.
Proof.
  induction chars as [|c rest IH]; intros i d q e H; [discriminate |].
  simpl in H.
  destruct (Ascii.eqb c DQ); [apply IH in H; lia |].
  destruct q; [apply IH in H; lia |].
  destruct (Ascii.eqb c LPAR); [apply IH in H; lia |].
  destruct (Ascii.eqb c RPAR); [| apply IH in H; lia].
  destruct (d - 1 =? 0)%Z; [injection H as <-; lia | apply IH in H; lia].
Qed.

Lemma firstn_to_end (c : ascii) rest i e :
  i < e -> firstn (e - i) (c :: rest) = c :: firstn (e - S i) rest.
Proof.
  intros H. replace (e - i) with (S (e - S i)) by lia. reflexivity.
Qed.

Lemma scan_block_agrees : forall chars i d q e,
  spec_scan_block chars i d q = Some e ->
  quoted_parens LPAR (firstn (e - i) chars) q = 0 ->
  quoted_parens RPAR (firstn (e - i) chars) q = 0 ->
  scan_block chars i d = Some e.
Proof.
  induction chars as [|c rest IH]; intros i d q e H HL HR; [discriminate |].
  pose proof (spec_scan_block_gt _ _ _ _ _ H) as Hgt.
  rewrite (firstn_to_end c rest i e Hgt) in HL, HR.
  simpl in H, HL, HR. simpl.
  destruct (Ascii.eqb c DQ) eqn:EQ.
  - apply Ascii.eqb_eq in EQ. subst c. simpl. apply (IH _ _ _ _ H HL HR).
  - destruct q; simpl in HL, HR.
    + destruct (Ascii.eqb c LPAR); [discriminate |].
      destruct (Ascii.eqb c RPAR); [discriminate |].
      apply (IH _ _ _ _ H HL HR).
    + destruct (Ascii.eqb c LPAR); [apply (IH _ _ _ _ H HL HR) |].
      destruct (Ascii.eqb c RPAR); [| apply (IH _ _ _ _ H HL HR)].
      destruct (d - 1 =? 0)%Z; [exact H | apply (IH _ _ _ _ H HL HR)].
Qed.

Lemma scan_block_ahead : forall chars i da db q e,
  (1 <= db < da)%Z ->
  spec_scan_block chars i da q = Some e ->
  quoted_parens LPAR (firstn (e - i) chars) q = 0 ->
  exists e', scan_block chars i db = Some e' /\ i < e' < e.
Proof.
  induction chars as [|c rest IH]; intros i da db q e Hd H HL; [discriminate |].
  pose proof (spec_scan_block_gt _ _ _ _ _ H) as Hgt.
  rewrite (firstn_to_end c rest i e Hgt) in HL.
  simpl in H, HL. simpl.
  assert (Hnext : forall da' db', (1 <= db' < da')%Z ->
            spec_scan_block rest (S i) da' q = Some e ->
            quoted_parens LPAR (firstn (e - S i) rest) q = 0 ->
            exists e', scan_block rest (S i) db' = Some e' /\ i < e' < e).
  { intros da' db' Hd' H' HL'.
    destruct (IH (S i) da' db' q e Hd' H' HL') as (e' & E & He).
    exists e'. split; [exact E | lia]. }
  destruct (Ascii.eqb c DQ) eqn:EQ.
  - apply Ascii.eqb_eq in EQ. subst c. simpl.
    destruct (IH (S i) da db (negb q) e Hd H HL) as (e' & E & He).
    exists e'. split; [exact E | lia].
  - destruct q; simpl in HL.
    + destruct (Ascii.eqb c LPAR); [discriminate |].
      pose proof (spec_scan_block_gt _ _ _ _ _ H) as Hgt'.
      destruct (Ascii.eqb c RPAR); [| apply (Hnext da db Hd H HL)].
      destruct (db - 1 =? 0)%Z eqn:Ez.
      * exists (S i). split; [reflexivity | lia].
      * apply Z.eqb_neq in Ez. apply (Hnext da (db - 1)%Z); [lia | exact H | exact HL].
    + destruct (Ascii.eqb c LPAR).
      * apply (Hnext (da + 1)%Z (db + 1)%Z); [lia | exact H | exact HL].
      * destruct (Ascii.eqb c RPAR); [| apply (Hnext da db Hd H HL)].
        destruct (da - 1 =? 0)%Z eqn:Ea; [apply Z.eqb_eq in Ea; lia |].
        pose proof (spec_scan_block_gt _ _ _ _ _ H) as Hgt'.
        destruct (db - 1 =? 0)%Z eqn:Ez.
        -- exists (S i). split; [reflexivity | lia].
        -- apply Z.eqb_neq in Ez.
           apply (Hnext (da - 1)%Z (db - 1)%Z); [lia | exact H | exact HL].
Qed.

Lemma scan_block_early : forall chars i d q e,
  (1 <= d)%Z ->
  spec_scan_block chars i d q = Some e ->
  quoted_parens LPAR (firstn (e - i) chars) q = 0 ->
  0 < quoted_parens RPAR (firstn (e - i) chars) q ->
  exists e', scan_block chars i d = Some e' /\ i < e' < e.
Proof.
  induction chars as [|c rest IH]; intros i d q e Hd H HL HR; [discriminate |].
  pose proof (spec_scan_block_gt _ _ _ _ _ H) as Hgt.
  rewrite (firstn_to_end c rest i e Hgt) in HL, HR.
  simpl in H, HL, HR. simpl.
  assert (Hnext : forall d' q', (1 <= d')%Z ->
            spec_scan_block rest (S i) d' q' = Some e ->
            quoted_parens LPAR (firstn (e - S i) rest) q' = 0 ->
            0 < quoted_parens RPAR (firstn (e - S i) rest) q' ->
            exists e', scan_block rest (S i) d' = Some e' /\ i < e' < e).
  { intros d' q' Hd' H' HL' HR'.
    destruct (IH (S i) d' q' e Hd' H' HL' HR') as (e' & E & He).
    exists e'. split; [exact E | lia]. }
  destruct (Ascii.eqb c DQ) eqn:EQ.
  - apply Ascii.eqb_eq in EQ. subst c. simpl.
    apply (Hnext d (negb q) Hd H HL HR).
  - destruct q; simpl in HL, HR.
    + destruct (Ascii.eqb c LPAR); [discriminate |].
      pose proof (spec_scan_block_gt _ _ _ _ _ H) as Hgt'.
      destruct (Ascii.eqb c RPAR); [| apply (Hnext d true Hd H HL HR)].
      destruct (d - 1 =? 0)%Z eqn:Ez.
      * exists (S i). split; [reflexivity | lia].
      * apply Z.eqb_neq in Ez.
        destruct (scan_block_ahead rest (S i) d (d - 1)%Z true e) as (e' & E & He);
          [lia | exact H | exact HL |].
        exists e'. split; [exact E | lia].
    + destruct (Ascii.eqb c LPAR).
      * apply (Hnext (d + 1)%Z false); [lia | exact H | exact HL | exact HR].
      * destruct (Ascii.eqb c RPAR); [| apply (Hnext d false Hd H HL HR)].
        destruct (d - 1 =? 0)%Z eqn:Ez.
        -- injection H as <-. replace (S i - S i) with 0 in HR by lia.
           simpl in HR. lia.
        -- apply Z.eqb_neq in Ez.
           apply (Hnext (d - 1)%Z false); [lia | exact H | exact HL | exact HR].
Qed.

Lemma scan_block_early_from : forall pre rest i e,
  forallb (fun c => negb (Ascii.eqb c DQ || Ascii.eqb c LPAR
                          || Ascii.eqb c RPAR)) pre = true ->
  spec_scan_block (pre ++ LPAR :: rest) i 0 false = Some e ->
  quoted_parens LPAR (firstn (e - i) (pre ++ LPAR :: rest)) false = 0 ->
  0 < quoted_parens RPAR (firstn (e - i) (pre ++ LPAR :: rest)) false ->
  exists e', scan_block (pre ++ LPAR :: rest) i 0 = Some e' /\ i < e' < e.
Proof.
  induction pre as [|c pre IH]; intros rest i e Hpre H.
  - pose proof (spec_scan_block_gt _ _ _ _ _ H) as Hgt.
    simpl app in *. rewrite (firstn_to_end LPAR _ i e Hgt).
    simpl in H. simpl. intros HL HR.
    destruct (scan_block_early _ _ _ _ _ (Z.le_refl 1) H HL HR)
      as (e' & E & He).
    exists e'. split; [exact E | lia].
  - pose proof (spec_scan_block_gt _ _ _ _ _ H) as Hgt.
    simpl app in *. rewrite (firstn_to_end c _ i e Hgt).
    simpl in Hpre. apply andb_prop in Hpre as [Hc Hpre].
    apply negb_true_iff in Hc. apply orb_false_iff in Hc as [Hc Hr].
    apply orb_false_iff in Hc as [Hq Hl].
    simpl in H. simpl. rewrite Hq, Hl, Hr in *. simpl. intros HL HR.
    destruct (IH rest (S i) e Hpre H HL HR) as (e' & E & He).
    exists e'. split; [exact E | lia].
Qed.

(** C1, as the scripts have it.  The scanner counts every parenthesis,
    quoted or not: it stops right after the first ")" at which the ")" and
    "(" met since [block_start] balance, and it finds the same end when
    every double quote of the text is blanked out.  There is no
    inside-quotes state.  Where no parenthesis of the block is quoted the
    end is the one a scan that skips quoted text finds; where the block
    opens with "(", after characters that are neither parentheses nor
    quotes, and has a quoted ")" but no quoted "(", the scanner ends it
    early, before that end. *)
Theorem scanner_counts_quoted_parens (content : str) (block_start : nat) :
  (forall e,
      scan_block (skipn block_start content) block_start 0 = Some e <->
      exists n, e = block_start + S n
                /\ closes_at 0 (skipn block_start content) n
                /\ forall m, m < n ->
                             ~ closes_at 0 (skipn block_start content) m)
  /\ find_block_end (map unquote content) block_start
     = find_block_end content block_start
  /\ (forall e,
         spec_find_block_end content block_start = Some e ->
         quoted_parens LPAR (slice block_start e content) false = 0 ->
         quoted_parens RPAR (slice block_start e content) false = 0 ->
         scan_block (skipn block_start content) block_start 0 = Some e)
  /\ (forall e pre rest,
         skipn block_start content = pre ++ LPAR :: rest ->
         forallb (fun c => negb (Ascii.eqb c DQ || Ascii.eqb c LPAR
                                 || Ascii.eqb c RPAR)) pre = true ->
         spec_find_block_end content block_start = Some e ->
         quoted_parens LPAR (slice block_start e content) false = 0 ->
         0 < quoted_parens RPAR (slice block_start e content) false ->
         exists e',
           scan_block (skipn block_start content) block_start 0 = Some e'
           /\ block_start < e' < e).
Proof.
  split; [| split; [| split]].
  - intros e. apply scan_block_first_close.
  - unfold find_block_end. rewrite skipn_map.
    rewrite scan_block_map; [reflexivity | |]; intros c; apply unquote_paren.
  - unfold spec_find_block_end, slice. intros e. apply scan_block_agrees.
  - unfold spec_find_block_end, slice. intros e pre rest -> Hpre.
    apply scan_block_early_from. exact Hpre.
Qed.

(** The footprint of [doc_quoted_paren] opens at offset 11 and has one
    quoted ")": the scanner ends it before offset 169. *)
Lemma scanner_ends_early_on_sample :
  exists e',
    scan_block (skipn 11 Samples.doc_quoted_paren) 11 0 = Some e'
    /\ 11 < e' < 169.
Proof.
  apply (proj2 (proj2 (proj2
           (scanner_counts_quoted_parens Samples.doc_quoted_paren 11)))
           169 [TAB] (skipn 13 Samples.doc_quoted_paren)).
  - vm_compute. reflexivity.
  - vm_compute. reflexivity.
  - vm_compute. reflexivity.
  - vm_compute. reflexivity.
  - vm_compute. lia.
Defined.

(** C1 fails on the scripts: in [doc_quoted_paren] the footprint found at
    offset 11 has a quoted ")" right before its closing parenthesis at
    offset 168.  The scanner ends the block at 168, one short of the end
    that a scan blind to quoted text reaches. *)
Lemma quoted_paren_ends_block_early :
  map m_start (re_finditer ApplyMapping.pattern Samples.doc_quoted_paren) = [11]
  /\ find_block_end Samples.doc_quoted_paren 11 = 168
  /\ spec_find_block_end Samples.doc_quoted_paren 11 = Some 169
  /\ nth_error Samples.doc_quoted_paren 168 = Some RPAR.
Proof. vm_compute. repeat split; reflexivity. Qed.

(** ** Text and slices *)

Lemma starts_with_app w : forall t,
  starts_with w t = true -> t = w ++ skipn (length w) t.
Proof.
  induction w as [|c w IH]; intros t H; [reflexivity |].
  destruct t as [|d t]; [discriminate |]. simpl in H.
  apply andb_prop in H as [Hc Hw]. apply Ascii.eqb_eq in Hc. subst d.
  simpl. f_equal. apply IH. exact Hw.
Qed.


Lemma starts_with_length w t : starts_with w t = true -> length w <= length t.
Proof.
  intros H. rewrite (starts_with_app w t H), length_app. lia.
Qed.

Lemma slice_app_pre (pre t : str) pos k :
  pos <= length pre ->
  slice pos (length pre + k) (pre ++ t) = skipn pos pre ++ firstn k t.
Proof.
  intros H. unfold slice. rewrite skipn_app, firstn_app, length_skipn.
  replace (pos - length pre) with 0 by lia. simpl skipn.
  rewrite firstn_all2 by (rewrite length_skipn; lia).
  f_equal. f_equal. lia.
Qed.

Lemma slice_empty a b (t : str) : b <= a -> slice a b t = [].
Proof. intros H. unfold slice. replace (b - a) with 0 by lia. reflexivity. Qed.

Lemma slice_to_end (t : str) pos : slice pos (length t) t = skipn pos t.
Proof. unfold slice. apply firstn_all2. rewrite length_skipn. lia. Qed.

(** ** The matcher *)

Section MatcherFacts.
Variable A : Type.

Lemma star_run_kont p : forall t i cs (k : kont A) x,
  star_run p i t cs k = Some x ->
  exists n, n <= length t /\ forallb p (firstn n t) = true
            /\ k (i + n) (skipn n t) cs = Some x.
Proof.
  induction t as [|c t IH]; intros i cs k x H; simpl in H.
  - exists 0. rewrite Nat.add_0_r. auto.
  - destruct (p c) eqn:Ep.
    + destruct (star_run p (S i) t cs k) eqn:E.
      * injection H as ->. apply IH in E as (n & Hn & Hp & Hk).
        exists (S n). simpl. rewrite Ep, Hp.
        replace (i + S n) with (S i + n) by lia. repeat split; [lia | exact Hk].
      * exists 0. rewrite Nat.add_0_r. simpl. repeat split; [lia | exact H].
    + exists 0. rewrite Nat.add_0_r. simpl. repeat split; [lia | exact H].
Qed.

(** A match only ever answers what its continuation answers, on a suffix
    of the text. *)
Lemma rmatch_kont r : forall i t cs (k : kont A) x,
  rmatch r i t cs k = Some x ->
  exists n cs', n <= length t /\ k (i + n) (skipn n t) cs' = Some x.
Proof.
  induction r as [w | p | p | p | r1 IH1 r2 IH2 | g r IH];
    intros i t cs k x H; simpl in H.
  - destruct (starts_with w t) eqn:E; [| discriminate].
    exists (length w), cs. split; [apply starts_with_length; exact E | exact H].
  - destruct t as [|c t]; [discriminate |].
    destruct (p c); [| discriminate].
    exists 1, cs. replace (i + 1) with (S i) by lia. simpl. split; [lia | exact H].
  - apply star_run_kont in H as (n & Hn & _ & Hk). exists n, cs. auto.
  - destruct t as [|c t]; [discriminate |].
    destruct (p c); [| discriminate].
    apply star_run_kont in H as (n & Hn & _ & Hk). exists (S n), cs.
    replace (i + S n) with (S i + n) by lia. simpl. split; [lia | exact Hk].
  - apply IH1 in H as (n1 & cs1 & Hn1 & H).
    apply IH2 in H as (n2 & cs2 & Hn2 & H).
    exists (n2 + n1), cs2. rewrite <- skipn_skipn.
    replace (i + (n2 + n1)) with (i + n1 + n2) by lia.
    rewrite length_skipn in Hn2. split; [lia | exact H].
  - apply IH in H as (n & cs1 & Hn & H). eauto.
Qed.
End MatcherFacts.

Lemma match_here_span r i t m :
  match_here r i t = Some m ->
  m_start m = i /\ exists n, m_end m = i + n /\ n <= length t.
Proof.
  unfold match_here. intros H.
  apply rmatch_kont in H as (n & cs & Hn & H). injection H as <-.
  simpl. eauto.
Qed.



(** [re.sub] with a pattern that only ever matches the literal [w] and a
    replacement that is always [new]. *)
Section LiteralSub.
Variables (r : regex) (w new text : str) (repl : re_match -> str).
Hypothesis w_not_empty : w <> [].
Hypothesis literal : forall pre t m,
  text = pre ++ t -> match_here r (length pre) t = Some m ->
  starts_with w t = true /\ m_start m = length pre
  /\ m_end m = length pre + length w /\ repl m = new.
Hypothesis complete : forall pre t,
  text = pre ++ t -> match_here r (length pre) t = None ->
  starts_with w t = false.

Lemma sub_build_rewrites : forall t pre pos skip,
  text = pre ++ t ->
  (skip = 0 -> pos <= length pre) ->
  (0 < skip -> pos = length pre + skip) ->
  skip <= length t ->
  exists u,
    sub_build text pos (finditer_from r (length pre) t skip) repl
    = slice pos (length pre) text ++ u
    /\ rewrites w new (skipn skip t) u.
Proof.
  induction t as [|c t IH]; intros pre pos skip Ht H0 Hpos Hlen.
  - simpl in Hlen. assert (skip = 0) by lia. subst skip. simpl.
    destruct (match_here r (length pre) []) eqn:E.
    + destruct (literal pre [] _ Ht E) as (Hw & _).
      destruct w; [congruence | discriminate].
    + exists []. simpl. rewrite app_nil_r. split; [| constructor].
      rewrite Ht, app_nil_r. symmetry. apply slice_to_end.
  - assert (Hpre : text = (pre ++ [c]) ++ t) by (rewrite <- app_assoc; exact Ht).
    assert (Hl : length (pre ++ [c]) = S (length pre))
      by (rewrite length_app; simpl; lia).
    destruct skip as [|sk].
    + specialize (H0 eq_refl). simpl.
      destruct (match_here r (length pre) (c :: t)) eqn:E.
      * destruct (literal pre (c :: t) _ Ht E) as (Hw & Hs & He & Hr).
        assert (Hwl : 0 < length w) by (destruct w; [congruence | simpl; lia]).
        pose proof (starts_with_length _ _ Hw) as Hwt. simpl in Hwt.
        simpl. rewrite Hs, He, Hr.
        replace (length pre + length w - length pre - 1) with (length w - 1)
          by lia.
        destruct (IH (pre ++ [c]) (length pre + length w) (length w - 1) Hpre)
          as (u & Hu & Hrw).
        { rewrite Hl. lia. }
        { rewrite Hl. lia. }
        { lia. }
        rewrite Hl in Hu. rewrite Hu. exists (new ++ u). split.
        -- rewrite (slice_empty (length pre + length w) (S (length pre)))
             by lia. reflexivity.
        -- rewrite (starts_with_app w (c :: t) Hw).
           replace (skipn (length w) (c :: t)) with (skipn (length w - 1) t)
             by (destruct (length w); [lia | simpl; f_equal; lia]).
           simpl skipn. apply rw_repl. exact Hrw.
      * destruct (IH (pre ++ [c]) pos 0 Hpre) as (u & Hu & Hrw).
        { rewrite Hl. lia. }
        { lia. }
        { lia. }
        rewrite Hl in Hu. rewrite Hu. exists (c :: u). split.
        -- rewrite Ht.
           rewrite <- (Nat.add_0_r (length pre)) at 2.
           replace (S (length pre)) with (length pre + 1) by lia.
           rewrite !slice_app_pre by lia. simpl. rewrite <- app_assoc.
           rewrite app_nil_r. reflexivity.
        -- simpl. apply rw_keep; [apply (complete pre _ Ht E) | exact Hrw].
    + specialize (Hpos ltac:(lia)). simpl in Hlen. simpl.
      destruct (IH (pre ++ [c]) pos sk Hpre) as (u & Hu & Hrw).
      { rewrite Hl. lia. }
      { rewrite Hl. lia. }
      { lia. }
      rewrite Hl in Hu. rewrite Hu. exists u. split; [| exact Hrw].
      rewrite !slice_empty by lia. reflexivity.
Qed.

Lemma re_sub_rewrites : rewrites w new text (re_sub r repl text).
Proof.
  destruct (sub_build_rewrites text [] 0 0 eq_refl) as (u & Hu & Hrw);
    try (simpl; lia).
  unfold re_sub, re_finditer. simpl length in Hu. rewrite Hu.
  rewrite slice_empty by lia. exact Hrw.
Qed.
End LiteralSub.

Lemma starts_with_split a b : forall t,
  starts_with (a ++ b) t
  = starts_with a t && starts_with b (skipn (length a) t).
Proof.
  induction a as [|c a IH]; intros t; [reflexivity |].
  destruct t as [|d t]; [reflexivity |]. simpl.
  rewrite IH, andb_assoc. reflexivity.
Qed.

Section Unfold.
Variable A : Type.
Variables (i : nat) (t : str) (cs : caps) (k : kont A).

Lemma rmatch_Str w :
  rmatch (Str w) i t cs k
  = if starts_with w t then k (i + length w) (skipn (length w) t) cs
    else None.
Proof. reflexivity. Qed.

Lemma rmatch_Seq r1 r2 :
  rmatch (Seq r1 r2) i t cs k
  = rmatch r1 i t cs (fun j u cs' => rmatch r2 j u cs' k).
Proof. reflexivity. Qed.

Lemma rmatch_Group g r :
  rmatch (Group g r) i t cs k
  = rmatch r i t cs (fun j u cs' => k j u ((g, (i, j)) :: cs')).
Proof. reflexivity. Qed.

Lemma rmatch_ClassPlus p :
  rmatch (ClassPlus p) i t cs k
  = match t with
    | c :: t' => if p c then star_run p (S i) t' cs k else None
    | [] => None
    end.
Proof. reflexivity. Qed.

Lemma rmatch_ClassStar p :
  rmatch (ClassStar p) i t cs k = star_run p i t cs k.
Proof. reflexivity. Qed.
End Unfold.

Lemma match_here_Str w i t :
  match_here (Str w) i t
  = if starts_with w t then Some (MkMatch i (i + length w) []) else None.
Proof. reflexivity. Qed.

Lemma quoted_not_empty x : ApplyMapping.ref_head ++ ApplyMapping.quoted x <> [].
Proof. unfold ApplyMapping.ref_head. simpl. intros H. discriminate H. Qed.

(** ** Renaming the reference *)


(** Step 1 of [apply_mapping_to_pcb], for a new reference without a
    backslash. *)
Lemma rename_reference_pcb_rewrites old_ref new_ref block renamed :
  Reassociate.rename_reference old_ref new_ref block = Some renamed ->
  rewrites (ApplyMapping.ref_head ++ ApplyMapping.quoted old_ref)
           (ApplyMapping.ref_head ++ ApplyMapping.quoted new_ref)
           block renamed.
Proof.
  unfold Reassociate.rename_reference.
  destruct (Reassociate.plain new_ref); [| discriminate].
  intros H. injection H as <-.
  apply re_sub_rewrites; [apply quoted_not_empty | |].
  - intros pre t m Ht Hm. unfold ApplyMapping.ref_pattern in Hm.
    rewrite match_here_Str in Hm.
    destruct (starts_with _ t) eqn:E; [| discriminate].
    injection Hm as <-. auto.
  - intros pre t _ Hm. unfold ApplyMapping.ref_pattern in Hm.
    rewrite match_here_Str in Hm.
    destruct (starts_with _ t); [discriminate | reflexivity].
Qed.

(** ** One entry of [apply_mapping] *)

Section ScanMatches.
Import ApplyMapping.
Variables content old_ref new_ref sch_uuid : str.

Local Abbreviation scan := (scan_matches content old_ref new_ref sch_uuid).

Lemma scan_matches_cons m ms out :
  scan (m :: ms) out =
  match py_float (group 5 content m) with
  | None => Raise ValueError
  | Some y_coord =>
      if float_ge_180 y_coord then scan ms out
      else if negb (carries old_ref content m) then scan ms out
      else if linked content m then scan ms (out ++ [msg_skipping old_ref])
      else Ok (Some (splice_block content m
                       (patched old_ref new_ref sch_uuid (block_of content m))),
               out ++ [msg_processing old_ref new_ref])
  end.
Proof. reflexivity. Qed.

(** The four ways one match is dealt with. *)
Lemma scan_matches_step m ms out :
  scan (m :: ms) out = Raise ValueError
  \/ (rewritable old_ref content m = false
      /\ passed_as_linked old_ref content m = false
      /\ scan (m :: ms) out = scan ms out)
  \/ (rewritable old_ref content m = false
      /\ passed_as_linked old_ref content m = true
      /\ scan (m :: ms) out = scan ms (out ++ [msg_skipping old_ref]))
  \/ (rewritable old_ref content m = true
      /\ scan (m :: ms) out
         = Ok (Some (splice_block content m
                       (patched old_ref new_ref sch_uuid (block_of content m))),
               out ++ [msg_processing old_ref new_ref])).
Proof.
  rewrite scan_matches_cons.
  unfold rewritable, passed_as_linked, in_copied_area.
  destruct (py_float (group 5 content m)) as [y|]; [| left; reflexivity].
  right.
  destruct (float_ge_180 y); [left; auto |].
  destruct (carries old_ref content m); [| left; auto].
  destruct (linked content m); [right; left; auto | right; right; auto].
Qed.


End ScanMatches.

(** ** Where a block starts *)





(** ** Where the fragment goes *)


Lemma add_path_pcb_inserts sch_uuid block :
  Reassociate.add_path sch_uuid block = block
  \/ exists pos,
      Reassociate.add_path sch_uuid block
      = ApplyMapping.insert_at pos (ApplyMapping.insert_text sch_uuid) block.
Proof.
  unfold Reassociate.add_path.
  destruct (negb (Reassociate.contains Reassociate.path_open block));
    [| left; reflexivity].
  destruct (re_search ApplyMapping.attr_pattern block); [right; eauto |].
  destruct (re_search Reassociate.fp_line_pattern block); [right; eauto |].
  left. reflexivity.
Qed.

(** ** Every change is a change inside one scanned span *)





(** A mapping whose schematic references hold no backslash is applied to
    the end. *)
Lemma apply_entry_plain m content out :
  Reassociate.plain (Reassociate.sch_ref m) = true ->
  exists r, Reassociate.apply_entry m content out = Some r.
Proof.
  intros Hp. unfold Reassociate.apply_entry.
  destruct (negb (Reassociate.contains _ content)); [eauto |].
  destruct (Reassociate.find _ content) as [uuid_pos|]; [| eauto].
  destruct (Reassociate.rfind _ uuid_pos content) as [block_start|];
    [| eauto].
  unfold Reassociate.rename_reference. rewrite Hp. eauto.
Qed.

Lemma apply_entries_plain : forall mapping content out,
  Forall (fun m => Reassociate.plain (Reassociate.sch_ref m) = true) mapping ->
  exists content' out',
    Reassociate.apply_entries mapping content out = Some (content', out').
Proof.
  induction mapping as [|m rest IH]; intros content out H; simpl; [eauto |].
  inversion H as [|? ? Hm Hrest]; subst.
  destruct (apply_entry_plain m content out Hm) as [[c1 o1] ->].
  apply IH. exact Hrest.
Qed.




(** ** One entry, one block *)

Lemma run_entries_cons e rest st :
  ApplyMapping.run_entries (e :: rest) st =
  match ApplyMapping.process_entry e (ApplyMapping.st_content st)
                                   (ApplyMapping.st_out st) with
  | Raise x => Raise x
  | Ok (None, out) =>
      ApplyMapping.run_entries rest
        (ApplyMapping.MkState (ApplyMapping.st_content st)
                              (ApplyMapping.st_changes st) out)
  | Ok (Some content', out) =>
      ApplyMapping.run_entries rest
        (ApplyMapping.MkState content' (S (ApplyMapping.st_changes st)) out)
  end.
Proof. reflexivity. Qed.





(** ** Blocks that are linked already *)





(** ** What a run leaves behind *)

Lemma run_entries_changes : forall mapping st st',
  ApplyMapping.run_entries mapping st = Ok st' ->
  ApplyMapping.st_changes st <= ApplyMapping.st_changes st'
  /\ (ApplyMapping.st_changes st' = ApplyMapping.st_changes st ->
      ApplyMapping.st_content st' = ApplyMapping.st_content st).
Proof.
  induction mapping as [|e rest IH]; intros st st' H.
  - injection H as <-. auto.
  - rewrite run_entries_cons in H.
    destruct (ApplyMapping.process_entry _ _ _) as [[[content'|] out']|];
      [| | discriminate]; apply IH in H as [Hle Heq]; simpl in *.
    + split; [lia | intros E; lia].
    + split; [exact Hle | exact Heq].
Qed.

Lemma scan_matches_raise content old_ref new_ref sch_uuid : forall ms out x,
  ApplyMapping.scan_matches content old_ref new_ref sch_uuid ms out = Raise x ->
  x = ValueError.
Proof.
  induction ms as [|m ms IH]; intros out x H; [discriminate |].
  destruct (scan_matches_step content old_ref new_ref sch_uuid m ms out)
    as [E | [(_ & _ & E) | [(_ & _ & E) | (_ & E)]]]; rewrite E in H.
  - injection H as <-. reflexivity.
  - apply (IH _ _ H).
  - apply (IH _ _ H).
  - discriminate.
Qed.

Lemma run_entries_raise : forall mapping st x,
  ApplyMapping.run_entries mapping st = Raise x -> x = ValueError.
Proof.
  induction mapping as [|[old_ref [new_ref sch_uuid]] rest IH]; intros st x H;
    [discriminate |].
  rewrite run_entries_cons in H. unfold ApplyMapping.process_entry in H.
  destruct (ApplyMapping.scan_matches _ _ _ _ _ _)
    as [[[content'|] out']|y] eqn:E.
  - apply (IH _ _ H).
  - apply (IH _ _ H).
  - injection H as <-. apply (scan_matches_raise _ _ _ _ _ _ _ E).
Qed.

(** C8, as the scripts have it.  [apply_mapping] reads, loops over the
    entries and then writes.  It returns exactly when the three steps
    raise nothing, and then the output file holds the text the loop ended
    with, which is the text read when the count of changes is 0; every
    other file reads as before.  It raises what reading raises, or the
    [ValueError] of [float] in the loop, or what opening and writing the
    output raises; in the first two cases the output has not been opened.
    [apply_mapping_to_pcb], on a mapping whose schematic references hold
    no backslash, writes the text its loop ended with in the same way.  No
    other condition keeps a run from writing. *)
Theorem output_is_written_unless_an_exception_is_raised
        mapping fs pcb_file output_file :
  (forall r,
      ApplyMapping.apply_mapping_with mapping fs pcb_file output_file = Ok r ->
      exists content st,
        read_text fs pcb_file = Ok content
        /\ ApplyMapping.run_entries mapping (ApplyMapping.MkState content 0 [])
           = Ok st
        /\ write_error fs output_file = None
        /\ read_text (ApplyMapping.r_files r) output_file
           = Ok (ApplyMapping.st_content st)
        /\ (forall n, String.eqb n output_file = false ->
                      read_text (ApplyMapping.r_files r) n = read_text fs n)
        /\ ApplyMapping.r_changes r = ApplyMapping.st_changes st
        /\ (ApplyMapping.r_changes r = 0 -> ApplyMapping.st_content st = content))
  /\ (forall x,
         ApplyMapping.apply_mapping_with mapping fs pcb_file output_file
         = Raise x ->
         read_text fs pcb_file = Raise x
         \/ (exists content,
                read_text fs pcb_file = Ok content
                /\ x = ValueError
                /\ ApplyMapping.run_entries mapping
                     (ApplyMapping.MkState content 0 []) = Raise ValueError)
         \/ (exists content st,
                read_text fs pcb_file = Ok content
                /\ ApplyMapping.run_entries mapping
                     (ApplyMapping.MkState content 0 []) = Ok st
                /\ write_error fs output_file = Some x))
  /\ (forall content st,
         read_text fs pcb_file = Ok content ->
         ApplyMapping.run_entries mapping (ApplyMapping.MkState content 0 [])
         = Ok st ->
         write_error fs output_file = None ->
         exists r,
           ApplyMapping.apply_mapping_with mapping fs pcb_file output_file = Ok r
           /\ read_text (ApplyMapping.r_files r) output_file
              = Ok (ApplyMapping.st_content st))
  /\ (forall pcb_mapping content,
         read_text fs pcb_file = Ok content ->
         Forall (fun m => Reassociate.plain (Reassociate.sch_ref m) = true)
                pcb_mapping ->
         write_error fs output_file = None ->
         exists content' out fs' out',
           Reassociate.apply_entries pcb_mapping content []
           = Some (content', out)
           /\ Reassociate.apply_mapping_to_pcb fs pcb_file pcb_mapping
                output_file
              = Some (Ok (fs', out'))
           /\ read_text fs' output_file = Ok content').
Proof.
  unfold ApplyMapping.apply_mapping_with, Reassociate.apply_mapping_to_pcb,
    write_file.
  split; [| split; [| split]].
  - intros r H. destruct (read_text fs pcb_file) as [content|]; [| discriminate].
    destruct (ApplyMapping.run_entries _ _) as [st|] eqn:E; [| discriminate].
    destruct (write_error fs output_file) eqn:Ew; [discriminate |].
    injection H as <-. exists content, st. simpl.
    rewrite String.eqb_refl.
    split; [reflexivity |]. split; [exact E |]. split; [reflexivity |].
    split; [reflexivity |].
    split; [intros n Hn; rewrite Hn; reflexivity |].
    split; [reflexivity |].
    intros H0. apply run_entries_changes in E as [_ E]. simpl in E.
    apply E. exact H0.
  - intros x H. destruct (read_text fs pcb_file) as [content|y].
    + destruct (ApplyMapping.run_entries _ _) as [st|y] eqn:E.
      * destruct (write_error fs output_file) as [y|] eqn:Ew; [| discriminate].
        injection H as <-. right. right. exists content, st. auto.
      * injection H as <-. right. left.
        pose proof (run_entries_raise _ _ _ E) as ->.
        exists content. auto.
    + injection H as <-. left. reflexivity.
  - intros content st Hf E Ew. rewrite Hf, E, Ew. eexists.
    split; [reflexivity |]. simpl. rewrite String.eqb_refl. reflexivity.
  - intros pcb_mapping content Hf Hp Ew.
    destruct (apply_entries_plain pcb_mapping content [] Hp)
      as (content' & out & E).
    rewrite Hf, E, Ew. exists content', out. eexists. eexists.
    split; [reflexivity |]. split; [reflexivity |].
    simpl. rewrite String.eqb_refl. reflexivity.
Qed.

Lemma output_is_written_on_sample :
  (exists r,
      ApplyMapping.apply_mapping (Samples.fs_of Samples.doc_linked)
        "board.kicad_pcb"%string "out.kicad_pcb"%string = Ok r
      /\ read_text (ApplyMapping.r_files r) "out.kicad_pcb"%string
         = Ok Samples.doc_linked)
  /\ (read_text (Samples.fs_read_only Samples.doc_linked)
                "board.kicad_pcb"%string = Raise PermissionError
      \/ (exists content,
             read_text (Samples.fs_read_only Samples.doc_linked)
                       "board.kicad_pcb"%string = Ok content
             /\ PermissionError = ValueError
             /\ ApplyMapping.run_entries ApplyMapping.MAPPING
                  (ApplyMapping.MkState content 0 []) = Raise ValueError)
      \/ (exists content st,
             read_text (Samples.fs_read_only Samples.doc_linked)
                       "board.kicad_pcb"%string = Ok content
             /\ ApplyMapping.run_entries ApplyMapping.MAPPING
                  (ApplyMapping.MkState content 0 []) = Ok st
             /\ write_error (Samples.fs_read_only Samples.doc_linked)
                            "board.kicad_pcb"%string = Some PermissionError)).
Proof.
  split.
  - apply (proj1 (proj2 (proj2
             (output_is_written_unless_an_exception_is_raised
                ApplyMapping.MAPPING (Samples.fs_of Samples.doc_linked)
                "board.kicad_pcb"%string "out.kicad_pcb"%string)))
             Samples.doc_linked
             (ApplyMapping.MkState Samples.doc_linked 0
                [ApplyMapping.msg_skipping (s "U11")])).
    + reflexivity.
    + vm_compute. reflexivity.
    + reflexivity.
  - apply (proj1 (proj2
             (output_is_written_unless_an_exception_is_raised
                ApplyMapping.MAPPING (Samples.fs_read_only Samples.doc_linked)
                "board.kicad_pcb"%string "board.kicad_pcb"%string))).
    vm_compute. reflexivity.
Defined.

(** C8 fails on the scripts: [doc_unterminated] holds a footprint whose
    closing parenthesis is missing, and [doc_bare] one without any anchor
    for the path.  The run over each of them ends normally with one change
    counted and writes the output file: the first with the unterminated
    footprint passed over, the second with the reference renamed and no
    path. *)
Lemma output_written_for_broken_documents :
  scan_block (skipn 201 Samples.doc_unterminated) 201 0 = None
  /\ (exists r,
         ApplyMapping.apply_mapping (Samples.fs_of Samples.doc_unterminated)
           "board.kicad_pcb"%string "out.kicad_pcb"%string = Ok r
         /\ ApplyMapping.r_changes r = 1
         /\ read_text (ApplyMapping.r_files r) "out.kicad_pcb"%string
            = Ok (s "(kicad_pcb" ++ [NL] ++ Samples.u27_block
                    ++ Samples.unterminated_block))
  /\ (exists r,
         ApplyMapping.apply_mapping (Samples.fs_of Samples.doc_bare)
           "board.kicad_pcb"%string "out.kicad_pcb"%string = Ok r
         /\ ApplyMapping.r_changes r = 1
         /\ read_text (ApplyMapping.r_files r) "out.kicad_pcb"%string
            = Ok (Samples.board Samples.u27_bare_block)).
Proof.
  split; [vm_compute; reflexivity |].
  split; eexists; (split; [vm_compute; reflexivity |]);
    split; vm_compute; reflexivity.
Qed.

(** ** A block that never closes *)

Lemma find_block_end_open content bs :
  (forall n, ~ closes_at 0 (skipn bs content) n) ->
  find_block_end content bs = bs.
Proof.
  intros H. unfold find_block_end.
  apply (scan_block_none (skipn bs content) bs 0) in H. rewrite H. reflexivity.
Qed.

Lemma ref_pattern_not_in_empty old_ref :
  ApplyMapping.has_match (ApplyMapping.ref_pattern old_ref) [] = false.
Proof. reflexivity. Qed.

Lemma rename_reference_pcb_empty old_ref new_ref :
  Reassociate.plain new_ref = true ->
  Reassociate.rename_reference old_ref new_ref [] = Some [].
Proof. unfold Reassociate.rename_reference. intros ->. reflexivity. Qed.

(** C9, as the scripts have it.  When no ")" after [block_start] brings
    the counter back to 0, the scanner raises nothing: [block_end] stays
    at [block_start] and the block is the empty text.  [apply_mapping]
    then finds no reference in it and goes on with the next header match;
    [apply_mapping_to_pcb] puts the empty block back and the text is as it
    was, with nothing printed. *)
Theorem unterminated_block_is_passed_over content bs :
  (forall n, ~ closes_at 0 (skipn bs content) n) ->
  find_block_end content bs = bs
  /\ slice bs (find_block_end content bs) content = []
  /\ (forall old_ref new_ref sch_uuid m ms out,
         m_start m = bs ->
         py_float (group 5 content m) <> None ->
         ApplyMapping.scan_matches content old_ref new_ref sch_uuid (m :: ms) out
         = ApplyMapping.scan_matches content old_ref new_ref sch_uuid ms out)
  /\ (forall e out up,
         Reassociate.find (Reassociate.uuid_pattern (Reassociate.pcb_uuid e))
                          content = Some up ->
         Reassociate.rfind Reassociate.footprint_open up content = Some bs ->
         Reassociate.plain (Reassociate.sch_ref e) = true ->
         Reassociate.apply_entry e content out = Some (content, out)).
Proof.
  intros H. pose proof (find_block_end_open content bs H) as E.
  assert (Es : slice bs (find_block_end content bs) content = [])
    by (rewrite E; apply slice_empty; lia).
  split; [exact E |]. split; [exact Es |]. split.
  - intros old_ref new_ref sch_uuid m ms out Hm Hy.
    rewrite scan_matches_cons.
    destruct (py_float (group 5 content m)) as [y_coord|]; [| congruence].
    destruct (float_ge_180 y_coord); [reflexivity |].
    unfold carries, block_of. rewrite Hm, Es, ref_pattern_not_in_empty.
    reflexivity.
  - intros e out up Hf Hr Hp.
    unfold Reassociate.apply_entry, Reassociate.contains.
    rewrite Hf. simpl negb. cbv iota. rewrite Hr. cbv zeta.
    rewrite Es, (rename_reference_pcb_empty _ _ Hp), E.
    change (Reassociate.add_path (Reassociate.sch_uuid e) []) with (@nil ascii).
    simpl app. rewrite firstn_skipn. reflexivity.
Qed.

Lemma unterminated_block_is_passed_over_on_sample :
  find_block_end Samples.doc_open 11 = 11
  /\ slice 11 (find_block_end Samples.doc_open 11) Samples.doc_open = []
  /\ Reassociate.apply_entry Samples.entry_y1 Samples.doc_open []
     = Some (Samples.doc_open, []).
Proof.
  assert (H : forall n, ~ closes_at 0 (skipn 11 Samples.doc_open) n).
  { apply (scan_block_none (skipn 11 Samples.doc_open) 11 0).
    vm_compute. reflexivity. }
  destruct (unterminated_block_is_passed_over Samples.doc_open 11 H)
    as (E & Es & _ & Hp).
  split; [exact E |]. split; [exact Es |].
  apply (Hp Samples.entry_y1 [] 64); vm_compute; reflexivity.
Defined.

(** C9 fails on the scripts: the footprint that [doc_open] holds at offset
    11 has no closing parenthesis.  The scanner runs to the end of the text
    and gives 11 back as the end of the block; the run of [apply_mapping]
    ends normally with the text as it was and nothing printed, and so does
    the loop of [apply_mapping_to_pcb] for an entry that targets the
    footprint. *)
Lemma unterminated_block_raises_nothing :
  map m_start (re_finditer ApplyMapping.pattern Samples.doc_open) = [11]
  /\ scan_block (skipn 11 Samples.doc_open) 11 0 = None
  /\ find_block_end Samples.doc_open 11 = 11
  /\ ApplyMapping.run_entries ApplyMapping.MAPPING
       (Samples.start_of Samples.doc_open)
     = Ok (ApplyMapping.MkState Samples.doc_open 0 [])
  /\ Reassociate.apply_entries [Samples.entry_y1] Samples.doc_open []
     = Some (Samples.doc_open, []).
Proof. vm_compute. repeat split; reflexivity. Qed.

(** ** Searching *)

Lemma search_from_some r : forall t i m,
  search_from r i t = Some m ->
  exists k, k <= length t
            /\ match_here r (i + k) (skipn k t) = Some m
            /\ forall j, j < k -> match_here r (i + j) (skipn j t) = None.
Proof.
  induction t as [|c t IH]; intros i m H; simpl in H.
  - destruct (match_here r i []) eqn:E; [| discriminate]. injection H as ->.
    exists 0. rewrite Nat.add_0_r. split; [lia |]. split; [exact E |].
    intros j Hj. lia.
  - destruct (match_here r i (c :: t)) eqn:E.
    + injection H as ->. exists 0. rewrite Nat.add_0_r.
      split; [simpl; lia |]. split; [exact E |]. intros j Hj. lia.
    + apply IH in H as (k & Hk & Hm & Hb). exists (S k).
      split; [simpl; lia |].
      split; [replace (i + S k) with (S i + k) by lia; exact Hm |].
      intros [|j] Hj; [rewrite Nat.add_0_r; exact E |].
      replace (i + S j) with (S i + j) by lia. apply Hb. lia.
Qed.

Lemma re_search_some r text m :
  re_search r text = Some m ->
  m_start m <= length text
  /\ match_here r (m_start m) (skipn (m_start m) text) = Some m
  /\ forall j, j < m_start m -> match_here r j (skipn j text) = None.
Proof.
  intros H. apply search_from_some in H as (k & Hk & Hm & Hb). simpl in *.
  destruct (match_here_span _ _ _ _ Hm) as [-> _]. auto.
Qed.


Lemma re_search_literal w block m :
  re_search (Str w) block = Some m -> first_at w block (m_start m).
Proof.
  intros H. apply re_search_some in H as (_ & Hm & Hb).
  rewrite match_here_Str in Hm. split.
  - destruct (starts_with w (skipn (m_start m) block));
      [reflexivity | discriminate].
  - intros j Hj. specialize (Hb j Hj). rewrite match_here_Str in Hb.
    destruct (starts_with w (skipn j block)); [discriminate | reflexivity].
Qed.

Lemma starts_with_firstn_self : forall n (t : str),
  starts_with (firstn n t) t = true.
Proof.
  induction n as [|n IH]; intros [|c t]; try reflexivity.
  simpl. rewrite Ascii.eqb_refl. apply IH.
Qed.

(** What a match of the "(attr ...)" pattern spans. *)
Lemma match_here_attr i t m :
  match_here ApplyMapping.attr_pattern i t = Some m ->
  exists body,
    body <> [] /\ forallb not_rpar body = true
    /\ starts_with (attr_field body) t = true
    /\ m_end m = i + length (attr_field body).
Proof.
  unfold match_here, ApplyMapping.attr_pattern.
  rewrite rmatch_Seq, rmatch_Str.
  destruct (starts_with (s "(attr ") t) eqn:E1; [| discriminate].
  rewrite rmatch_Seq, rmatch_ClassPlus.
  destruct (skipn (length (s "(attr ")) t) as [|c t2] eqn:Et; [discriminate |].
  destruct (not_rpar c) eqn:Ec; [| discriminate].
  intros H. apply star_run_kont in H as (n & Hn & Hp & Hk).
  rewrite rmatch_Str in Hk.
  destruct (starts_with (s ")") (skipn n t2)) eqn:E2; [| discriminate].
  injection Hk as <-. exists (c :: firstn n t2).
  split; [discriminate |]. split; [simpl; rewrite Ec; exact Hp |]. split.
  - unfold attr_field. rewrite starts_with_split, E1, Et. simpl andb.
    rewrite starts_with_split. simpl starts_with at 1.
    rewrite Ascii.eqb_refl, starts_with_firstn_self. simpl andb.
    simpl length. rewrite firstn_length_le by exact Hn. exact E2.
  - simpl m_end. unfold attr_field. rewrite !length_app. simpl length.
    rewrite firstn_length_le by exact Hn. lia.
Qed.

(** ** Where the path goes *)

Lemma has_match_false r text :
  ApplyMapping.has_match r text = false -> re_search r text = None.
Proof.
  unfold ApplyMapping.has_match.
  destruct (re_search r text); [discriminate | reflexivity].
Qed.

(** C4, as the scripts have it.  Step 2 of [apply_mapping] puts the path
    fragment right after the first "(attr ...)" sub-field of the block;
    when there is none, right before the first line that opens with
    "(fp_"; when there is none either, right before the first line that
    opens with "(pad ".  With none of the three the block is left as it
    is and nothing is raised.  [apply_mapping_to_pcb] leaves a block that
    holds the opening of a path as it is; in any other block it puts the
    fragment right after the first "(attr ...)" sub-field, when there is
    none right before the first line that opens with "(fp_line", and with
    neither of the two it leaves the block as it is. *)
Theorem path_goes_to_the_first_anchor_found sch_uuid block :
  (forall m,
      re_search ApplyMapping.attr_pattern block = Some m ->
      exists body,
        body <> [] /\ forallb not_rpar body = true
        /\ starts_with (attr_field body) (skipn (m_start m) block) = true
        /\ (forall j, j < m_start m ->
              match_here ApplyMapping.attr_pattern j (skipn j block) = None)
        /\ ApplyMapping.add_path sch_uuid block
           = ApplyMapping.insert_at (m_start m + length (attr_field body))
               (ApplyMapping.insert_text sch_uuid) block)
  /\ (ApplyMapping.has_match ApplyMapping.attr_pattern block = false ->
      forall m,
        re_search ApplyMapping.fp_pattern block = Some m ->
        first_at (ApplyMapping.NTT ++ s "(fp_") block (m_start m)
        /\ ApplyMapping.add_path sch_uuid block
           = ApplyMapping.insert_at (m_start m)
               (ApplyMapping.insert_text sch_uuid) block)
  /\ (ApplyMapping.has_match ApplyMapping.attr_pattern block = false ->
      ApplyMapping.has_match ApplyMapping.fp_pattern block = false ->
      forall m,
        re_search ApplyMapping.pad_pattern block = Some m ->
        first_at (ApplyMapping.NTT ++ s "(pad ") block (m_start m)
        /\ ApplyMapping.add_path sch_uuid block
           = ApplyMapping.insert_at (m_start m)
               (ApplyMapping.insert_text sch_uuid) block)
  /\ (has_anchor block = false -> ApplyMapping.add_path sch_uuid block = block)
  /\ (ApplyMapping.has_match ApplyMapping.attr_pattern block = false ->
      ApplyMapping.has_match Reassociate.fp_line_pattern block = false ->
      Reassociate.add_path sch_uuid block = block)
  /\ (Reassociate.contains Reassociate.path_open block = true ->
      Reassociate.add_path sch_uuid block = block)
  /\ (Reassociate.contains Reassociate.path_open block = false ->
      forall m,
        re_search ApplyMapping.attr_pattern block = Some m ->
        exists body,
          body <> [] /\ forallb not_rpar body = true
          /\ starts_with (attr_field body) (skipn (m_start m) block) = true
          /\ (forall j, j < m_start m ->
                match_here ApplyMapping.attr_pattern j (skipn j block) = None)
          /\ Reassociate.add_path sch_uuid block
             = ApplyMapping.insert_at (m_start m + length (attr_field body))
                 (ApplyMapping.insert_text sch_uuid) block)
  /\ (Reassociate.contains Reassociate.path_open block = false ->
      ApplyMapping.has_match ApplyMapping.attr_pattern block = false ->
      forall m,
        re_search Reassociate.fp_line_pattern block = Some m ->
        first_at (ApplyMapping.NTT ++ s "(fp_line") block (m_start m)
        /\ Reassociate.add_path sch_uuid block
           = ApplyMapping.insert_at (m_start m)
               (ApplyMapping.insert_text sch_uuid) block).
Proof.
  split; [| split; [| split; [| split; [| split; [| split; [| split]]]]]].
  6:{ intros Hc. unfold Reassociate.add_path. rewrite Hc. reflexivity. }
  6:{ intros Hc m H. unfold Reassociate.add_path. rewrite Hc, H. simpl negb.
      cbv iota.
      apply re_search_some in H as (_ & Hm & Hb).
      apply match_here_attr in Hm as (body & Hne & Hp & Hs & He).
      exists body. rewrite He. auto. }
  6:{ intros Hc Ha m H. unfold Reassociate.add_path.
      rewrite Hc, (has_match_false _ _ Ha), H. simpl negb. cbv iota.
      split; [| reflexivity]. apply (re_search_literal _ _ _ H). }
  - intros m H. unfold ApplyMapping.add_path. rewrite H.
    apply re_search_some in H as (_ & Hm & Hb).
    apply match_here_attr in Hm as (body & Hne & Hp & Hs & He).
    exists body. rewrite He. auto.
  - intros Ha m H. unfold ApplyMapping.add_path.
    rewrite (has_match_false _ _ Ha), H.
    split; [| reflexivity]. apply (re_search_literal _ _ _ H).
  - intros Ha Hf m H. unfold ApplyMapping.add_path.
    rewrite (has_match_false _ _ Ha), (has_match_false _ _ Hf), H.
    split; [| reflexivity]. apply (re_search_literal _ _ _ H).
  - unfold has_anchor. intros H.
    apply orb_false_iff in H as [H Hp]. apply orb_false_iff in H as [Ha Hf].
    unfold ApplyMapping.add_path.
    rewrite (has_match_false _ _ Ha), (has_match_false _ _ Hf),
      (has_match_false _ _ Hp).
    reflexivity.
  - intros Ha Hf. unfold Reassociate.add_path.
    rewrite (has_match_false _ _ Ha), (has_match_false _ _ Hf).
    destruct (negb _); reflexivity.
Qed.

Lemma path_goes_after_attr_on_sample :
  ApplyMapping.add_path Samples.u27_uuid Samples.u11_bare_block
  = Samples.u11_bare_block
  /\ (exists body,
        starts_with (attr_field body) (skipn 121 Samples.u11_block) = true
        /\ Reassociate.add_path Samples.u27_uuid Samples.u11_block
           = ApplyMapping.insert_at (121 + length (attr_field body))
               (ApplyMapping.insert_text Samples.u27_uuid) Samples.u11_block)
  /\ exists body,
      starts_with (attr_field body) (skipn 121 Samples.u11_block) = true
      /\ ApplyMapping.add_path Samples.u27_uuid Samples.u11_block
         = ApplyMapping.insert_at (121 + length (attr_field body))
             (ApplyMapping.insert_text Samples.u27_uuid) Samples.u11_block.
Proof.
  split; [| split].
  2:{ destruct (proj1 (proj2 (proj2 (proj2 (proj2 (proj2 (proj2
                 (path_goes_to_the_first_anchor_found
                    Samples.u27_uuid Samples.u11_block)))))))
                (eq_refl : Reassociate.contains Reassociate.path_open
                             Samples.u11_block = false)
                (MkMatch 121 131 []))
        as (body & _ & _ & Hs & _ & Hi).
      - vm_compute. reflexivity.
      - exists body. split; [exact Hs | exact Hi]. }
  - apply (proj1 (proj2 (proj2 (proj2
             (path_goes_to_the_first_anchor_found
                Samples.u27_uuid Samples.u11_bare_block))))).
    vm_compute. reflexivity.
  - destruct (proj1 (path_goes_to_the_first_anchor_found
                       Samples.u27_uuid Samples.u11_block)
                (MkMatch 121 131 []))
      as (body & _ & _ & Hs & _ & Hi).
    + vm_compute. reflexivity.
    + exists body. split; [exact Hs | exact Hi].
Defined.

(** C4 fails on the scripts: the footprint of [doc_bare] has no "(attr",
    no "(fp_" and no "(pad " line.  The run ends normally, counts one
    change and prints its usual line; the reference is renamed and no path
    is inserted. *)
Lemma missing_anchor_raises_nothing :
  has_anchor Samples.u11_bare_block = false
  /\ ApplyMapping.run_entries ApplyMapping.MAPPING
       (Samples.start_of Samples.doc_bare)
     = Ok (ApplyMapping.MkState (Samples.board Samples.u27_bare_block) 1
             [ApplyMapping.msg_processing (s "U11") (s "U27")])
  /\ ApplyMapping.has_match ApplyMapping.path_pattern
       (Samples.board Samples.u27_bare_block) = false.
Proof. vm_compute. repeat split; reflexivity. Qed.

(** ** A rewritten block is linked *)








(** ** Pairing by position *)

Lemma nth_error_skipn (A : Type) : forall (l : list A) i a,
  nth_error l i = Some a -> skipn i l = a :: skipn (S i) l.
Proof.
  induction l as [|b l IH]; intros [|i] a H; try discriminate.
  - injection H as ->. reflexivity.
  - simpl in H. apply IH in H. exact H.
Qed.

Lemma pair_up_positional t sch_list : forall pcb_list i,
  Reassociate.pair_up t sch_list i pcb_list
  = (paired t (skipn i sch_list) pcb_list,
     map (fun ps => Reassociate.msg_pair (fst ps) (snd ps))
         (combine pcb_list (skipn i sch_list))
       ++ map Reassociate.msg_no_match
              (skipn (length sch_list - i) pcb_list)).
Proof.
  induction pcb_list as [|p rest IH]; intros i.
  - rewrite skipn_nil. reflexivity.
  - simpl Reassociate.pair_up. rewrite IH.
    destruct (nth_error sch_list i) as [sc|] eqn:E.
    + assert (Hi : i < length sch_list)
        by (apply nth_error_Some; congruence).
      rewrite (nth_error_skipn _ _ _ _ E).
      replace (length sch_list - i) with (S (length sch_list - S i)) by lia.
      reflexivity.
    + apply nth_error_None in E.
      rewrite (skipn_all2 sch_list) by lia.
      rewrite (skipn_all2 sch_list) by lia.
      replace (length sch_list - i) with 0 by lia.
      replace (length sch_list - S i) with 0 by lia.
      unfold paired. rewrite !combine_nil. reflexivity.
Qed.

Lemma pair_type_positional sch_by_type pcb_by_type t :
  Reassociate.pair_type sch_by_type pcb_by_type t
  = (paired t (Reassociate.get_group t sch_by_type)
              (Reassociate.get_group t pcb_by_type),
     report t (Reassociate.get_group t sch_by_type)
              (Reassociate.get_group t pcb_by_type)).
Proof.
  unfold Reassociate.pair_type. rewrite pair_up_positional.
  rewrite Nat.sub_0_r. reflexivity.
Qed.

Lemma pair_types_positional sch_by_type pcb_by_type : forall ts,
  Reassociate.pair_types sch_by_type pcb_by_type ts
  = (flat_map (fun t => paired t (Reassociate.get_group t sch_by_type)
                                 (Reassociate.get_group t pcb_by_type)) ts,
     flat_map (fun t => report t (Reassociate.get_group t sch_by_type)
                                 (Reassociate.get_group t pcb_by_type)) ts).
Proof.
  induction ts as [|t ts IH]; [reflexivity |].
  simpl Reassociate.pair_types. rewrite pair_type_positional, IH. reflexivity.
Qed.

Lemma paired_nth t : forall pcb_list sch_list i p sc,
  nth_error pcb_list i = Some p -> nth_error sch_list i = Some sc ->
  nth_error (paired t sch_list pcb_list) i
  = Some (Reassociate.MkEntry (Reassociate.reference p) (Reassociate.uuid p)
            (Reassociate.reference sc) (Reassociate.uuid sc) t).
Proof.
  induction pcb_list as [|q pcb_list IH]; intros [|d sch_list] [|i] p sc Hp Hs;
    try discriminate.
  - injection Hp as ->. injection Hs as ->. reflexivity.
  - simpl in *. apply IH; assumption.
Qed.

(** ** Sorting *)

Lemma key_ltb_le_trans a b c :
  Reassociate.key_ltb a b = true -> Reassociate.key_ltb c b = false ->
  Reassociate.key_ltb c a = false.
Proof.
  destruct a as [a1 a2], b as [b1 b2], c as [c1 c2].
  unfold Reassociate.key_ltb. simpl fst. simpl snd.
  generalize (code a1) (code b1) (code c1). intros x y z.
  destruct (Nat.ltb_spec x y), (Nat.eqb_spec x y), (N.ltb_spec a2 b2),
    (Nat.ltb_spec z y), (Nat.eqb_spec z y), (N.ltb_spec c2 b2),
    (Nat.ltb_spec z x), (Nat.eqb_spec z x), (N.ltb_spec c2 a2);
    simpl; intros; try reflexivity; try discriminate; lia.
Qed.

Lemma key_ltb_le_le a b c :
  Reassociate.key_ltb b a = false -> Reassociate.key_ltb c b = false ->
  Reassociate.key_ltb c a = false.
Proof.
  destruct a as [a1 a2], b as [b1 b2], c as [c1 c2].
  unfold Reassociate.key_ltb. simpl fst. simpl snd.
  generalize (code a1) (code b1) (code c1). intros x y z.
  destruct (Nat.ltb_spec y x), (Nat.eqb_spec y x), (N.ltb_spec b2 a2),
    (Nat.ltb_spec z y), (Nat.eqb_spec z y), (N.ltb_spec c2 b2),
    (Nat.ltb_spec z x), (Nat.eqb_spec z x), (N.ltb_spec c2 a2);
    simpl; intros; try reflexivity; try discriminate; lia.
Qed.

Section InsertionSort.
Local Abbreviation pair := ((ascii * N) * Reassociate.component)%type.
Local Abbreviation le := keyed_le.

Lemma insert_sorted_perm kx v : forall l,
  Permutation ((kx, v) :: l) (Reassociate.insert_sorted kx v l).
Proof.
  induction l as [|[ky w] l IH]; simpl; [apply Permutation_refl |].
  destruct (Reassociate.key_ltb kx ky); [apply Permutation_refl |].
  eapply perm_trans; [apply perm_swap |]. apply perm_skip. exact IH.
Qed.

Lemma insert_sorted_sorted kx v : forall l,
  StronglySorted le l -> StronglySorted le (Reassociate.insert_sorted kx v l).
Proof.
  induction l as [|[ky w] l IH]; intros H; simpl.
  - repeat constructor.
  - inversion H as [|? ? Hs Hf]; subst.
    destruct (Reassociate.key_ltb kx ky) eqn:E.
    + constructor; [exact H |]. constructor.
      * unfold keyed_le. simpl.
        apply (key_ltb_le_trans kx ky ky E).
        destruct ky as [k1 k2]. unfold Reassociate.key_ltb. simpl.
        rewrite Nat.ltb_irrefl, N.ltb_irrefl, andb_false_r. reflexivity.
      * eapply Forall_impl; [| exact Hf]. intros q Hq. unfold keyed_le in *. simpl in *.
        apply (key_ltb_le_trans kx ky (fst q) E Hq).
    + constructor; [apply IH; exact Hs |].
      eapply Permutation_Forall; [apply insert_sorted_perm |].
      constructor; [exact E | exact Hf].
Qed.

Lemma stable_sort_spec : forall l acc,
  StronglySorted le acc ->
  Permutation (l ++ acc)
    (fold_left (fun a p => Reassociate.insert_sorted (fst p) (snd p) a) l acc)
  /\ StronglySorted le
       (fold_left (fun a p => Reassociate.insert_sorted (fst p) (snd p) a) l acc).
Proof.
  induction l as [|[k c] l IH]; intros acc H; simpl.
  - split; [apply Permutation_refl | exact H].
  - destruct (IH (Reassociate.insert_sorted k c acc)
                (insert_sorted_sorted k c acc H)) as [Hp Hs].
    split; [| exact Hs].
    eapply perm_trans; [| exact Hp].
    eapply perm_trans; [apply Permutation_middle |].
    apply Permutation_app_head. apply insert_sorted_perm.
Qed.

Lemma key_ltb_lt_le a b c :
  Reassociate.key_ltb a b = true -> Reassociate.key_ltb c b = false ->
  Reassociate.key_ltb a c = true.
Proof.
  destruct a as [a1 a2], b as [b1 b2], c as [c1 c2].
  unfold Reassociate.key_ltb. simpl fst. simpl snd.
  generalize (code a1) (code b1) (code c1). intros x y z.
  destruct (Nat.ltb_spec x y), (Nat.eqb_spec x y), (N.ltb_spec a2 b2),
    (Nat.ltb_spec z y), (Nat.eqb_spec z y), (N.ltb_spec c2 b2),
    (Nat.ltb_spec x z), (Nat.eqb_spec x z), (N.ltb_spec a2 c2);
    simpl; intros; try reflexivity; try discriminate; lia.
Qed.

Lemma same_key_eq a k :
  same_key a k = true ->
  code (fst a) = code (fst k) /\ snd a = snd k.
Proof.
  destruct a as [a1 a2], k as [k1 k2].
  unfold same_key, Reassociate.key_ltb. simpl fst. simpl snd.
  generalize (code a1) (code k1). intros x y.
  destruct (Nat.ltb_spec x y), (Nat.eqb_spec x y), (N.ltb_spec a2 k2),
    (Nat.ltb_spec y x), (Nat.eqb_spec y x), (N.ltb_spec k2 a2);
    simpl; intros; try discriminate; split; lia.
Qed.

Lemma same_key_after a k q :
  same_key a k = true -> Reassociate.key_ltb a q = true ->
  same_key q k = false.
Proof.
  intros H Hq. apply same_key_eq in H as [H1 H2].
  unfold same_key. apply andb_false_iff. right.
  apply negb_false_iff. unfold Reassociate.key_ltb in *.
  rewrite <- H1, <- H2. exact Hq.
Qed.

Lemma filter_nothing (A : Type) (f : A -> bool) : forall l,
  (forall x, In x l -> f x = false) -> filter f l = [].
Proof.
  induction l as [|x l IH]; intros H; [reflexivity |]. simpl.
  rewrite (H x (or_introl eq_refl)). apply IH.
  intros y Hy. apply H. right. exact Hy.
Qed.

Lemma insert_sorted_filter kx v k : forall l,
  StronglySorted le l ->
  filter (fun p : pair => same_key (fst p) k)
         (Reassociate.insert_sorted kx v l)
  = filter (fun p : pair => same_key (fst p) k) l
    ++ (if same_key kx k then [(kx, v)] else []).
Proof.
  induction l as [|[ky w] l IH]; intros H.
  - simpl. destruct (same_key kx k); reflexivity.
  - inversion H as [|? ? Hs Hf]; subst. simpl Reassociate.insert_sorted.
    destruct (Reassociate.key_ltb kx ky) eqn:E.
    + assert (Hcut : forall L : list pair,
                 filter (fun p : pair => same_key (fst p) k) ((kx, v) :: L)
                 = (if same_key kx k then [(kx, v)] else [])
                   ++ filter (fun p : pair => same_key (fst p) k) L)
        by (intros L; simpl; destruct (same_key kx k); reflexivity).
      rewrite Hcut.
      destruct (same_key kx k) eqn:Ek; [| rewrite app_nil_r; reflexivity].
      rewrite filter_nothing; [reflexivity |].
      intros q [<- | Hq]; simpl.
      * apply (same_key_after kx k ky Ek E).
      * apply (same_key_after kx k (fst q) Ek).
        rewrite Forall_forall in Hf.
        apply (key_ltb_lt_le kx ky (fst q) E (Hf q Hq)).
    + simpl. destruct (same_key ky k); rewrite (IH Hs); reflexivity.
Qed.

Lemma stable_sort_filter k : forall l acc,
  StronglySorted le acc ->
  filter (fun p : pair => same_key (fst p) k)
         (fold_left (fun a p => Reassociate.insert_sorted (fst p) (snd p) a)
                    l acc)
  = filter (fun p : pair => same_key (fst p) k) acc
    ++ filter (fun p : pair => same_key (fst p) k) l.
Proof.
  induction l as [|[k0 c] l IH]; intros acc H; simpl fold_left.
  - simpl. rewrite app_nil_r. reflexivity.
  - rewrite (IH _ (insert_sorted_sorted k0 c acc H)).
    rewrite insert_sorted_filter by exact H. rewrite <- app_assoc.
    simpl. destruct (same_key k0 k); reflexivity.
Qed.

Lemma keyed_spec : forall l kl,
  Reassociate.keyed l = Ok kl ->
  map snd kl = l
  /\ Forall (fun p : pair => Reassociate.sort_key (snd p) = Ok (fst p)) kl.
Proof.
  induction l as [|c l IH]; intros kl H; simpl in H.
  - injection H as <-. split; [reflexivity | constructor].
  - destruct (Reassociate.sort_key c) as [k|] eqn:Ek; [| discriminate].
    destruct (Reassociate.keyed l) as [r|]; [| discriminate].
    injection H as <-. destruct (IH r eq_refl) as [Hm Hf].
    split; [simpl; rewrite Hm; reflexivity |].
    constructor; [exact Ek | exact Hf].
Qed.

Lemma keyed_total : forall l,
  (forall c, In c l -> exists k, Reassociate.sort_key c = Ok k) ->
  exists kl, Reassociate.keyed l = Ok kl.
Proof.
  induction l as [|c l IH]; intros H; simpl; [eauto |].
  destruct IH as [kl ->]; [intros d Hd; apply H; right; exact Hd |].
  destruct (H c (or_introl eq_refl)) as [k ->]. eauto.
Qed.

(** The first key that raises is the one the sort raises. *)
Lemma keyed_raise : forall l e,
  Reassociate.keyed l = Raise e <->
  exists l1 c l2,
    l = l1 ++ c :: l2 /\ Reassociate.sort_key c = Raise e
    /\ forall d, In d l1 -> exists k, Reassociate.sort_key d = Ok k.
Proof.
  induction l as [|c l IH]; intros e; simpl.
  - split; [discriminate |]. intros (l1 & c & l2 & E & _).
    destruct l1; discriminate.
  - destruct (Reassociate.sort_key c) as [k|e0] eqn:Ek.
    + destruct (Reassociate.keyed l) as [r|e1] eqn:El.
      * split; [discriminate |]. intros (l1 & d & l2 & E & Hd & Hb).
        destruct l1 as [|x l1]; injection E as <- ->; [congruence |].
        assert (Hn : @Ok (list (ascii * N * Reassociate.component)) r = Raise e).
        { apply IH. exists l1, d, l2. split; [reflexivity |].
          split; [exact Hd |]. intros y Hy. apply Hb. right. exact Hy. }
        discriminate Hn.
      * split.
        -- intros H. injection H as <-.
           destruct (proj1 (IH e1) eq_refl) as (l1 & d & l2 & -> & Hd & Hb).
           exists (c :: l1), d, l2. split; [reflexivity |].
           split; [exact Hd |].
           intros y [<- | Hy]; [eauto | apply Hb; exact Hy].
        -- intros (l1 & d & l2 & E & Hd & Hb).
           destruct l1 as [|x l1]; injection E as <- ->; [congruence |].
           apply IH. exists l1, d, l2. split; [reflexivity |].
           split; [exact Hd |]. intros y Hy. apply Hb. right. exact Hy.
    + split.
      * intros H. injection H as <-. exists [], c, l.
        split; [reflexivity |]. split; [exact Ek | intros d []].
      * intros (l1 & d & l2 & E & Hd & Hb).
        destruct l1 as [|x l1]; injection E as <- ->; [congruence |].
        destruct (Hb c (or_introl eq_refl)) as [k Hk]. congruence.
Qed.

Lemma sorted_by_key : forall kl,
  StronglySorted le kl ->
  Forall (fun p : pair => Reassociate.sort_key (snd p) = Ok (fst p)) kl ->
  StronglySorted key_le (map snd kl).
Proof.
  induction kl as [|p kl IH]; intros Hs Hk; simpl; [constructor |].
  inversion Hs as [|? ? Hs' Hf]; subst.
  inversion Hk as [|? ? Hp Hk']; subst.
  constructor; [apply IH; assumption |].
  apply Forall_map. rewrite Forall_forall in *. intros q Hq.
  unfold key_le. rewrite Hp, (Hk' q Hq). apply (Hf q Hq).
Qed.
End InsertionSort.

Lemma first_digits_none : forall t,
  forallb (fun c => negb (is_digit c)) t = true ->
  Reassociate.first_digits t = None.
Proof.
  induction t as [|c t IH]; intros H; [reflexivity |].
  simpl in *. apply andb_prop in H as [Hc Ht].
  apply negb_true_iff in Hc. rewrite Hc. apply IH. exact Ht.
Qed.

Lemma digit_run_app : forall ds post,
  forallb is_digit ds = true ->
  match post with [] => True | ch :: _ => is_digit ch = false end ->
  (fix run (u : str) : str :=
     match u with
     | d :: u' => if is_digit d then d :: run u' else []
     | [] => []
     end) (ds ++ post) = ds.
Proof.
  induction ds as [|d ds IH]; intros post Hds Hpost.
  - destruct post as [|ch post]; simpl; [reflexivity |].
    rewrite Hpost. reflexivity.
  - simpl in Hds. apply andb_prop in Hds as [Hd Hds]. simpl. rewrite Hd.
    f_equal. apply IH; assumption.
Qed.

(** The first run of digits of a reference: what stands between a part
    with no digit and the end or the next character that is no digit. *)
Lemma first_digits_run : forall pre ds post,
  forallb (fun ch => negb (is_digit ch)) pre = true ->
  ds <> [] -> forallb is_digit ds = true ->
  match post with [] => True | ch :: _ => is_digit ch = false end ->
  Reassociate.first_digits (pre ++ ds ++ post) = Some ds.
Proof.
  induction pre as [|c pre IH]; intros ds post Hpre Hne Hds Hpost.
  - destruct ds as [|d ds]; [contradiction |]. simpl in *.
    apply andb_prop in Hds as [Hd Hds]. rewrite Hd.
    rewrite (digit_run_app ds post Hds Hpost). reflexivity.
  - simpl in *. apply andb_prop in Hpre as [Hc Hpre].
    apply negb_true_iff in Hc. rewrite Hc. apply IH; assumption.
Qed.

(** ** Splitting at a separator *)

Lemma starts_with_trans a : forall b c,
  starts_with a b = true -> starts_with b c = true -> starts_with a c = true.
Proof.
  induction a as [|x a IH]; intros b c Hab Hbc; [reflexivity |].
  destruct b as [|y b]; [discriminate |]. destruct c as [|z c]; [discriminate |].
  simpl in *. apply andb_prop in Hab as [Hxy Hab].
  apply andb_prop in Hbc as [Hyz Hbc].
  apply Ascii.eqb_eq in Hxy. subst y. rewrite Hyz. simpl.
  apply (IH b c Hab Hbc).
Qed.

Lemma find_from_none w : forall t i,
  Reassociate.find_from w i t = None <->
  forall k, k <= length t -> starts_with w (skipn k t) = false.
Proof.
  induction t as [|c t IH]; intros i; simpl.
  - destruct (starts_with w []) eqn:E.
    + split; [discriminate |]. intros H. specialize (H 0 (le_n 0)).
      simpl in H. congruence.
    + split; [| reflexivity]. intros _ k Hk. rewrite skipn_nil. exact E.
  - destruct (starts_with w (c :: t)) eqn:E.
    + split; [discriminate |]. intros H. specialize (H 0 (Nat.le_0_l _)).
      simpl in H. congruence.
    + rewrite IH. split; intros H k Hk.
      * destruct k as [|k]; [exact E |]. simpl. apply H. lia.
      * apply (H (S k)). lia.
Qed.

Lemma find_none_shift w t i j :
  Reassociate.find_from w i t = None -> Reassociate.find_from w j t = None.
Proof. intros H. apply find_from_none. apply (find_from_none w t i). exact H. Qed.

Lemma find_none_cons w c t :
  starts_with w (c :: t) = false -> Reassociate.find w t = None ->
  Reassociate.find w (c :: t) = None.
Proof.
  unfold Reassociate.find. intros E H. simpl. rewrite E.
  apply (find_none_shift w t 0 1 H).
Qed.

(** The piece under way is a prefix of the text that is left, and no
    piece holds the separator. *)
Lemma split_aux_spec w : w <> [] -> forall t skip,
  starts_with (fst (Reassociate.split_aux w t skip)) (skipn skip t) = true
  /\ Reassociate.find w (fst (Reassociate.split_aux w t skip)) = None
  /\ forall q, In q (snd (Reassociate.split_aux w t skip)) ->
               Reassociate.find w q = None.
Proof.
  intros Hw.
  assert (He : Reassociate.find w [] = None).
  { unfold Reassociate.find. simpl. destruct w; [congruence | reflexivity]. }
  induction t as [|c t IH]; intros skip.
  - simpl. split; [reflexivity |]. split; [exact He | intros q []].
  - destruct skip as [|k]; [| apply (IH k)].
    simpl Reassociate.split_aux.
    destruct (starts_with w (c :: t)) eqn:E.
    + destruct (Reassociate.split_aux w t (length w - 1)) as [p ps] eqn:Es.
      destruct (IH (length w - 1)) as (_ & Hp & Hq). rewrite Es in Hp, Hq.
      simpl. split; [reflexivity |]. split; [exact He |].
      intros q [<- | Hin]; [exact Hp | apply Hq; exact Hin].
    + destruct (Reassociate.split_aux w t 0) as [p ps] eqn:Es.
      destruct (IH 0) as (Hpre & Hp & Hq). rewrite Es in Hpre, Hp, Hq.
      simpl in *. rewrite Ascii.eqb_refl. split; [exact Hpre |].
      split; [| exact Hq].
      apply find_none_cons; [| exact Hp].
      destruct (starts_with w (c :: p)) eqn:Ec; [| reflexivity].
      rewrite <- E. symmetry. apply (starts_with_trans _ (c :: p)); [exact Ec |].
      simpl. rewrite Ascii.eqb_refl. exact Hpre.
Qed.

Lemma split_pieces_free w t p :
  w <> [] -> In p (Reassociate.split w t) -> Reassociate.find w p = None.
Proof.
  intros Hw. unfold Reassociate.split.
  destruct (split_aux_spec w Hw t 0) as (_ & Hp & Hq).
  destruct (Reassociate.split_aux w t 0) as [p0 ps]. simpl in *.
  intros [<- | Hin]; [exact Hp | apply Hq; exact Hin].
Qed.

Lemma split_without_separator w : forall t,
  Reassociate.find w t = None -> Reassociate.split w t = [t].
Proof.
  unfold Reassociate.split, Reassociate.find.
  induction t as [|c t IH]; intros H; [reflexivity |].
  simpl in *. destruct (starts_with w (c :: t)); [discriminate |].
  apply (find_none_shift w t 1 0) in H. specialize (IH H).
  destruct (Reassociate.split_aux w t 0) as [p ps].
  injection IH as -> ->. reflexivity.
Qed.

Lemma find_none_longer pre w t :
  w <> [] -> Reassociate.find w t = None -> Reassociate.find (pre ++ w) t = None.
Proof.
  unfold Reassociate.find. intros Hw H. apply find_from_none. intros k Hk.
  rewrite starts_with_split, skipn_skipn.
  destruct (Nat.le_gt_cases (length pre + k) (length t)) as [Hl | Hl].
  - rewrite (proj1 (find_from_none w t 0) H _ Hl). apply andb_false_r.
  - rewrite (@skipn_all2 _ (length pre + k) t) by lia.
    destruct w; [congruence |]. apply andb_false_r.
Qed.

Lemma first_piece_whole pre w part :
  w <> [] -> Reassociate.find w part = None ->
  Reassociate.first_piece (pre ++ w) part = part.
Proof.
  intros Hw H. unfold Reassociate.first_piece.
  rewrite split_without_separator; [reflexivity |].
  apply find_none_longer; assumption.
Qed.

(** X1.  The inner split of the two parsers never cuts anything off: a part of
    the outer split holds no footprint (or symbol) opener after a newline,
    so it holds no inner separator either, and the block is the opener
    followed by the whole part, up to the next opener or to the end of the
    file. *)
Theorem inner_split_cuts_nothing content part :
  (In part (Reassociate.split Reassociate.footprint_sep content) ->
   Reassociate.pcb_block part = Reassociate.footprint_open ++ part)
  /\ (In part (Reassociate.split Reassociate.symbol_sep content) ->
      Reassociate.sch_block part = Reassociate.symbol_open ++ part).
Proof.
  split; intros H.
  - unfold Reassociate.pcb_block. f_equal.
    apply (first_piece_whole ([NL; TAB] ++ s ")") Reassociate.footprint_sep);
      [discriminate |].
    apply (split_pieces_free _ content); [discriminate | exact H].
  - unfold Reassociate.sch_block. f_equal.
    apply (first_piece_whole ([NL; TAB] ++ s ")") Reassociate.symbol_sep);
      [discriminate |].
    apply (split_pieces_free _ content); [discriminate | exact H].
Qed.

Lemma inner_split_cuts_nothing_on_sample :
  Reassociate.pcb_block
    (nth 1 (Reassociate.split Reassociate.footprint_sep Samples.doc_twice) [])
  = Reassociate.footprint_open
      ++ nth 1 (Reassociate.split Reassociate.footprint_sep Samples.doc_twice) [].
Proof.
  apply (proj1 (inner_split_cuts_nothing Samples.doc_twice _)).
  vm_compute. right. left. reflexivity.
Defined.

(** ** What the parsers keep *)

Lemma rmatch_group_plus (A : Type) n p i t cs (k : kont A) x :
  rmatch (Group n (ClassPlus p)) i t cs k = Some x ->
  exists len,
    0 < len /\ len <= length t /\ forallb p (firstn len t) = true
    /\ k (i + len) (skipn len t) ((n, (i, i + len)) :: cs) = Some x.
Proof.
  rewrite rmatch_Group, rmatch_ClassPlus.
  destruct t as [|c t]; [discriminate |].
  destruct (p c) eqn:Ec; [| discriminate]. intros H.
  apply star_run_kont in H as (n0 & Hn & Hp & Hk).
  exists (S n0). simpl. rewrite Ec, Hp.
  replace (i + S n0) with (S i + n0) by lia.
  repeat split; [lia | lia | exact Hk].
Qed.

(** The group of a field pattern is never empty and stays in its class. *)
Lemma search_field head p tail block m :
  re_search (Reassociate.field head p tail) block = Some m ->
  group 1 block m <> [] /\ forallb p (group 1 block m) = true.
Proof.
  intros H. apply re_search_some in H as (_ & H & _).
  unfold match_here, Reassociate.field in H.
  rewrite rmatch_Seq, rmatch_Str in H.
  destruct (starts_with head (skipn (m_start m) block)); [| discriminate].
  rewrite rmatch_Seq in H.
  apply rmatch_group_plus in H as (len & Hpos & Hlen & Hp & H).
  rewrite rmatch_Str in H.
  destruct (starts_with tail _); [| discriminate].
  injection H as H. rewrite <- H at 1 2. unfold group. simpl.
  unfold slice. rewrite skipn_skipn in Hlen, Hp.
  replace (m_start m + length head + len - (m_start m + length head))
    with len by lia.
  replace (m_start m + length head) with (length head + m_start m) by lia.
  split; [| exact Hp].
  intros E. apply (f_equal (@length ascii)) in E.
  rewrite firstn_length_le in E by exact Hlen. simpl in E. lia.
Qed.

Lemma collect_In body : forall parts l c,
  Reassociate.collect body parts = Ok l -> In c l ->
  exists part, In part parts /\ body part = Ok (Some c).
Proof.
  induction parts as [|part rest IH]; intros l c H Hc; simpl in H.
  - injection H as <-. destruct Hc.
  - destruct (body part) as [r|] eqn:Eb; [| discriminate].
    destruct (Reassociate.collect body rest) as [l0|]; [| discriminate].
    injection H as <-.
    destruct r as [c0|].
    + destruct Hc as [<- | Hc]; [exists part; split; [left; reflexivity | exact Eb] |].
      destruct (IH l0 c eq_refl Hc) as (q & Hq & Hb).
      exists q. split; [right; exact Hq | exact Hb].
    + destruct (IH l0 c eq_refl Hc) as (q & Hq & Hb).
      exists q. split; [right; exact Hq | exact Hb].
Qed.

Lemma collect_raise body : forall parts e,
  Reassociate.collect body parts = Raise e ->
  exists part, In part parts /\ body part = Raise e.
Proof.
  induction parts as [|part rest IH]; intros e H; simpl in H; [discriminate |].
  destruct (body part) as [r|e0] eqn:Eb.
  - destruct (Reassociate.collect body rest) as [l0|e1]; [discriminate |].
    injection H as <-. destruct (IH e1 eq_refl) as (q & Hq & Hb).
    exists q. split; [right; exact Hq | exact Hb].
  - injection H as <-. exists part. split; [left; reflexivity | exact Eb].
Qed.

Lemma pcb_component_some part c :
  Reassociate.pcb_component part = Ok (Some c) ->
  Reassociate.reference c <> []
  /\ Reassociate.footprint c <> []
  /\ Reassociate.uuid c <> []
  /\ forallb is_hexdash (Reassociate.uuid c) = true
  /\ float_ge_180 (Reassociate.y c) = false
  /\ Reassociate.lib_id c = None
  /\ ApplyMapping.has_match ApplyMapping.path_pattern
       (Reassociate.pcb_block part) = false.
Proof.
  unfold Reassociate.pcb_component.
  destruct (re_search Reassociate.footprint_name_pattern _) as [fp_match|] eqn:Ef;
    [| discriminate].
  destruct (re_search Reassociate.at_pattern _) as [at_match|]; [| discriminate].
  destruct (py_float (group 1 _ at_match)) as [x_coord|]; [| discriminate].
  destruct (py_float (group 2 _ at_match)) as [y_coord|]; [| discriminate].
  destruct (float_ge_180 y_coord) eqn:Ey; [discriminate |].
  destruct (re_search Reassociate.uuid_field_pattern _) as [uuid_match|] eqn:Eu;
    [| discriminate].
  destruct (re_search Reassociate.reference_pattern _) as [ref_match|] eqn:Er;
    [| discriminate].
  destruct (ApplyMapping.has_match _ _) eqn:Ep; [discriminate |].
  intros H. injection H as <-. simpl.
  apply search_field in Ef as [Hf _]. apply search_field in Eu as [Hu Hh].
  apply search_field in Er as [Hr _]. auto 10.
Qed.

Lemma sch_component_some part c :
  Reassociate.sch_component part = Ok (Some c) ->
  Reassociate.reference c <> []
  /\ starts_with (s "#") (Reassociate.reference c) = false
  /\ Reassociate.uuid c <> []
  /\ forallb is_hexdash (Reassociate.uuid c) = true
  /\ Reassociate.float_ge_0 (Reassociate.y c) = false
  /\ exists id, Reassociate.lib_id c = Some id /\ id <> [].
Proof.
  unfold Reassociate.sch_component.
  destruct (negb _ && negb _); [discriminate |].
  destruct (re_search Reassociate.lib_id_pattern _) as [lib_match|] eqn:El;
    [| discriminate].
  destruct (re_search Reassociate.at_pattern _) as [at_match|]; [| discriminate].
  destruct (py_float (group 1 _ at_match)) as [x_coord|]; [| discriminate].
  destruct (py_float (group 2 _ at_match)) as [y_coord|]; [| discriminate].
  destruct (Reassociate.float_ge_0 y_coord) eqn:Ey; [discriminate |].
  destruct (re_search Reassociate.uuid_field_pattern _) as [uuid_match|] eqn:Eu;
    [| discriminate].
  destruct (re_search Reassociate.reference_pattern _) as [ref_match|] eqn:Er;
    [| discriminate].
  cbv zeta. destruct (starts_with (s "#") _) eqn:Eh; [discriminate |].
  intros H. injection H as <-. simpl.
  apply search_field in El as [Hl _]. apply search_field in Eu as [Hu Hh].
  apply search_field in Er as [Hr _].
  repeat split; try assumption. eexists. split; [reflexivity | exact Hl].
Qed.

Lemma pcb_block_whole content part :
  In part (Reassociate.split Reassociate.footprint_sep content) ->
  Reassociate.pcb_block part = Reassociate.footprint_open ++ part.
Proof.
  intros H. unfold Reassociate.pcb_block. f_equal.
  apply (first_piece_whole ([NL; TAB] ++ s ")") Reassociate.footprint_sep);
    [discriminate |].
  apply (split_pieces_free _ content); [discriminate | exact H].
Qed.

(** X2.  Every component that [parse_pcb_components] returns comes from a part
    of the board text whose block holds no path; its reference, footprint
    name and uuid are not empty, the uuid is made of the characters a-f,
    0-9 and "-", its y coordinate is below 180 and it has no [lib_id]. *)
Theorem parsed_pcb_components_are_unlinked_and_below_180 fs pcb_file l c :
  Reassociate.parse_pcb_components fs pcb_file = Ok l -> In c l ->
  Reassociate.reference c <> []
  /\ Reassociate.footprint c <> []
  /\ Reassociate.uuid c <> []
  /\ forallb is_hexdash (Reassociate.uuid c) = true
  /\ float_ge_180 (Reassociate.y c) = false
  /\ Reassociate.lib_id c = None
  /\ exists content part,
      read_text fs pcb_file = Ok content
      /\ In part (tl (Reassociate.split Reassociate.footprint_sep content))
      /\ Reassociate.pcb_component part = Ok (Some c)
      /\ ApplyMapping.has_match ApplyMapping.path_pattern
           (Reassociate.footprint_open ++ part) = false.
Proof.
  unfold Reassociate.parse_pcb_components. intros H Hc.
  destruct (read_text fs pcb_file) as [content|]; [| discriminate].
  destruct (collect_In _ _ _ _ H Hc) as (part & Hp & Hb).
  destruct (pcb_component_some _ _ Hb) as (H1 & H2 & H3 & H4 & H5 & H6 & H7).
  repeat (split; [assumption |]).
  exists content, part. repeat (split; [auto |]).
  rewrite <- (pcb_block_whole content part); [exact H7 |].
  destruct (Reassociate.split _ content); [destruct Hp | right; exact Hp].
Qed.

Lemma parsed_pcb_components_on_sample :
  Reassociate.reference (Samples.cap "U11" "aa-03") <> []
  /\ float_ge_180 (MkDec false 120 0) = false.
Proof.
  destruct (parsed_pcb_components_are_unlinked_and_below_180
              (Samples.fs_of Samples.doc_linked_then_free)
              "board.kicad_pcb"%string
              [Reassociate.MkComp (s "U11") None (s "Package_DFN_QFN:QFN-60")
                 (MkDec false 1105 1) (MkDec false 120 0) (s "aa-03")]
              (Reassociate.MkComp (s "U11") None (s "Package_DFN_QFN:QFN-60")
                 (MkDec false 1105 1) (MkDec false 120 0) (s "aa-03")))
    as (H1 & _ & _ & _ & H5 & _).
  - vm_compute. reflexivity.
  - left. reflexivity.
  - split; [exact H1 | exact H5].
Defined.

(** X3.  Every component that [parse_schematic_components] returns has a
    reference that is not empty and does not start with "#", a [lib_id]
    that is not empty, a uuid made of the characters a-f, 0-9 and "-", and
    a y coordinate below zero. *)
Theorem parsed_schematic_components_are_above_the_sheet fs sch_file l c :
  Reassociate.parse_schematic_components fs sch_file = Ok l -> In c l ->
  Reassociate.reference c <> []
  /\ starts_with (s "#") (Reassociate.reference c) = false
  /\ Reassociate.uuid c <> []
  /\ forallb is_hexdash (Reassociate.uuid c) = true
  /\ (d_neg (Reassociate.y c) = true /\ d_num (Reassociate.y c) <> 0%N)
  /\ exists id, Reassociate.lib_id c = Some id /\ id <> [].
Proof.
  unfold Reassociate.parse_schematic_components. intros H Hc.
  destruct (read_text fs sch_file) as [content|]; [| discriminate].
  destruct (collect_In _ _ _ _ H Hc) as (part & Hp & Hb).
  destruct (sch_component_some _ _ Hb) as (H1 & H2 & H3 & H4 & H5 & H6).
  repeat (split; [assumption |]). split; [| exact H6].
  unfold Reassociate.float_ge_0 in H5. apply orb_false_iff in H5 as [Hn Hz].
  apply negb_false_iff in Hn. split; [exact Hn |].
  intros E. rewrite E, N.mul_0_l in Hz. apply N.leb_gt in Hz. lia.
Qed.

Lemma parsed_schematic_components_on_sample :
  starts_with (s "#") (s "C1") = false
  /\ d_neg (MkDec true 205 1) = true.
Proof.
  destruct (parsed_schematic_components_are_above_the_sheet
              Samples.fs_both "board.kicad_sch"%string
              [Reassociate.MkComp (s "C1") (Some (s "Device:C"))
                 (s "Capacitor_SMD:C_0402_1005Metric")
                 (MkDec false 10 0) (MkDec true 205 1) (s "ab-12")]
              (Reassociate.MkComp (s "C1") (Some (s "Device:C"))
                 (s "Capacitor_SMD:C_0402_1005Metric")
                 (MkDec false 10 0) (MkDec true 205 1) (s "ab-12")))
    as (_ & H2 & _ & _ & [H5 _] & _).
  - vm_compute. reflexivity.
  - left. reflexivity.
  - split; [exact H2 | exact H5].
Defined.

(** ** When the parsers fail, and when they find nothing *)

Lemma pcb_component_raise part e :
  Reassociate.pcb_component part = Raise e ->
  e = ValueError
  /\ exists m,
      re_search Reassociate.at_pattern (Reassociate.pcb_block part) = Some m
      /\ (py_float (group 1 (Reassociate.pcb_block part) m) = None
          \/ py_float (group 2 (Reassociate.pcb_block part) m) = None).
Proof.
  unfold Reassociate.pcb_component.
  destruct (re_search Reassociate.footprint_name_pattern _); [| discriminate].
  destruct (re_search Reassociate.at_pattern _) as [m|]; [| discriminate].
  destruct (py_float (group 1 _ m)) as [x_coord|] eqn:Ex.
  - destruct (py_float (group 2 _ m)) as [y_coord|] eqn:Ey.
    + destruct (float_ge_180 y_coord); [discriminate |].
      destruct (re_search Reassociate.uuid_field_pattern _); [| discriminate].
      destruct (re_search Reassociate.reference_pattern _); [| discriminate].
      destruct (ApplyMapping.has_match _ _); discriminate.
    + intros H. injection H as <-. split; [reflexivity |]. exists m. auto.
  - intros H. injection H as <-. split; [reflexivity |]. exists m. auto.
Qed.

Lemma sch_component_raise part e :
  Reassociate.sch_component part = Raise e ->
  e = ValueError
  /\ exists m,
      re_search Reassociate.at_pattern (Reassociate.sch_block part) = Some m
      /\ (py_float (group 1 (Reassociate.sch_block part) m) = None
          \/ py_float (group 2 (Reassociate.sch_block part) m) = None).
Proof.
  unfold Reassociate.sch_component.
  destruct (negb _ && negb _); [discriminate |].
  destruct (re_search Reassociate.lib_id_pattern _); [| discriminate].
  destruct (re_search Reassociate.at_pattern _) as [m|]; [| discriminate].
  destruct (py_float (group 1 _ m)) as [x_coord|] eqn:Ex.
  - destruct (py_float (group 2 _ m)) as [y_coord|] eqn:Ey.
    + destruct (Reassociate.float_ge_0 y_coord); [discriminate |].
      destruct (re_search Reassociate.uuid_field_pattern _); [| discriminate].
      destruct (re_search Reassociate.reference_pattern _); [| discriminate].
      cbv zeta. destruct (starts_with _ _); discriminate.
    + intros H. injection H as <-. split; [reflexivity |]. exists m. auto.
  - intros H. injection H as <-. split; [reflexivity |]. exists m. auto.
Qed.

(** X4.  The parsers raise whatever opening and reading the file raises,
    or else [ValueError] when, in some part of the text, the first
    "(at x y" holds an x or a y that [float] refuses; they raise nothing
    else.  The number is read before the later tests, so a footprint that
    would be left out for its path, or a power symbol, raises as well. *)
Theorem parsers_raise_what_reading_raises_or_a_bad_number fs file e :
  (read_text fs file = Raise e ->
   Reassociate.parse_pcb_components fs file = Raise e
   /\ Reassociate.parse_schematic_components fs file = Raise e)
  /\ (Reassociate.parse_pcb_components fs file = Raise e ->
   read_text fs file = Raise e
   \/ (e = ValueError
       /\ exists content part m,
           read_text fs file = Ok content
           /\ In part (tl (Reassociate.split Reassociate.footprint_sep content))
           /\ re_search Reassociate.at_pattern (Reassociate.pcb_block part)
              = Some m
           /\ (py_float (group 1 (Reassociate.pcb_block part) m) = None
               \/ py_float (group 2 (Reassociate.pcb_block part) m) = None)))
  /\ (Reassociate.parse_schematic_components fs file = Raise e ->
      read_text fs file = Raise e
      \/ (e = ValueError
          /\ exists content part m,
              read_text fs file = Ok content
              /\ In part (tl (Reassociate.split Reassociate.symbol_sep content))
              /\ re_search Reassociate.at_pattern (Reassociate.sch_block part)
                 = Some m
              /\ (py_float (group 1 (Reassociate.sch_block part) m) = None
                  \/ py_float (group 2 (Reassociate.sch_block part) m) = None))).
Proof.
  unfold Reassociate.parse_pcb_components, Reassociate.parse_schematic_components.
  split; [intros ->; split; reflexivity |].
  split; intros H; (destruct (read_text fs file) as [content|y];
    [right | injection H as <-; left; reflexivity]).
  - apply collect_raise in H as (part & Hp & Hb).
    apply pcb_component_raise in Hb as (-> & m & Hm & Hf).
    split; [reflexivity |]. exists content, part, m. auto.
  - apply collect_raise in H as (part & Hp & Hb).
    apply sch_component_raise in Hb as (-> & m & Hm & Hf).
    split; [reflexivity |]. exists content, part, m. auto.
Qed.

Lemma parsers_raise_on_sample :
  (read_text (Samples.fs_of Samples.doc_plain) "none.kicad_pcb"%string
   = Raise FileNotFoundError
   \/ (FileNotFoundError = ValueError
       /\ exists content part m,
           read_text (Samples.fs_of Samples.doc_plain) "none.kicad_pcb"%string
           = Ok content
           /\ In part (tl (Reassociate.split Reassociate.footprint_sep content))
           /\ re_search Reassociate.at_pattern (Reassociate.pcb_block part)
              = Some m
           /\ (py_float (group 1 (Reassociate.pcb_block part) m) = None
               \/ py_float (group 2 (Reassociate.pcb_block part) m) = None)))
  /\ (read_text (Samples.fs_of Samples.doc_bad_y) "board.kicad_pcb"%string
      = Raise ValueError
      \/ (ValueError = ValueError
          /\ exists content part m,
              read_text (Samples.fs_of Samples.doc_bad_y)
                        "board.kicad_pcb"%string = Ok content
              /\ In part (tl (Reassociate.split Reassociate.footprint_sep
                                                content))
              /\ re_search Reassociate.at_pattern (Reassociate.pcb_block part)
                 = Some m
              /\ (py_float (group 1 (Reassociate.pcb_block part) m) = None
                  \/ py_float (group 2 (Reassociate.pcb_block part) m) = None))).
Proof.
  split.
  - apply (proj1 (proj2 (parsers_raise_what_reading_raises_or_a_bad_number
                           (Samples.fs_of Samples.doc_plain)
                           "none.kicad_pcb"%string FileNotFoundError))).
    reflexivity.
  - apply (proj1 (proj2 (parsers_raise_what_reading_raises_or_a_bad_number
                           (Samples.fs_of Samples.doc_bad_y)
                           "board.kicad_pcb"%string ValueError))).
    vm_compute. reflexivity.
Defined.

(** X5.  A text without any footprint opener after a newline gives the empty
    list of PCB components, and a text without any symbol opener after a
    newline the empty list of schematic components: the parsers do not
    raise on it. *)
Theorem parsers_find_nothing_without_an_opener fs file content :
  read_text fs file = Ok content ->
  (Reassociate.find Reassociate.footprint_sep content = None ->
   Reassociate.parse_pcb_components fs file = Ok [])
  /\ (Reassociate.find Reassociate.symbol_sep content = None ->
      Reassociate.parse_schematic_components fs file = Ok []).
Proof.
  intros Hf.
  unfold Reassociate.parse_pcb_components, Reassociate.parse_schematic_components.
  rewrite Hf. split; intros H; rewrite (split_without_separator _ _ H);
    reflexivity.
Qed.

Lemma parsers_find_nothing_on_sample :
  Reassociate.parse_pcb_components Samples.fs_both "board.kicad_sch"%string
  = Ok [].
Proof.
  apply (proj1 (parsers_find_nothing_without_an_opener
                  Samples.fs_both "board.kicad_sch"%string Samples.doc_sch
                  eq_refl)).
  vm_compute. reflexivity.
Defined.

(** ** Grouping by footprint type *)

Lemma fp_type_eqb_eq a b : Reassociate.fp_type_eqb a b = true <-> a = b.
Proof. destruct a, b; simpl; split; intros H; congruence. Qed.

Lemma fp_type_eqb_refl a : Reassociate.fp_type_eqb a a = true.
Proof. apply fp_type_eqb_eq. reflexivity. Qed.

Lemma get_group_add t t' c : forall g,
  Reassociate.get_group t (Reassociate.group_add t' c g)
  = if Reassociate.fp_type_eqb t' t then Reassociate.get_group t g ++ [c]
    else Reassociate.get_group t g.
Proof.
  induction g as [|[t0 l] g IH]; simpl.
  - destruct (Reassociate.fp_type_eqb t' t); reflexivity.
  - destruct (Reassociate.fp_type_eqb t0 t') eqn:E0; simpl.
    + apply fp_type_eqb_eq in E0. subst t0.
      destruct (Reassociate.fp_type_eqb t' t); reflexivity.
    + destruct (Reassociate.fp_type_eqb t0 t) eqn:E1; [| exact IH].
      apply fp_type_eqb_eq in E1. subst t0.
      destruct (Reassociate.fp_type_eqb t' t) eqn:E2; [| reflexivity].
      apply fp_type_eqb_eq in E2. subst t'.
      rewrite fp_type_eqb_refl in E0. discriminate.
Qed.

Lemma keys_group_add t c : forall g,
  Reassociate.keys (Reassociate.group_add t c g)
  = if existsb (fun u => Reassociate.fp_type_eqb u t) (Reassociate.keys g)
    then Reassociate.keys g else Reassociate.keys g ++ [t].
Proof.
  unfold Reassociate.keys.
  induction g as [|[t0 l] g IH]; simpl; [reflexivity |].
  destruct (Reassociate.fp_type_eqb t0 t); simpl; [reflexivity |].
  rewrite IH. destruct (existsb _ _); reflexivity.
Qed.

Lemma members_group_add t c x : forall g,
  In x (flat_map snd (Reassociate.group_add t c g))
  <-> x = c \/ In x (flat_map snd g).
Proof.
  induction g as [|[t0 l] g IH]; simpl.
  - intuition congruence.
  - destruct (Reassociate.fp_type_eqb t0 t); simpl;
      rewrite !in_app_iff; [simpl | rewrite IH]; intuition congruence.
Qed.

Section Grouping.
Local Abbreviation add_comp :=
  (fun g c => Reassociate.group_add
                (Reassociate.get_footprint_type (Reassociate.footprint c)) c g).
Local Abbreviation of_type t :=
  (fun c => Reassociate.fp_type_eqb
              (Reassociate.get_footprint_type (Reassociate.footprint c)) t).

Lemma get_group_fold t : forall comps g,
  Reassociate.get_group t (fold_left add_comp comps g)
  = Reassociate.get_group t g ++ filter (of_type t) comps.
Proof.
  induction comps as [|c comps IH]; intros g; simpl.
  - symmetry. apply app_nil_r.
  - rewrite IH, get_group_add.
    destruct (Reassociate.fp_type_eqb _ t); [| reflexivity].
    rewrite <- app_assoc. reflexivity.
Qed.

Lemma keys_fold_nodup : forall comps g,
  NoDup (Reassociate.keys g) ->
  NoDup (Reassociate.keys (fold_left add_comp comps g)).
Proof.
  induction comps as [|c comps IH]; intros g H; simpl; [exact H |].
  apply IH. rewrite keys_group_add.
  destruct (existsb _ (Reassociate.keys g)) eqn:E; [exact H |].
  apply NoDup_app; [exact H | repeat constructor; intros [] |].
  intros u Hu [Eu | []].
  assert (Ht : existsb
                 (fun v => Reassociate.fp_type_eqb v u) (Reassociate.keys g)
               = true)
    by (apply existsb_exists; exists u; split;
        [exact Hu | apply fp_type_eqb_refl]).
  rewrite <- Eu in Ht. congruence.
Qed.

Lemma members_fold x : forall comps g,
  In x (flat_map snd (fold_left add_comp comps g))
  <-> In x comps \/ In x (flat_map snd g).
Proof.
  induction comps as [|c comps IH]; intros g; simpl; [intuition |].
  rewrite IH, members_group_add. intuition congruence.
Qed.
End Grouping.

(** X6.  [group_by_type] files every component under the type of its
    footprint and nowhere else: the list kept for a type is the list of
    the components of that type, in the order they came in, and no type
    is kept twice. *)
Theorem groups_are_the_components_of_each_type comps :
  (forall t,
      Reassociate.get_group t (Reassociate.group_by_type comps)
      = filter (fun c => Reassociate.fp_type_eqb
                           (Reassociate.get_footprint_type
                              (Reassociate.footprint c)) t) comps)
  /\ NoDup (Reassociate.keys (Reassociate.group_by_type comps))
  /\ (forall x, In x (flat_map snd (Reassociate.group_by_type comps))
                <-> In x comps).
Proof.
  unfold Reassociate.group_by_type. split; [| split].
  - intros t. apply (get_group_fold t comps []).
  - apply keys_fold_nodup. constructor.
  - intros x. rewrite members_fold. simpl. intuition.
Qed.

(** ** Sorting the groups *)

Lemma sort_key_index_error c :
  Reassociate.sort_key c = Raise IndexError <-> Reassociate.reference c = [].
Proof.
  unfold Reassociate.sort_key.
  destruct (Reassociate.reference c) as [|c0 rest]; [tauto |].
  destruct (Reassociate.first_digits (c0 :: rest)) as [ds|].
  - destruct (Reassociate.py_int ds); split; discriminate.
  - split; discriminate.
Qed.

Lemma sort_key_value_error c :
  Reassociate.sort_key c = Raise ValueError <->
  exists ds, Reassociate.first_digits (Reassociate.reference c) = Some ds
             /\ Reassociate.int_max_str_digits < length ds.
Proof.
  unfold Reassociate.sort_key.
  destruct (Reassociate.reference c) as [|c0 rest].
  - split; [discriminate | intros (ds & H & _); discriminate H].
  - destruct (Reassociate.first_digits (c0 :: rest)) as [ds|].
    + unfold Reassociate.py_int.
      destruct (Nat.ltb_spec Reassociate.int_max_str_digits (length ds)).
      * split; [intros _; exists ds; auto | reflexivity].
      * split; [discriminate |]. intros (ds' & E & Hl).
        injection E as <-. lia.
    + split; [discriminate | intros (ds & H & _); discriminate H].
Qed.

Lemma sort_key_raises c e :
  Reassociate.sort_key c = Raise e -> e = IndexError \/ e = ValueError.
Proof.
  unfold Reassociate.sort_key.
  destruct (Reassociate.reference c) as [|c0 rest].
  - intros H. injection H as <-. auto.
  - destruct (Reassociate.first_digits (c0 :: rest)) as [ds|];
      [| discriminate].
    destruct (Reassociate.py_int ds); [discriminate |].
    intros H. injection H as <-. auto.
Qed.

Lemma sort_components_raise l e :
  Reassociate.sort_components l = Raise e ->
  exists c, In c l /\ Reassociate.sort_key c = Raise e.
Proof.
  unfold Reassociate.sort_components. intros H.
  destruct (Reassociate.keyed l) as [kl|e0] eqn:E; [discriminate |].
  injection H as <-.
  apply keyed_raise in E as (l1 & c & l2 & -> & Hc & _).
  exists c. split; [apply in_or_app; right; left; reflexivity | exact Hc].
Qed.

Lemma sort_components_returns l :
  (forall c, In c l -> exists k, Reassociate.sort_key c = Ok k) ->
  exists l', Reassociate.sort_components l = Ok l'.
Proof.
  intros H. unfold Reassociate.sort_components.
  destruct (keyed_total l H) as [kl ->]. eauto.
Qed.

Lemma sort_components_keys l l' :
  Reassociate.sort_components l = Ok l' ->
  forall c, In c l -> exists k, Reassociate.sort_key c = Ok k.
Proof.
  unfold Reassociate.sort_components. intros H c Hc.
  destruct (Reassociate.keyed l) as [kl|] eqn:E; [| discriminate].
  apply keyed_spec in E as [Hm Hk]. rewrite <- Hm in Hc.
  apply in_map_iff in Hc as (p & <- & Hp).
  rewrite Forall_forall in Hk. exists (fst p). apply Hk. exact Hp.
Qed.

Lemma sort_components_perm l l' :
  Reassociate.sort_components l = Ok l' -> Permutation l l'.
Proof.
  unfold Reassociate.sort_components. intros H.
  destruct (Reassociate.keyed l) as [kl|] eqn:E; [| discriminate].
  injection H as <-. apply keyed_spec in E as [Hm _].
  destruct (stable_sort_spec kl [] (SSorted_nil _)) as [Hp _].
  rewrite app_nil_r in Hp. rewrite <- Hm. apply Permutation_map. exact Hp.
Qed.

Lemma sort_components_sorted l l' :
  Reassociate.sort_components l = Ok l' -> StronglySorted key_le l'.
Proof.
  unfold Reassociate.sort_components. intros H.
  destruct (Reassociate.keyed l) as [kl|] eqn:E; [| discriminate].
  injection H as <-. apply keyed_spec in E as [Hm Hk].
  destruct (stable_sort_spec kl [] (SSorted_nil _)) as [Hp Hs].
  rewrite app_nil_r in Hp. fold (Reassociate.stable_sort kl) in Hp, Hs.
  apply sorted_by_key; [exact Hs |].
  apply (Permutation_Forall Hp). exact Hk.
Qed.

Lemma filter_keyed k : forall kl,
  Forall (fun p : (ascii * N) * Reassociate.component =>
            Reassociate.sort_key (snd p) = Ok (fst p)) kl ->
  filter (with_key k) (map snd kl)
  = map snd (filter (fun p => same_key (fst p) k) kl).
Proof.
  induction kl as [|[k0 c] kl IH]; intros H; [reflexivity |].
  inversion H as [|? ? Hk Hrest]; subst. simpl in *.
  unfold with_key at 1. rewrite Hk.
  destruct (same_key k0 k); simpl; rewrite (IH Hrest); reflexivity.
Qed.

(** The sort is stable: the components whose keys tie keep the order they
    had. *)
Lemma sort_components_stable l l' k :
  Reassociate.sort_components l = Ok l' ->
  filter (with_key k) l' = filter (with_key k) l.
Proof.
  unfold Reassociate.sort_components. intros H.
  destruct (Reassociate.keyed l) as [kl|] eqn:E; [| discriminate].
  injection H as <-. apply keyed_spec in E as [Hm Hk].
  destruct (stable_sort_spec kl [] (SSorted_nil _)) as [Hp _].
  rewrite app_nil_r in Hp. fold (Reassociate.stable_sort kl) in Hp.
  rewrite filter_keyed by (apply (Permutation_Forall Hp); exact Hk).
  unfold Reassociate.stable_sort.
  rewrite (stable_sort_filter k kl [] (SSorted_nil _)). simpl.
  rewrite <- filter_keyed by exact Hk. rewrite Hm. reflexivity.
Qed.

Lemma sort_groups_raise : forall g e,
  Reassociate.sort_groups g = Raise e ->
  exists c, In c (flat_map snd g) /\ Reassociate.sort_key c = Raise e.
Proof.
  induction g as [|[t l] g IH]; intros e H; simpl in H; [discriminate |].
  destruct (Reassociate.sort_components l) as [l'|e0] eqn:El.
  - destruct (Reassociate.sort_groups g) as [r|e1]; [discriminate |].
    injection H as <-. destruct (IH e1 eq_refl) as (c & Hc & E).
    exists c. simpl. rewrite in_app_iff. auto.
  - injection H as <-. apply sort_components_raise in El as (c & Hc & E).
    exists c. simpl. rewrite in_app_iff. auto.
Qed.

Lemma sort_groups_returns : forall g,
  (forall c, In c (flat_map snd g) -> exists k, Reassociate.sort_key c = Ok k) ->
  exists g', Reassociate.sort_groups g = Ok g'.
Proof.
  induction g as [|[t l] g IH]; intros H; simpl; [eauto |].
  destruct (sort_components_returns l) as [l' ->].
  { intros c Hc. apply H. simpl. apply in_or_app. left. exact Hc. }
  destruct IH as [g' ->]; [| eauto].
  intros c Hc. apply H. simpl. apply in_or_app. right. exact Hc.
Qed.

Lemma sort_groups_keys_ok : forall g g',
  Reassociate.sort_groups g = Ok g' ->
  forall c, In c (flat_map snd g) -> exists k, Reassociate.sort_key c = Ok k.
Proof.
  induction g as [|[t l] g IH]; intros g' H c Hc; simpl in *; [destruct Hc |].
  destruct (Reassociate.sort_components l) as [l'|] eqn:El; [| discriminate].
  destruct (Reassociate.sort_groups g) as [r|]; [| discriminate].
  apply in_app_iff in Hc as [Hc | Hc].
  - apply (sort_components_keys l l' El c Hc).
  - apply (IH r eq_refl c Hc).
Qed.

(** Each list of the sorted groups is the sort of the list the group had. *)
Lemma sort_groups_get : forall g g',
  Reassociate.sort_groups g = Ok g' ->
  forall t, Reassociate.sort_components (Reassociate.get_group t g)
            = Ok (Reassociate.get_group t g').
Proof.
  induction g as [|[t0 l] g IH]; intros g' H t; simpl in H.
  - injection H as <-. reflexivity.
  - destruct (Reassociate.sort_components l) as [l'|] eqn:El; [| discriminate].
    destruct (Reassociate.sort_groups g) as [r|] eqn:Eg; [| discriminate].
    injection H as <-. simpl.
    destruct (Reassociate.fp_type_eqb t0 t);
      [exact El | apply IH; reflexivity].
Qed.

Lemma sort_groups_keys : forall g g',
  Reassociate.sort_groups g = Ok g' ->
  Reassociate.keys g' = Reassociate.keys g.
Proof.
  induction g as [|[t0 l] g IH]; intros g' H; simpl in H.
  - injection H as <-. reflexivity.
  - destruct (Reassociate.sort_components l) as [l'|]; [| discriminate].
    destruct (Reassociate.sort_groups g) as [r|]; [| discriminate].
    injection H as <-. unfold Reassociate.keys in *. simpl. f_equal.
    apply IH. reflexivity.
Qed.

Lemma sort_groups_perm g g' :
  Reassociate.sort_groups g = Ok g' ->
  forall t, Permutation (Reassociate.get_group t g) (Reassociate.get_group t g').
Proof.
  intros H t. apply sort_components_perm. apply sort_groups_get. exact H.
Qed.

(** What a run of [create_mapping] that returns has gone through: the two
    sets of groups sorted, and for every type the list paired is the sort
    of the components of that type, in the order the parser found them. *)
Lemma create_mapping_groups set_order sch pcb r :
  Reassociate.create_mapping set_order sch pcb = Ok r ->
  exists sch_by_type pcb_by_type,
    Reassociate.sort_groups (Reassociate.group_by_type sch) = Ok sch_by_type
    /\ Reassociate.sort_groups (Reassociate.group_by_type pcb)
       = Ok pcb_by_type
    /\ r = Reassociate.pair_types sch_by_type pcb_by_type
             (set_order (Reassociate.keys sch_by_type
                           ++ Reassociate.keys pcb_by_type))
    /\ (forall t,
           Reassociate.sort_components (filter (of_type t) sch)
           = Ok (Reassociate.get_group t sch_by_type))
    /\ (forall t,
           Reassociate.sort_components (filter (of_type t) pcb)
           = Ok (Reassociate.get_group t pcb_by_type)).
Proof.
  unfold Reassociate.create_mapping. intros H.
  destruct (Reassociate.sort_groups (Reassociate.group_by_type sch))
    as [sch_by_type|] eqn:Es; [| discriminate].
  destruct (Reassociate.sort_groups (Reassociate.group_by_type pcb))
    as [pcb_by_type|] eqn:Ep; [| discriminate].
  injection H as <-. exists sch_by_type, pcb_by_type.
  split; [reflexivity |]. split; [reflexivity |]. split; [reflexivity |].
  split; intros t.
  - rewrite <- (sort_groups_get _ _ Es t). unfold Reassociate.group_by_type.
    rewrite (get_group_fold t sch []). reflexivity.
  - rewrite <- (sort_groups_get _ _ Ep t). unfold Reassociate.group_by_type.
    rewrite (get_group_fold t pcb []). reflexivity.
Qed.

Lemma create_mapping_raise set_order sch pcb e :
  Reassociate.create_mapping set_order sch pcb = Raise e ->
  exists c, In c (sch ++ pcb) /\ Reassociate.sort_key c = Raise e.
Proof.
  unfold Reassociate.create_mapping. intros H.
  destruct (Reassociate.sort_groups (Reassociate.group_by_type sch))
    as [sch_sorted|e0] eqn:Es.
  - destruct (Reassociate.sort_groups (Reassociate.group_by_type pcb))
      as [pcb_sorted|e1] eqn:Ep; [discriminate |].
    injection H as <-. apply sort_groups_raise in Ep as (c & Hc & E).
    apply (members_fold c pcb []) in Hc as [Hc | []].
    exists c. rewrite in_app_iff. auto.
  - injection H as <-. apply sort_groups_raise in Es as (c & Hc & E).
    apply (members_fold c sch []) in Hc as [Hc | []].
    exists c. rewrite in_app_iff. auto.
Qed.

Lemma create_mapping_returns set_order sch pcb :
  (forall c, In c (sch ++ pcb) -> exists k, Reassociate.sort_key c = Ok k) ->
  exists sch_sorted pcb_sorted,
    Reassociate.sort_groups (Reassociate.group_by_type sch) = Ok sch_sorted
    /\ Reassociate.sort_groups (Reassociate.group_by_type pcb) = Ok pcb_sorted
    /\ Reassociate.create_mapping set_order sch pcb
       = Ok (Reassociate.pair_types sch_sorted pcb_sorted
               (set_order (Reassociate.keys sch_sorted
                             ++ Reassociate.keys pcb_sorted))).
Proof.
  intros H. unfold Reassociate.create_mapping.
  destruct (sort_groups_returns (Reassociate.group_by_type sch))
    as [sch_sorted Es].
  { intros c Hc. apply H. apply in_app_iff. left.
    apply (members_fold c sch []) in Hc as [Hc | []]. exact Hc. }
  destruct (sort_groups_returns (Reassociate.group_by_type pcb))
    as [pcb_sorted Ep].
  { intros c Hc. apply H. apply in_app_iff. right.
    apply (members_fold c pcb []) in Hc as [Hc | []]. exact Hc. }
  rewrite Es, Ep. eauto.
Qed.

Lemma create_mapping_keys_ok set_order sch pcb r :
  Reassociate.create_mapping set_order sch pcb = Ok r ->
  forall c, In c (sch ++ pcb) -> exists k, Reassociate.sort_key c = Ok k.
Proof.
  unfold Reassociate.create_mapping. intros H c Hc.
  destruct (Reassociate.sort_groups (Reassociate.group_by_type sch))
    as [sch_sorted|] eqn:Es; [| discriminate].
  destruct (Reassociate.sort_groups (Reassociate.group_by_type pcb))
    as [pcb_sorted|] eqn:Ep; [| discriminate].
  apply in_app_iff in Hc as [Hc | Hc].
  - apply (sort_groups_keys_ok _ _ Es). apply (members_fold c sch []). auto.
  - apply (sort_groups_keys_ok _ _ Ep). apply (members_fold c pcb []). auto.
Qed.

(** C6, as the scripts have it.  For each footprint type, in the order the
    set of types is walked, [create_mapping] pairs the i-th PCB component
    of the sorted list with the i-th schematic component of the sorted
    list, for every i below both lengths; the sorted list of a type is the
    sort of the components of that type, in ascending order of their keys.
    It prints the two lengths, one line for each pair, and one line for
    each PCB component left over.  The schematic components left over get
    no entry and no line. *)
Theorem pairs_by_position_and_reports_surplus_pcb set_order sch pcb ms out :
  Reassociate.create_mapping set_order sch pcb = Ok (ms, out) ->
  (exists sch_by_type pcb_by_type,
      (forall t,
          Reassociate.sort_components (filter (of_type t) sch)
          = Ok (Reassociate.get_group t sch_by_type)
          /\ Permutation (filter (of_type t) sch)
                         (Reassociate.get_group t sch_by_type)
          /\ StronglySorted key_le (Reassociate.get_group t sch_by_type))
      /\ (forall t,
             Reassociate.sort_components (filter (of_type t) pcb)
             = Ok (Reassociate.get_group t pcb_by_type)
             /\ Permutation (filter (of_type t) pcb)
                            (Reassociate.get_group t pcb_by_type)
             /\ StronglySorted key_le (Reassociate.get_group t pcb_by_type))
      /\ ms = flat_map
                (fun t => paired t (Reassociate.get_group t sch_by_type)
                                   (Reassociate.get_group t pcb_by_type))
                (set_order (Reassociate.keys sch_by_type
                              ++ Reassociate.keys pcb_by_type))
      /\ out = flat_map
                 (fun t => report t (Reassociate.get_group t sch_by_type)
                                    (Reassociate.get_group t pcb_by_type))
                 (set_order (Reassociate.keys sch_by_type
                               ++ Reassociate.keys pcb_by_type))
      /\ Reassociate.keys sch_by_type
         = Reassociate.keys (Reassociate.group_by_type sch)
      /\ Reassociate.keys pcb_by_type
         = Reassociate.keys (Reassociate.group_by_type pcb))
  /\ (forall t sch_list pcb_list,
         length (paired t sch_list pcb_list)
         = Nat.min (length pcb_list) (length sch_list))
  /\ (forall t sch_list pcb_list i p sc,
         nth_error pcb_list i = Some p -> nth_error sch_list i = Some sc ->
         nth_error (paired t sch_list pcb_list) i
         = Some (Reassociate.MkEntry
                   (Reassociate.reference p) (Reassociate.uuid p)
                   (Reassociate.reference sc) (Reassociate.uuid sc) t)).
Proof.
  intros H. split; [| split].
  - destruct (create_mapping_groups _ _ _ _ H)
      as (sch_by_type & pcb_by_type & Es & Ep & E & Hs & Hp).
    rewrite pair_types_positional in E. injection E as -> ->.
    exists sch_by_type, pcb_by_type.
    split; [| split; [| split; [| split; [| split]]]];
      try reflexivity.
    + intros t. split; [apply Hs |].
      split; [apply sort_components_perm | eapply sort_components_sorted];
        apply Hs.
    + intros t. split; [apply Hp |].
      split; [apply sort_components_perm | eapply sort_components_sorted];
        apply Hp.
    + apply (sort_groups_keys _ _ Es).
    + apply (sort_groups_keys _ _ Ep).
  - intros t sch_list pcb_list. unfold paired.
    rewrite length_map, length_combine. reflexivity.
  - intros t sch_list pcb_list. apply paired_nth.
Qed.

Lemma pairs_by_position_on_sample :
  exists sch_by_type pcb_by_type,
    (forall t,
        Reassociate.sort_components (filter (of_type t) Samples.sch_caps)
        = Ok (Reassociate.get_group t sch_by_type))
    /\ (forall t,
           Reassociate.sort_components (filter (of_type t) Samples.pcb_caps)
           = Ok (Reassociate.get_group t pcb_by_type))
    /\ [Reassociate.MkEntry (s "C10") (s "p-10") (s "C1") (s "s-1")
                            Reassociate.CAP;
        Reassociate.MkEntry (s "C11") (s "p-11") (s "C2") (s "s-2")
                            Reassociate.CAP]
       = flat_map
           (fun t => paired t (Reassociate.get_group t sch_by_type)
                              (Reassociate.get_group t pcb_by_type))
           (Samples.first_seen (Reassociate.keys sch_by_type
                                  ++ Reassociate.keys pcb_by_type)).
Proof.
  destruct (pairs_by_position_and_reports_surplus_pcb Samples.first_seen
              Samples.sch_caps Samples.pcb_caps
              [Reassociate.MkEntry (s "C10") (s "p-10") (s "C1") (s "s-1")
                                   Reassociate.CAP;
               Reassociate.MkEntry (s "C11") (s "p-11") (s "C2") (s "s-2")
                                   Reassociate.CAP]
              [Reassociate.msg_group Reassociate.CAP 3 2;
               Reassociate.msg_pair (Samples.cap "C10" "p-10")
                                    (Samples.cap "C1" "s-1");
               Reassociate.msg_pair (Samples.cap "C11" "p-11")
                                    (Samples.cap "C2" "s-2")])
    as [(sch_by_type & pcb_by_type & Hs & Hp & Hm & _) _].
  - vm_compute. reflexivity.
  - exists sch_by_type, pcb_by_type.
    split; [intros t; apply Hs |]. split; [intros t; apply Hp | exact Hm].
Defined.

(** C6 fails on the scripts: with the schematic capacitors C1, C2, C3 and
    the PCB capacitors C10, C11 the pairs are C10 with C1 and C11 with C2,
    and the three lines printed are the header and the two pairs.  C3 is
    left over and appears in no line and in no entry: nothing is reported
    as an unpaired schematic component. *)
Lemma surplus_schematic_component_is_not_reported :
  Reassociate.create_mapping Samples.first_seen Samples.sch_caps Samples.pcb_caps
  = Ok ([Reassociate.MkEntry (s "C10") (s "p-10") (s "C1") (s "s-1")
                             Reassociate.CAP;
         Reassociate.MkEntry (s "C11") (s "p-11") (s "C2") (s "s-2")
                             Reassociate.CAP],
        [NL :: s "CAP: 3 schematic, 2 PCB"; s "  C10 -> C1"; s "  C11 -> C2"])
  /\ forallb (fun line => negb (Reassociate.contains (s "C3") line))
             [NL :: s "CAP: 3 schematic, 2 PCB"; s "  C10 -> C1";
              s "  C11 -> C2"]
     = true.
Proof. vm_compute. split; reflexivity. Qed.

(** C7, as the scripts have it.  Within each footprint type
    [create_mapping] sorts the components, stably, by the pair made of the
    first character of the reference and the number read from its first
    run of digits, 0 when it has no digit.  The empty reference raises
    [IndexError], and a first run of more than 4300 digits raises
    [ValueError]; with no such reference the sort returns the same
    components with their keys in ascending order, those whose keys tie in
    the order they had.  The key is neither the whole run of leading
    letters nor the digits the reference ends with. *)
Theorem sorts_by_first_character_and_first_number set_order sch pcb :
  (forall c, Reassociate.reference c = [] ->
             Reassociate.sort_key c = Raise IndexError)
  /\ (forall c c0 rest,
         Reassociate.reference c = c0 :: rest ->
         forallb (fun ch => negb (is_digit ch)) (c0 :: rest) = true ->
         Reassociate.sort_key c = Ok (c0, 0%N))
  /\ (forall c c0 rest pre ds post,
         Reassociate.reference c = c0 :: rest ->
         c0 :: rest = pre ++ ds ++ post ->
         forallb (fun ch => negb (is_digit ch)) pre = true ->
         ds <> [] -> forallb is_digit ds = true ->
         match post with [] => True | ch :: _ => is_digit ch = false end ->
         Reassociate.sort_key c
         = if Reassociate.int_max_str_digits <? length ds
           then Raise ValueError
           else Ok (c0, Reassociate.int_value ds))
  /\ (forall l,
         (forall c, In c l -> exists k, Reassociate.sort_key c = Ok k) ->
         exists l', Reassociate.sort_components l = Ok l')
  /\ (forall l e,
         Reassociate.sort_components l = Raise e ->
         exists c, In c l /\ Reassociate.sort_key c = Raise e)
  /\ (forall l l',
         Reassociate.sort_components l = Ok l' ->
         Permutation l l' /\ StronglySorted key_le l'
         /\ (forall k, filter (with_key k) l' = filter (with_key k) l)
         /\ (forall c, In c l -> exists k, Reassociate.sort_key c = Ok k))
  /\ (forall ms out,
         Reassociate.create_mapping set_order sch pcb = Ok (ms, out) ->
         exists sch_by_type pcb_by_type,
           (ms, out) = Reassociate.pair_types sch_by_type pcb_by_type
                         (set_order (Reassociate.keys sch_by_type
                                       ++ Reassociate.keys pcb_by_type))
           /\ (forall t,
                  Reassociate.sort_components (filter (of_type t) sch)
                  = Ok (Reassociate.get_group t sch_by_type))
           /\ (forall t,
                  Reassociate.sort_components (filter (of_type t) pcb)
                  = Ok (Reassociate.get_group t pcb_by_type))).
Proof.
  split; [| split; [| split; [| split; [| split; [| split]]]]].
  - intros c. apply sort_key_index_error.
  - intros c c0 rest E H. unfold Reassociate.sort_key.
    rewrite E, (first_digits_none _ H). reflexivity.
  - intros c c0 rest pre ds post E E' Hpre Hne Hds Hpost.
    unfold Reassociate.sort_key. rewrite E, E'.
    rewrite (first_digits_run pre ds post Hpre Hne Hds Hpost).
    unfold Reassociate.py_int.
    destruct (Reassociate.int_max_str_digits <? length ds); reflexivity.
  - apply sort_components_returns.
  - apply sort_components_raise.
  - intros l l' H. split; [apply sort_components_perm; exact H |].
    split; [apply (sort_components_sorted l); exact H |].
    split; [intros k; apply sort_components_stable; exact H |].
    apply (sort_components_keys l l' H).
  - intros ms out H.
    destruct (create_mapping_groups _ _ _ _ H)
      as (sch_by_type & pcb_by_type & _ & _ & E & Hs & Hp).
    exists sch_by_type, pcb_by_type. auto.
Qed.

Lemma sorts_bare_letter_first :
  Permutation [Samples.part "C7"; Samples.part "C"]
              [Samples.part "C"; Samples.part "C7"]
  /\ StronglySorted key_le [Samples.part "C"; Samples.part "C7"]
  /\ (forall k, filter (with_key k) [Samples.part "C"; Samples.part "C7"]
                = filter (with_key k) [Samples.part "C7"; Samples.part "C"])
  /\ (forall c, In c [Samples.part "C7"; Samples.part "C"] ->
                exists k, Reassociate.sort_key c = Ok k).
Proof.
  destruct (sorts_by_first_character_and_first_number
              Samples.first_seen [] []) as (_ & _ & _ & _ & _ & H & _).
  apply (H [Samples.part "C7"; Samples.part "C"]).
  vm_compute. reflexivity.
Defined.

(** C7 fails on the scripts: S2 and SW1 share their first character, so
    the key of the scripts puts SW1 (number 1) before S2 (number 2), while
    by the whole run of leading letters S comes before SW.  And the number
    of C07x9 is 7, from its first run of digits, not the 9 it ends
    with. *)
Lemma sort_key_is_not_prefix_and_suffix :
  Reassociate.sort_components [Samples.part "S2"; Samples.part "SW1"]
  = Ok [Samples.part "SW1"; Samples.part "S2"]
  /\ spec_key_ltb (spec_sort_key (Samples.part "S2"))
                  (spec_sort_key (Samples.part "SW1")) = true
  /\ Reassociate.sort_key (Samples.part "C07x9") = Ok ("C"%char, 7%N)
  /\ spec_sort_key (Samples.part "C07x9") = (s "C", 9%N).
Proof. vm_compute. repeat split; reflexivity. Qed.

(** X7.  [create_mapping] raises only what a sort key raises, and it raises
    whenever the key of some component, of the schematic or of the board,
    does: [IndexError] for the empty reference, whose first character the
    key indexes, and [ValueError] for a reference whose first run of
    digits has more than 4300 digits, which [int] refuses. *)
Theorem create_mapping_raises_what_a_sort_key_raises set_order sch pcb :
  (forall e, Reassociate.create_mapping set_order sch pcb = Raise e ->
             exists c, In c (sch ++ pcb) /\ Reassociate.sort_key c = Raise e)
  /\ ((exists c e, In c (sch ++ pcb) /\ Reassociate.sort_key c = Raise e) ->
      exists e, Reassociate.create_mapping set_order sch pcb = Raise e)
  /\ (forall c, Reassociate.sort_key c = Raise IndexError
                <-> Reassociate.reference c = [])
  /\ (forall c, Reassociate.sort_key c = Raise ValueError
                <-> exists ds,
                      Reassociate.first_digits (Reassociate.reference c)
                      = Some ds
                      /\ Reassociate.int_max_str_digits < length ds)
  /\ (forall c e, Reassociate.sort_key c = Raise e ->
                  e = IndexError \/ e = ValueError).
Proof.
  split; [| split; [| split; [| split]]].
  - intros e. apply create_mapping_raise.
  - intros (c & e & Hc & E).
    destruct (Reassociate.create_mapping set_order sch pcb) as [r|e'] eqn:H;
      [| eauto].
    destruct (create_mapping_keys_ok _ _ _ _ H c Hc) as [k Hk]. congruence.
  - apply sort_key_index_error.
  - apply sort_key_value_error.
  - apply sort_key_raises.
Qed.

(** ** What the mapping pairs *)

Lemma sorted_group_members g g' t c comps :
  Reassociate.sort_groups (Reassociate.group_by_type comps) = Ok g' ->
  g = Reassociate.group_by_type comps ->
  In c (Reassociate.get_group t g') ->
  In c comps
  /\ Reassociate.get_footprint_type (Reassociate.footprint c) = t.
Proof.
  intros Hs -> Hc.
  apply (Permutation_in c (Permutation_sym (sort_groups_perm _ _ Hs t))) in Hc.
  unfold Reassociate.group_by_type in Hc.
  rewrite (get_group_fold t comps []) in Hc. simpl in Hc.
  apply filter_In in Hc as [Hc Ht]. split; [exact Hc |].
  apply fp_type_eqb_eq. exact Ht.
Qed.

(** X8.  Every entry of the mapping that [create_mapping] returns pairs a
    component of the board with a component of the schematic whose
    footprints are of the same type, the type the entry records; it takes
    the two references and the two uuids from them. *)
Theorem mapping_pairs_components_of_one_type set_order sch pcb ms out e :
  Reassociate.create_mapping set_order sch pcb = Ok (ms, out) -> In e ms ->
  exists p sc,
    In p pcb /\ In sc sch
    /\ Reassociate.pcb_ref e = Reassociate.reference p
    /\ Reassociate.pcb_uuid e = Reassociate.uuid p
    /\ Reassociate.sch_ref e = Reassociate.reference sc
    /\ Reassociate.sch_uuid e = Reassociate.uuid sc
    /\ Reassociate.get_footprint_type (Reassociate.footprint p)
       = Reassociate.footprint_type e
    /\ Reassociate.get_footprint_type (Reassociate.footprint sc)
       = Reassociate.footprint_type e.
Proof.
  unfold Reassociate.create_mapping. intros H He.
  destruct (Reassociate.sort_groups (Reassociate.group_by_type sch))
    as [sch_sorted|] eqn:Es; [| discriminate].
  destruct (Reassociate.sort_groups (Reassociate.group_by_type pcb))
    as [pcb_sorted|] eqn:Ep; [| discriminate].
  rewrite pair_types_positional in H. injection H as <- _.
  apply in_flat_map in He as (t & _ & He). unfold paired in He.
  apply in_map_iff in He as ([p sc] & <- & Hps). simpl.
  exists p, sc.
  destruct (sorted_group_members _ _ t p pcb Ep eq_refl
              (in_combine_l _ _ _ _ Hps)) as [Hp Htp].
  destruct (sorted_group_members _ _ t sc sch Es eq_refl
              (in_combine_r _ _ _ _ Hps)) as [Hs Hts].
  auto 10.
Qed.

Lemma mapping_pairs_components_on_sample :
  exists p sc,
    In p Samples.pcb_caps /\ In sc Samples.sch_caps
    /\ s "C10" = Reassociate.reference p
    /\ s "p-10" = Reassociate.uuid p
    /\ s "C1" = Reassociate.reference sc
    /\ s "s-1" = Reassociate.uuid sc
    /\ Reassociate.get_footprint_type (Reassociate.footprint p) = Reassociate.CAP
    /\ Reassociate.get_footprint_type (Reassociate.footprint sc)
       = Reassociate.CAP.
Proof.
  apply (mapping_pairs_components_of_one_type Samples.first_seen
           Samples.sch_caps Samples.pcb_caps
           [Reassociate.MkEntry (s "C10") (s "p-10") (s "C1") (s "s-1")
                                Reassociate.CAP;
            Reassociate.MkEntry (s "C11") (s "p-11") (s "C2") (s "s-2")
                                Reassociate.CAP]
           [Reassociate.msg_group Reassociate.CAP 3 2;
            Reassociate.msg_pair (Samples.cap "C10" "p-10")
                                 (Samples.cap "C1" "s-1");
            Reassociate.msg_pair (Samples.cap "C11" "p-11")
                                 (Samples.cap "C2" "s-2")]
           (Reassociate.MkEntry (s "C10") (s "p-10") (s "C1") (s "s-1")
                                Reassociate.CAP)).
  - vm_compute. reflexivity.
  - left. reflexivity.
Defined.

(** X9.  On the components the two parsers return [create_mapping] never
    raises [IndexError], for no reference they keep is empty.  It raises
    nothing but the [ValueError] of a reference whose first run of digits
    has more than 4300 digits, and it returns the mapping when no
    reference has such a run. *)
Theorem create_mapping_accepts_what_the_parsers_return
        set_order fs sch_file pcb_file sch pcb :
  Reassociate.parse_schematic_components fs sch_file = Ok sch ->
  Reassociate.parse_pcb_components fs pcb_file = Ok pcb ->
  (forall c, In c (sch ++ pcb) -> Reassociate.reference c <> [])
  /\ (forall e,
         Reassociate.create_mapping set_order sch pcb = Raise e ->
         e = ValueError
         /\ exists c ds,
              In c (sch ++ pcb)
              /\ Reassociate.first_digits (Reassociate.reference c) = Some ds
              /\ Reassociate.int_max_str_digits < length ds)
  /\ ((forall c ds,
          In c (sch ++ pcb) ->
          Reassociate.first_digits (Reassociate.reference c) = Some ds ->
          length ds <= Reassociate.int_max_str_digits) ->
      exists ms out, Reassociate.create_mapping set_order sch pcb = Ok (ms, out)).
Proof.
  unfold Reassociate.parse_schematic_components,
    Reassociate.parse_pcb_components.
  intros Hs Hp.
  destruct (read_text fs sch_file) as [sch_text|]; [| discriminate].
  destruct (read_text fs pcb_file) as [pcb_text|]; [| discriminate].
  assert (Hne : forall c, In c (sch ++ pcb) -> Reassociate.reference c <> []).
  { intros c Hc. apply in_app_iff in Hc as [Hc | Hc].
    - destruct (collect_In _ _ _ _ Hs Hc) as (part & _ & Hb).
      apply (sch_component_some _ _ Hb).
    - destruct (collect_In _ _ _ _ Hp Hc) as (part & _ & Hb).
      apply (pcb_component_some _ _ Hb). }
  split; [exact Hne |]. split.
  - intros e H. apply create_mapping_raise in H as (c & Hc & E).
    destruct (sort_key_raises c e E) as [-> | ->].
    + apply sort_key_index_error in E. destruct (Hne c Hc E).
    + split; [reflexivity |].
      apply sort_key_value_error in E as (ds & Hd & Hl). eauto.
  - intros Hshort.
    destruct (create_mapping_returns set_order sch pcb) as (S' & P' & _ & _ & E).
    + intros c Hc.
      destruct (Reassociate.sort_key c) as [k|e] eqn:Ek; [eauto |].
      exfalso. destruct (sort_key_raises c e Ek) as [-> | ->].
      * apply sort_key_index_error in Ek. destruct (Hne c Hc Ek).
      * apply sort_key_value_error in Ek as (ds & Hd & Hl).
        pose proof (Hshort c ds Hc Hd). lia.
    + rewrite E. destruct (Reassociate.pair_types _ _ _) as [ms out]. eauto.
Qed.

Lemma create_mapping_accepts_the_samples :
  exists ms out,
    Reassociate.create_mapping Samples.first_seen
      [Reassociate.MkComp (s "C1") (Some (s "Device:C"))
         (s "Capacitor_SMD:C_0402_1005Metric")
         (MkDec false 10 0) (MkDec true 205 1) (s "ab-12")]
      [Reassociate.MkComp (s "U11") None (s "Package_DFN_QFN:QFN-60")
         (MkDec false 1005 1) (MkDec false 120 0) (s "aa-01");
       Reassociate.MkComp (s "U11") None (s "Package_DFN_QFN:QFN-60")
         (MkDec false 1105 1) (MkDec false 120 0) (s "aa-03")]
    = Ok (ms, out).
Proof.
  apply (create_mapping_accepts_what_the_parsers_return Samples.first_seen
           Samples.fs_both "board.kicad_sch"%string "board.kicad_pcb"%string);
    try (vm_compute; reflexivity).
  intros c ds [<- | [<- | [<- | []]]] E; vm_compute in E;
    injection E as <-; unfold Reassociate.int_max_str_digits; simpl; lia.
Defined.

(** ** The test of the copied area *)

(** X13.  For a y coordinate written with at most 13 decimals, the test
    [y_coord >= 180] on the double is the test on the decimal itself:
    no such decimal below 180 rounds up to 180. *)
Theorem copied_area_test_is_exact_up_to_13_decimals y :
  d_scale y <= 13 ->
  (float_ge_180 y = true <->
   d_neg y = false /\ (180 * 10 ^ N.of_nat (d_scale y) <= d_num y)%N).
Proof.
  intros Hs. unfold float_ge_180.
  destruct (d_neg y); [split; [discriminate | intros [H _]; discriminate] |].
  rewrite N.leb_le.
  assert (Hp : (10 ^ N.of_nat (d_scale y) <= 10 ^ 13)%N)
    by (apply N.pow_le_mono_r; lia).
  assert (H0 : (10 ^ N.of_nat (d_scale y) <> 0)%N)
    by (apply N.pow_nonzero; lia).
  change (10 ^ 13)%N with 10000000000000%N in Hp.
  change (180 * 2 ^ 46 - 1)%N with 12666373951979519%N.
  change (2 ^ 46)%N with 70368744177664%N.
  remember (10 ^ N.of_nat (d_scale y))%N as P.
  split; [intros H; split; [reflexivity | lia] | intros [_ H]; lia].
Qed.

Lemma copied_area_test_on_sample :
  float_ge_180 (MkDec false 1799999 4) = true <->
  false = false /\ (180 * 10 ^ N.of_nat 4 <= 1799999)%N.
Proof.
  apply (copied_area_test_is_exact_up_to_13_decimals (MkDec false 1799999 4)).
  simpl. lia.
Defined.

(** ** A header whose y is no number *)

(** X14.  An entry of [apply_mapping] raises [ValueError] exactly when some
    footprint header holds a y that [float] refuses and no header before
    it was rewritten for the entry, whatever the reference of the footprint
    with the bad y. *)
Theorem entry_raises_on_the_first_bad_y content old_ref new_ref sch_uuid :
  forall ms out,
    ApplyMapping.scan_matches content old_ref new_ref sch_uuid ms out
    = Raise ValueError
    <-> exists ms1 m ms2,
        ms = ms1 ++ m :: ms2
        /\ py_float (group 5 content m) = None
        /\ forall m', In m' ms1 ->
                      py_float (group 5 content m') <> None
                      /\ rewritable old_ref content m' = false.
Proof.
  induction ms as [|m ms IH]; intros out.
  - split; [discriminate |]. intros (ms1 & m & ms2 & E & _).
    destruct ms1; discriminate.
  - rewrite scan_matches_cons. split.
    + intros H.
      destruct (py_float (group 5 content m)) as [y_coord|] eqn:Ey.
      * assert (Hrest : exists out0,
                   ApplyMapping.scan_matches content old_ref new_ref sch_uuid
                                             ms out0 = Raise ValueError
                   /\ rewritable old_ref content m = false).
        { unfold rewritable, in_copied_area. rewrite Ey.
          destruct (float_ge_180 y_coord);
            [eexists; split; [exact H | reflexivity] |].
          destruct (carries old_ref content m);
            [| eexists; split; [exact H | reflexivity]].
          destruct (linked content m);
            [eexists; split; [exact H | reflexivity] | discriminate H]. }
        destruct Hrest as (out0 & Hr & Hm).
        apply IH in Hr as (ms1 & m0 & ms2 & -> & Hb & Hf).
        exists (m :: ms1), m0, ms2. split; [reflexivity |].
        split; [exact Hb |].
        intros m' [<- | Hin]; [split; [congruence | exact Hm] | auto].
      * exists [], m, ms. split; [reflexivity |]. split; [exact Ey |].
        intros m' [].
    + intros (ms1 & m0 & ms2 & E & Hb & Hf).
      destruct ms1 as [|m1 ms1]; injection E as <- ->; [rewrite Hb; reflexivity |].
      destruct (Hf m (or_introl eq_refl)) as [Hy Hr].
      assert (Ht : forall out0,
                 ApplyMapping.scan_matches content old_ref new_ref sch_uuid
                   (ms1 ++ m0 :: ms2) out0 = Raise ValueError).
      { intros out0. apply IH. exists ms1, m0, ms2.
        split; [reflexivity |]. split; [exact Hb |].
        intros m' Hin. apply Hf. right. exact Hin. }
      unfold rewritable, in_copied_area in Hr.
      destruct (py_float (group 5 content m)) as [y_coord|]; [| congruence].
      destruct (float_ge_180 y_coord); [apply Ht |].
      destruct (carries old_ref content m); [| apply Ht].
      destruct (linked content m); [apply Ht | discriminate].
Qed.

(** ** The count and the printed lines *)

Lemma processing_lines_app a b :
  length (filter is_processing (a ++ b))
  = length (filter is_processing a) + length (filter is_processing b).
Proof. rewrite filter_app, length_app. reflexivity. Qed.

Lemma scan_matches_lines content old_ref new_ref sch_uuid : forall ms out r out',
  ApplyMapping.scan_matches content old_ref new_ref sch_uuid ms out
  = Ok (r, out') ->
  length (filter is_processing out')
  = length (filter is_processing out)
    + match r with Some _ => 1 | None => 0 end.
Proof.
  induction ms as [|m ms IH]; intros out r out' H.
  - injection H as <- <-. lia.
  - destruct (scan_matches_step content old_ref new_ref sch_uuid m ms out)
      as [E | [(_ & _ & E) | [(_ & _ & E) | (_ & E)]]]; rewrite E in H.
    + discriminate.
    + apply (IH _ _ _ H).
    + apply IH in H. rewrite H, processing_lines_app. simpl. lia.
    + injection H as <- <-. rewrite processing_lines_app. simpl. lia.
Qed.

Lemma run_entries_lines : forall mapping st st',
  ApplyMapping.run_entries mapping st = Ok st' ->
  ApplyMapping.st_changes st' <= ApplyMapping.st_changes st + length mapping
  /\ length (filter is_processing (ApplyMapping.st_out st'))
       + ApplyMapping.st_changes st
     = length (filter is_processing (ApplyMapping.st_out st))
       + ApplyMapping.st_changes st'.
Proof.
  induction mapping as [|[old_ref [new_ref sch_uuid]] rest IH]; intros st st' H.
  - injection H as <-. simpl. lia.
  - rewrite run_entries_cons in H. unfold ApplyMapping.process_entry in H.
    destruct (ApplyMapping.scan_matches _ _ _ _ _ _)
      as [[[content'|] out']|] eqn:E; [| | discriminate];
      apply scan_matches_lines in E; apply IH in H; simpl in *; lia.
Qed.

(** X15.  The count that [apply_mapping] returns is the number of "Processing"
    lines it printed, and it is at most the number of entries of the
    mapping: each entry changes one block or none. *)
Theorem count_is_the_number_of_processing_lines mapping fs pcb_file output_file r :
  ApplyMapping.apply_mapping_with mapping fs pcb_file output_file = Ok r ->
  ApplyMapping.r_changes r
  = length (filter is_processing (ApplyMapping.r_out r))
  /\ ApplyMapping.r_changes r <= length mapping.
Proof.
  unfold ApplyMapping.apply_mapping_with.
  destruct (read_text fs pcb_file) as [content|]; [| discriminate].
  destruct (ApplyMapping.run_entries _ _) as [st|] eqn:E; [| discriminate].
  destruct (write_file fs output_file _) as [fs'|]; [| discriminate].
  intros H. injection H as <-. simpl.
  apply run_entries_lines in E as [Hle Hc]. simpl in *.
  rewrite processing_lines_app. simpl. lia.
Qed.

Lemma count_is_the_number_of_processing_lines_on_sample :
  1 = length (filter is_processing
                [ApplyMapping.msg_skipping (s "U11");
                 ApplyMapping.msg_processing (s "U11") (s "U27");
                 ApplyMapping.msg_total 1;
                 ApplyMapping.msg_written "out.kicad_pcb"])
  /\ 1 <= length ApplyMapping.MAPPING.
Proof.
  apply (count_is_the_number_of_processing_lines ApplyMapping.MAPPING
           (Samples.fs_of Samples.doc_linked_then_free)
           "board.kicad_pcb"%string "out.kicad_pcb"%string
           (ApplyMapping.MkResult
              (MkFiles
                 (fun n =>
                    if String.eqb n "out.kicad_pcb"
                    then Ok (Samples.board (Samples.u11_linked_block
                                              ++ Samples.u27_second_block))
                    else read_text
                           (Samples.fs_of Samples.doc_linked_then_free) n)
                 (fun _ => None))
              [ApplyMapping.msg_skipping (s "U11");
               ApplyMapping.msg_processing (s "U11") (s "U27");
               ApplyMapping.msg_total 1;
               ApplyMapping.msg_written "out.kicad_pcb"]
              1)).
  vm_compute. reflexivity.
Defined.

(** ** The balance of parentheses *)

Lemma depth_of_app a b : depth_of (a ++ b) = (depth_of a + depth_of b)%Z.
Proof.
  induction a as [|c a IH]; [reflexivity |].
  simpl. rewrite IH. lia.
Qed.

Lemma find_block_end_ge content bs : bs <= find_block_end content bs.
Proof.
  unfold find_block_end.
  destruct (scan_block (skipn bs content) bs 0) as [e|] eqn:E; [| lia].
  apply scan_block_first_close in E as (n & -> & _). lia.
Qed.

Lemma text_around_block (content : str) bs be :
  bs <= be ->
  content = firstn bs content ++ slice bs be content ++ skipn be content.
Proof.
  intros H. unfold slice.
  rewrite <- (firstn_skipn bs content) at 1. f_equal.
  rewrite <- (firstn_skipn (be - bs) (skipn bs content)) at 1. f_equal.
  rewrite skipn_skipn. f_equal. lia.
Qed.

Lemma rewrites_depth old new t u :
  depth_of old = depth_of new -> rewrites old new t u ->
  depth_of t = depth_of u.
Proof.
  intros E H. induction H as [| c t u _ _ IH | t u _ IH].
  - reflexivity.
  - simpl. rewrite IH. reflexivity.
  - rewrite !depth_of_app, IH, E. reflexivity.
Qed.

Lemma depth_of_insert_at pos ins block :
  depth_of (ApplyMapping.insert_at pos ins block)
  = (depth_of block + depth_of ins)%Z.
Proof.
  unfold ApplyMapping.insert_at. rewrite !depth_of_app.
  rewrite <- (firstn_skipn pos block) at 3. rewrite depth_of_app. lia.
Qed.

Lemma depth_of_insert_text sch_uuid :
  depth_of (ApplyMapping.insert_text sch_uuid) = depth_of sch_uuid.
Proof.
  unfold ApplyMapping.insert_text. rewrite !depth_of_app.
  change (depth_of ApplyMapping.NTT) with 0%Z.
  change (depth_of [DQ]) with 0%Z.
  change (depth_of (s "(path ")) with 1%Z.
  change (depth_of (s "/")) with 0%Z.
  change (depth_of (s ")")) with (-1)%Z.
  change (depth_of (s "(sheetname ")) with 1%Z.
  change (depth_of (s "(sheetfile ")) with 1%Z.
  change (depth_of (s "isoSPI-M3Y-BMS-PCB.kicad_sch")) with 0%Z.
  lia.
Qed.





(** ** Sorting what is sorted *)

Lemma insert_sorted_last kx v : forall acc,
  (forall q, In q acc -> keyed_le q (kx, v)) ->
  Reassociate.insert_sorted kx v acc = acc ++ [(kx, v)].
Proof.
  induction acc as [|[ky w] acc IH]; intros H; simpl; [reflexivity |].
  pose proof (H (ky, w) (or_introl eq_refl)) as Hy.
  unfold keyed_le in Hy. simpl in Hy. rewrite Hy. f_equal.
  apply IH. intros q Hq. apply H. right. exact Hq.
Qed.

Lemma sorted_app_le : forall (acc : list ((ascii * N) * Reassociate.component)) x l,
  StronglySorted keyed_le (acc ++ x :: l) ->
  forall q, In q acc -> keyed_le q x.
Proof.
  induction acc as [|a acc IH]; intros x l H q Hq; [destruct Hq |].
  simpl in H. inversion H as [|? ? Hs Hf]; subst.
  destruct Hq as [<- | Hq]; [| apply (IH x l Hs q Hq)].
  rewrite Forall_forall in Hf. apply Hf. apply in_or_app. right. left.
  reflexivity.
Qed.

Lemma stable_sort_of_sorted : forall l acc,
  StronglySorted keyed_le (acc ++ l) ->
  fold_left (fun a p => Reassociate.insert_sorted (fst p) (snd p) a) l acc
  = acc ++ l.
Proof.
  induction l as [|[k c] l IH]; intros acc H; simpl.
  - symmetry. apply app_nil_r.
  - rewrite (insert_sorted_last k c acc (sorted_app_le acc (k, c) l H)).
    rewrite IH; rewrite <- app_assoc; [reflexivity | exact H].
Qed.

Lemma keyed_of_keyed : forall kl,
  Forall (fun p : (ascii * N) * Reassociate.component =>
            Reassociate.sort_key (snd p) = Ok (fst p)) kl ->
  Reassociate.keyed (map snd kl) = Ok kl.
Proof.
  induction kl as [|[k c] kl IH]; intros H; [reflexivity |].
  inversion H as [|? ? Hk Hrest]; subst. simpl in *.
  rewrite Hk, (IH Hrest). reflexivity.
Qed.

(** X11.  Sorting a list that [sort_components] has sorted gives the same list
    again: the order of a group does not depend on how often it is
    sorted. *)
Theorem sorting_twice_is_sorting_once l l' :
  Reassociate.sort_components l = Ok l' ->
  Reassociate.sort_components l' = Ok l'.
Proof.
  unfold Reassociate.sort_components. intros H.
  destruct (Reassociate.keyed l) as [kl|] eqn:E; [| discriminate].
  injection H as <-. apply keyed_spec in E as [_ Hk].
  destruct (stable_sort_spec kl [] (SSorted_nil _)) as [Hp Hs].
  rewrite app_nil_r in Hp. fold (Reassociate.stable_sort kl) in Hp, Hs.
  rewrite keyed_of_keyed by (apply (Permutation_Forall Hp); exact Hk).
  assert (E2 : Reassociate.stable_sort (Reassociate.stable_sort kl)
               = Reassociate.stable_sort kl)
    by (apply (stable_sort_of_sorted (Reassociate.stable_sort kl) []);
        exact Hs).
  rewrite E2. reflexivity.
Qed.

Lemma sorting_twice_on_sample :
  Reassociate.sort_components [Samples.part "SW1"; Samples.part "S2"]
  = Ok [Samples.part "SW1"; Samples.part "S2"].
Proof.
  apply (sorting_twice_is_sorting_once [Samples.part "S2"; Samples.part "SW1"]).
  vm_compute. reflexivity.
Defined.

(** ** Which footprint [apply_mapping_to_pcb] edits *)

Lemma find_from_first w : forall t i j,
  Reassociate.find_from w i t = Some j ->
  exists k, j = i + k /\ first_at w t k.
Proof.
  induction t as [|c t IH]; intros i j H; simpl in H.
  - destruct (starts_with w []) eqn:E; [| discriminate]. injection H as <-.
    exists 0. split; [lia |]. split; [exact E | intros j Hj; lia].
  - destruct (starts_with w (c :: t)) eqn:E.
    + injection H as <-. exists 0. split; [lia |].
      split; [exact E | intros j Hj; lia].
    + apply IH in H as (k & -> & Hk & Hb). exists (S k). split; [lia |].
      split; [exact Hk |]. intros [|j'] Hj; [exact E |]. apply Hb. lia.
Qed.

Lemma starts_with_firstn_iff w : forall n (u : str),
  starts_with w (firstn n u) = true
  <-> starts_with w u = true /\ length w <= n.
Proof.
  induction w as [|x w IH]; intros n u.
  - simpl. split; [intros _; split; [reflexivity | lia] | reflexivity].
  - destruct n as [|n]; [simpl; split; [discriminate | intros [_ H]; lia] |].
    destruct u as [|y u]; [simpl; split; [discriminate | intros [H _]; discriminate] |].
    simpl. rewrite !andb_true_iff, IH. split.
    + intros (Hx & Hw & Hl). split; [split; assumption | lia].
    + intros ((Hx & Hw) & Hl). split; [exact Hx |]. split; [exact Hw | lia].
Qed.

Lemma rfind_from_last w : forall t i best,
  match Reassociate.rfind_from w i t best with
  | Some j =>
      (best = Some j
       /\ forall k, k <= length t -> starts_with w (skipn k t) = false)
      \/ exists k,
          j = i + k /\ k <= length t /\ starts_with w (skipn k t) = true
          /\ forall k', k < k' -> k' <= length t ->
                        starts_with w (skipn k' t) = false
  | None =>
      best = None
      /\ forall k, k <= length t -> starts_with w (skipn k t) = false
  end.
Proof.
  induction t as [|c t IH]; intros i best.
  - simpl. destruct (starts_with w []) eqn:E.
    + right. exists 0. split; [lia |]. split; [lia |]. split; [exact E |].
      intros k' H1 H2. simpl in H2. lia.
    + assert (Hn : forall k, k <= 0 -> starts_with w (skipn k (@nil ascii)) = false)
        by (intros k Hk; rewrite skipn_nil; exact E).
      destruct best; auto.
  - simpl Reassociate.rfind_from.
    specialize (IH (S i)
                  (if starts_with w (c :: t) then Some i else best)).
    destruct (Reassociate.rfind_from w (S i) t _) as [j|].
    + destruct IH as [[Hb Hn] | (k & -> & Hk & Hs & Hl)].
      * destruct (starts_with w (c :: t)) eqn:E.
        -- injection Hb as <-. right. exists 0. split; [lia |].
           split; [simpl; lia |]. split; [exact E |].
           intros [|k'] H1 H2; [lia |]. simpl. apply Hn. simpl in H2. lia.
        -- left. split; [exact Hb |].
           intros [|k] Hk; [exact E |]. simpl. apply Hn. simpl in Hk. lia.
      * right. exists (S k). split; [lia |]. split; [simpl; lia |].
        split; [exact Hs |].
        intros [|k'] H1 H2; [lia |]. simpl. apply Hl; [lia |]. simpl in H2. lia.
    + destruct IH as [Hb Hn]. destruct (starts_with w (c :: t)) eqn:E;
        [discriminate |].
      split; [exact Hb |].
      intros [|k] Hk; [exact E |]. simpl. apply Hn. simpl in Hk. lia.
Qed.

Lemma no_opener_before w stop (t : str) :
  w <> [] ->
  (forall k, k <= length (firstn stop t) ->
             starts_with w (skipn k (firstn stop t)) = false) ->
  forall j, j + length w <= stop -> starts_with w (skipn j t) = false.
Proof.
  intros Hw H j Hj.
  destruct (starts_with w (skipn j t)) eqn:E; [| reflexivity].
  pose proof (starts_with_length _ _ E) as Hl. rewrite length_skipn in Hl.
  assert (Hw' : 0 < length w) by (destruct w; [congruence | simpl; lia]).
  rewrite <- (H j).
  - symmetry. rewrite skipn_firstn_comm. apply starts_with_firstn_iff.
    split; [exact E | lia].
  - rewrite length_firstn. lia.
Qed.

Lemma rfind_last w stop (t : str) :
  w <> [] ->
  match Reassociate.rfind w stop t with
  | Some bs =>
      starts_with w (skipn bs t) = true /\ bs + length w <= stop
      /\ forall j, bs < j -> j + length w <= stop ->
                   starts_with w (skipn j t) = false
  | None => forall j, j + length w <= stop -> starts_with w (skipn j t) = false
  end.
Proof.
  intros Hw. unfold Reassociate.rfind.
  pose proof (rfind_from_last w (firstn stop t) 0 None) as H.
  assert (Hw' : 0 < length w) by (destruct w; [congruence | simpl; lia]).
  destruct (Reassociate.rfind_from w 0 (firstn stop t) None) as [bs|].
  - destruct H as [[H _] | (k & -> & Hk & Hs & Hl)]; [discriminate |].
    simpl. rewrite skipn_firstn_comm in Hs.
    apply starts_with_firstn_iff in Hs as [Hs Hn].
    split; [exact Hs |]. split; [lia |].
    intros j Hj Hle.
    destruct (starts_with w (skipn j t)) eqn:E; [| reflexivity].
    pose proof (starts_with_length _ _ E) as Hlen. rewrite length_skipn in Hlen.
    rewrite <- (Hl j Hj).
    + symmetry. rewrite skipn_firstn_comm. apply starts_with_firstn_iff.
      split; [exact E | lia].
    + rewrite length_firstn. lia.
  - destruct H as [_ H]. apply (no_opener_before w stop t Hw H).
Qed.

(** X18.  One entry of [apply_mapping_to_pcb] looks for the first place where
    the text "(uuid " with the quoted uuid of the entry stands.  Without
    such a place the text is kept and a warning is printed.  Otherwise the
    block that is edited starts at the last footprint opener that ends at
    or before that place; without such an opener the text is kept and the
    other warning is printed. *)
Theorem entry_edits_the_footprint_that_holds_the_uuid
        e content out content' out' :
  Reassociate.apply_entry e content out = Some (content', out') ->
  (Reassociate.find (Reassociate.uuid_pattern (Reassociate.pcb_uuid e)) content
   = None
   /\ content' = content
   /\ out' = out ++ [Reassociate.msg_no_uuid (Reassociate.pcb_uuid e)])
  \/ exists up,
      first_at (Reassociate.uuid_pattern (Reassociate.pcb_uuid e)) content up
      /\ ((content' = content
           /\ out' = out ++ [Reassociate.msg_no_start (Reassociate.pcb_uuid e)]
           /\ forall j, j + length Reassociate.footprint_open <= up ->
                        starts_with Reassociate.footprint_open (skipn j content)
                        = false)
          \/ exists bs renamed,
              starts_with Reassociate.footprint_open (skipn bs content) = true
              /\ bs + length Reassociate.footprint_open <= up
              /\ (forall j, bs < j ->
                            j + length Reassociate.footprint_open <= up ->
                            starts_with Reassociate.footprint_open
                                        (skipn j content) = false)
              /\ Reassociate.rename_reference
                   (Reassociate.pcb_ref e) (Reassociate.sch_ref e)
                   (slice bs (find_block_end content bs) content)
                 = Some renamed
              /\ content' = firstn bs content
                              ++ Reassociate.add_path (Reassociate.sch_uuid e)
                                                      renamed
                              ++ skipn (find_block_end content bs) content
              /\ out' = out).
Proof.
  unfold Reassociate.apply_entry, Reassociate.contains.
  destruct (Reassociate.find _ content) as [up|] eqn:Ef; simpl negb; cbv iota.
  - intros H. right. exists up.
    apply find_from_first in Ef as (k & Ek & Hfirst). simpl in Ek. subst k.
    split; [exact Hfirst |].
    pose proof (rfind_last Reassociate.footprint_open up content) as Hr.
    destruct (Reassociate.rfind Reassociate.footprint_open up content)
      as [bs|].
    + right. cbv zeta in H.
      destruct (Reassociate.rename_reference _ _ _) as [renamed|] eqn:En;
        [| discriminate].
      injection H as <- <-. exists bs, renamed.
      destruct Hr as (H1 & H2 & H3); [discriminate |]. auto 10.
    + left. injection H as <- <-.
      split; [reflexivity |]. split; [reflexivity |].
      apply Hr. discriminate.
  - intros H. injection H as <- <-. left. auto.
Qed.

Lemma entry_edits_the_footprint_on_sample :
  (Reassociate.find (Reassociate.uuid_pattern (s "aa-01")) Samples.doc_linked
   = None
   /\ Samples.board Samples.u27_linked_block = Samples.doc_linked
   /\ [] = [] ++ [Reassociate.msg_no_uuid (s "aa-01")])
  \/ exists up,
      first_at (Reassociate.uuid_pattern (s "aa-01")) Samples.doc_linked up
      /\ ((Samples.board Samples.u27_linked_block = Samples.doc_linked
           /\ [] = [] ++ [Reassociate.msg_no_start (s "aa-01")]
           /\ forall j, j + length Reassociate.footprint_open <= up ->
                        starts_with Reassociate.footprint_open
                                    (skipn j Samples.doc_linked) = false)
          \/ exists bs renamed,
              starts_with Reassociate.footprint_open
                          (skipn bs Samples.doc_linked) = true
              /\ bs + length Reassociate.footprint_open <= up
              /\ (forall j, bs < j ->
                            j + length Reassociate.footprint_open <= up ->
                            starts_with Reassociate.footprint_open
                                        (skipn j Samples.doc_linked) = false)
              /\ Reassociate.rename_reference (s "U11") (s "U27")
                   (slice bs (find_block_end Samples.doc_linked bs)
                          Samples.doc_linked)
                 = Some renamed
              /\ Samples.board Samples.u27_linked_block
                 = firstn bs Samples.doc_linked
                     ++ Reassociate.add_path (s "e913-1814") renamed
                     ++ skipn (find_block_end Samples.doc_linked bs)
                              Samples.doc_linked
              /\ @nil str = []).
Proof.
  apply (entry_edits_the_footprint_that_holds_the_uuid
           Samples.entry_u11 Samples.doc_linked [] 
           (Samples.board Samples.u27_linked_block) []).
  vm_compute. reflexivity.
Defined.

(** ** An entry whose reference is not in the text *)

Lemma has_match_literal w : forall t i,
  match search_from (Str w) i t with Some _ => true | None => false end
  = match Reassociate.find_from w i t with Some _ => true | None => false end.
Proof.
  induction t as [|c t IH]; intros i; simpl; rewrite match_here_Str.
  - destruct (starts_with w []); reflexivity.
  - destruct (starts_with w (c :: t)); [reflexivity | apply IH].
Qed.

Lemma find_none_in_slice w a b (t : str) :
  w <> [] -> Reassociate.find w t = None ->
  Reassociate.find w (slice a b t) = None.
Proof.
  unfold Reassociate.find. intros Hw H. apply find_from_none. intros k _.
  unfold slice. rewrite skipn_firstn_comm, skipn_skipn.
  destruct (starts_with w (firstn (b - a - k) (skipn (k + a) t))) eqn:E;
    [| reflexivity].
  apply starts_with_firstn_iff in E as [E _].
  pose proof (starts_with_length _ _ E) as Hl. rewrite length_skipn in Hl.
  assert (Hw' : 0 < length w) by (destruct w; [congruence | simpl; lia]).
  rewrite <- E. apply (proj1 (find_from_none w t 0) H). lia.
Qed.

Lemma carries_nothing old_ref content :
  Reassociate.find (ApplyMapping.ref_head ++ ApplyMapping.quoted old_ref) content
  = None ->
  forall m, carries old_ref content m = false.
Proof.
  intros Hn m. unfold carries, ApplyMapping.has_match, re_search,
    ApplyMapping.ref_pattern.
  rewrite has_match_literal.
  fold (Reassociate.find (ApplyMapping.ref_head ++ ApplyMapping.quoted old_ref)
          (block_of content m)).
  unfold block_of.
  rewrite find_none_in_slice; [reflexivity | apply quoted_not_empty | exact Hn].
Qed.

(** X19.  When the text holds no "Reference" property with the quoted old
    reference of an entry, the entry of [apply_mapping] rewrites no block
    and prints no line: if it ends normally, the text and the printed lines
    are as before. *)
Theorem entry_without_its_reference_does_nothing
        content old_ref new_ref sch_uuid :
  Reassociate.find (ApplyMapping.ref_head ++ ApplyMapping.quoted old_ref) content
  = None ->
  forall ms out r out',
    ApplyMapping.scan_matches content old_ref new_ref sch_uuid ms out
    = Ok (r, out') ->
    r = None /\ out' = out.
Proof.
  intros Hn. pose proof (carries_nothing old_ref content Hn) as Hc.
  induction ms as [|m ms IH]; intros out r out' H.
  - injection H as <- <-. auto.
  - rewrite scan_matches_cons, Hc in H. simpl negb in H.
    destruct (py_float (group 5 content m)) as [y_coord|]; [| discriminate].
    destruct (float_ge_180 y_coord); apply (IH _ _ _ H).
Qed.

Lemma entry_without_its_reference_on_sample :
  ApplyMapping.process_entry (s "Y1", (s "Y2", Samples.u27_uuid))
                             Samples.doc_plain []
  = Ok (None, [])
  /\ @None str = None /\ @nil str = [].
Proof.
  split; [vm_compute; reflexivity |].
  apply (entry_without_its_reference_does_nothing
           Samples.doc_plain (s "Y1") (s "Y2") Samples.u27_uuid)
    with (ms := re_finditer ApplyMapping.pattern Samples.doc_plain);
    vm_compute; reflexivity.
Defined.

(** ** A second run *)




Lemma starts_with_nil_r (x : str) : starts_with x [] = true -> x = [].
Proof. destruct x; [reflexivity | discriminate]. Qed.




























(** ** Letter case in footprint names *)

Lemma lower_char_twice c :
  Reassociate.lower_char (Reassociate.lower_char c) = Reassociate.lower_char c.
Proof.
  destruct c as [[] [] [] [] [] [] [] []]; reflexivity.
Qed.

(** X12.  The classifier looks at the footprint name in lower case only: two
    names that differ in letter case alone get the same type, and so do a
    name and its lower-case form. *)
Theorem footprint_type_ignores_letter_case a :
  (forall b, Reassociate.lower a = Reassociate.lower b ->
             Reassociate.get_footprint_type a = Reassociate.get_footprint_type b)
  /\ Reassociate.get_footprint_type (Reassociate.lower a)
     = Reassociate.get_footprint_type a.
Proof.
  assert (H : forall b, Reassociate.lower a = Reassociate.lower b ->
                        Reassociate.get_footprint_type a
                        = Reassociate.get_footprint_type b).
  { intros b E. unfold Reassociate.get_footprint_type. cbv zeta.
    rewrite E. reflexivity. }
  split; [exact H |]. symmetry. apply H.
  unfold Reassociate.lower. rewrite map_map. apply map_ext.
  intros c. symmetry. apply lower_char_twice.
Qed.

Lemma footprint_type_ignores_letter_case_on_sample :
  Reassociate.get_footprint_type (s "LED_SMD:LED_0603")
  = Reassociate.get_footprint_type (s "led_smd:Led_0603").
Proof.
  apply (proj1 (footprint_type_ignores_letter_case (s "LED_SMD:LED_0603"))).
  vm_compute. reflexivity.
Defined.

(** ** The balance of parentheses, in [apply_mapping_to_pcb] *)

Lemma apply_entry_depth e content out content' out' :
  balanced_pcb_entry e ->
  Reassociate.apply_entry e content out = Some (content', out') ->
  depth_of content' = depth_of content.
Proof.
  intros [Hr Hu]. unfold Reassociate.apply_entry.
  destruct (negb _); [intros H; injection H as <- _; reflexivity |].
  destruct (Reassociate.find _ content) as [up|];
    [| intros H; injection H as <- _; reflexivity].
  destruct (Reassociate.rfind _ up content) as [bs|];
    [| intros H; injection H as <- _; reflexivity].
  cbv zeta.
  destruct (Reassociate.rename_reference _ _ _) as [renamed|] eqn:En;
    [| discriminate].
  intros H. injection H as <- _.
  rewrite (text_around_block content bs (find_block_end content bs)
             (find_block_end_ge content bs)) at 4.
  rewrite !depth_of_app. f_equal. f_equal.
  assert (E : depth_of renamed
              = depth_of (slice bs (find_block_end content bs) content)).
  { symmetry. eapply rewrites_depth;
      [| apply (rename_reference_pcb_rewrites _ _ _ _ En)].
    unfold ApplyMapping.quoted. rewrite !depth_of_app, Hr. reflexivity. }
  destruct (add_path_pcb_inserts (Reassociate.sch_uuid e) renamed)
    as [-> | [pos ->]]; [exact E |].
  rewrite depth_of_insert_at, depth_of_insert_text, E, Hu. lia.
Qed.

Lemma apply_entries_depth :
  forall mapping content out content' out',
    Forall balanced_pcb_entry mapping ->
    Reassociate.apply_entries mapping content out = Some (content', out') ->
    depth_of content' = depth_of content.
Proof.
  induction mapping as [|e rest IH]; intros content out content' out' Hb H.
  - injection H as <- _. reflexivity.
  - inversion Hb as [|? ? He Hrest]; subst. simpl in H.
    destruct (Reassociate.apply_entry e content out) as [[c1 o1]|] eqn:E;
      [| discriminate].
    rewrite (IH _ _ _ _ Hrest H). apply (apply_entry_depth _ _ _ _ _ He E).
Qed.

(** X17.  The loop of [apply_mapping_to_pcb] keeps the balance of parentheses
    of the text as well: on a mapping whose schematic references hold no
    backslash, and in whose entries the two references weigh the same and
    the schematic uuid holds as many "(" as ")", the loop runs to its end
    and the text it ends with has the same surplus of "(" over ")" as the
    text it started with. *)
Theorem pcb_loop_keeps_the_balance_of_parentheses :
  forall mapping content out,
    Forall balanced_pcb_entry mapping ->
    Forall (fun m => Reassociate.plain (Reassociate.sch_ref m) = true)
           mapping ->
    exists content' out',
      Reassociate.apply_entries mapping content out = Some (content', out')
      /\ depth_of content' = depth_of content.
Proof.
  intros mapping content out Hb Hp.
  destruct (apply_entries_plain mapping content out Hp)
    as (content' & out' & E).
  exists content', out'. split; [exact E |].
  apply (apply_entries_depth _ _ _ _ _ Hb E).
Qed.

Lemma pcb_loop_keeps_the_balance_on_sample :
  exists content' out',
    Reassociate.apply_entries [Samples.entry_u11] Samples.doc_linked []
    = Some (content', out')
    /\ depth_of content' = depth_of Samples.doc_linked.
Proof.
  apply (pcb_loop_keeps_the_balance_of_parentheses
           [Samples.entry_u11] Samples.doc_linked []).
  - constructor; [split; vm_compute; reflexivity | constructor].
  - constructor; [vm_compute; reflexivity | constructor].
Defined.

(** ** How many entries the mapping has *)

Lemma length_flat_map_sum (A B : Type) (f : A -> list B) : forall l,
  length (flat_map f l) = list_sum (map (fun x => length (f x)) l).
Proof.
  induction l as [|a l IH]; [reflexivity |].
  simpl. rewrite length_app, IH. reflexivity.
Qed.

Lemma list_sum_le (A : Type) (f g : A -> nat) : forall l,
  (forall x, In x l -> f x <= g x) ->
  list_sum (map f l) <= list_sum (map g l).
Proof.
  induction l as [|a l IH]; intros H; [reflexivity |].
  simpl. pose proof (H a (or_introl eq_refl)).
  assert (list_sum (map f l) <= list_sum (map g l))
    by (apply IH; intros x Hx; apply H; right; exact Hx).
  lia.
Qed.

Lemma one_type_at_most x : forall ts,
  NoDup ts ->
  list_sum (map (fun t => if Reassociate.fp_type_eqb x t then 1 else 0) ts) <= 1.
Proof.
  induction ts as [|t ts IH]; intros H; [simpl; lia |].
  inversion H as [|? ? Hn Hd]; subst. simpl.
  destruct (Reassociate.fp_type_eqb x t) eqn:E; [| apply IH; exact Hd].
  apply fp_type_eqb_eq in E. subst t.
  assert (Hz : list_sum
                 (map (fun t => if Reassociate.fp_type_eqb x t then 1 else 0) ts)
               = 0).
  { clear IH H Hd. induction ts as [|u ts IH]; [reflexivity |]. simpl.
    destruct (Reassociate.fp_type_eqb x u) eqn:E.
    - apply fp_type_eqb_eq in E. subst u. exfalso. apply Hn. left. reflexivity.
    - apply IH. intros Hin. apply Hn. right. exact Hin. }
  lia.
Qed.

Lemma types_share_the_components ts : NoDup ts -> forall comps,
  list_sum
    (map (fun t =>
            length (filter
                      (fun c => Reassociate.fp_type_eqb
                                  (Reassociate.get_footprint_type
                                     (Reassociate.footprint c)) t) comps)) ts)
  <= length comps.
Proof.
  intros Hd. induction comps as [|c comps IH].
  - simpl. induction ts as [|t ts IHt]; [reflexivity |].
    inversion Hd; subst. simpl. apply IHt. assumption.
  - pose proof (one_type_at_most
                  (Reassociate.get_footprint_type (Reassociate.footprint c))
                  ts Hd) as H1.
    assert (E : list_sum
                  (map (fun t =>
                          length (filter
                                    (fun c0 => Reassociate.fp_type_eqb
                                                 (Reassociate.get_footprint_type
                                                    (Reassociate.footprint c0)) t)
                                    (c :: comps))) ts)
                = list_sum
                    (map (fun t =>
                            if Reassociate.fp_type_eqb
                                 (Reassociate.get_footprint_type
                                    (Reassociate.footprint c)) t
                            then 1 else 0) ts)
                  + list_sum
                      (map (fun t =>
                              length (filter
                                        (fun c0 => Reassociate.fp_type_eqb
                                                     (Reassociate.get_footprint_type
                                                        (Reassociate.footprint c0)) t)
                                        comps)) ts)).
    { clear. unfold list_sum. induction ts as [|t ts IHt]; [reflexivity |].
      cbn [map fold_right]. rewrite IHt. simpl.
      destruct (Reassociate.fp_type_eqb _ t); simpl; lia. }
    rewrite E. simpl length. lia.
Qed.

Lemma sorted_group_length comps g' t :
  Reassociate.sort_groups (Reassociate.group_by_type comps) = Ok g' ->
  length (Reassociate.get_group t g')
  = length (filter
              (fun c => Reassociate.fp_type_eqb
                          (Reassociate.get_footprint_type
                             (Reassociate.footprint c)) t) comps).
Proof.
  intros H.
  rewrite <- (Permutation_length (sort_groups_perm _ _ H t)).
  unfold Reassociate.group_by_type. rewrite (get_group_fold t comps []).
  reflexivity.
Qed.

(** X10.  When the set of types is walked without repetition, the mapping that
    [create_mapping] returns has at most as many entries as there are PCB
    components, and at most as many as there are schematic components. *)
Theorem mapping_is_no_longer_than_its_inputs set_order sch pcb ms out :
  (forall ts, NoDup (set_order ts)) ->
  Reassociate.create_mapping set_order sch pcb = Ok (ms, out) ->
  length ms <= length pcb /\ length ms <= length sch.
Proof.
  intros Hd. unfold Reassociate.create_mapping.
  destruct (Reassociate.sort_groups (Reassociate.group_by_type sch))
    as [sch_sorted|] eqn:Es; [| discriminate].
  destruct (Reassociate.sort_groups (Reassociate.group_by_type pcb))
    as [pcb_sorted|] eqn:Ep; [| discriminate].
  rewrite pair_types_positional. intros H. injection H as <- _.
  rewrite length_flat_map_sum.
  remember (set_order (Reassociate.keys sch_sorted
                         ++ Reassociate.keys pcb_sorted)) as ts eqn:Ets.
  assert (Hts : NoDup ts) by (rewrite Ets; apply Hd).
  split.
  - eapply Nat.le_trans; [| apply (types_share_the_components ts Hts pcb)].
    apply list_sum_le. intros t _. unfold paired.
    rewrite length_map, length_combine, (sorted_group_length pcb _ t Ep). lia.
  - eapply Nat.le_trans; [| apply (types_share_the_components ts Hts sch)].
    apply list_sum_le. intros t _. unfold paired.
    rewrite length_map, length_combine, (sorted_group_length sch _ t Es). lia.
Qed.

Lemma first_seen_nodup : forall ts, NoDup (Samples.first_seen ts).
Proof.
  induction ts as [|t ts IH]; simpl; constructor.
  - intros H. apply filter_In in H as [_ H].
    rewrite fp_type_eqb_refl in H. discriminate.
  - apply NoDup_filter. exact IH.
Qed.

Lemma mapping_is_no_longer_on_sample :
  length [Reassociate.MkEntry (s "C10") (s "p-10") (s "C1") (s "s-1")
                              Reassociate.CAP;
          Reassociate.MkEntry (s "C11") (s "p-11") (s "C2") (s "s-2")
                              Reassociate.CAP]
  <= length Samples.pcb_caps
  /\ length [Reassociate.MkEntry (s "C10") (s "p-10") (s "C1") (s "s-1")
                                 Reassociate.CAP;
             Reassociate.MkEntry (s "C11") (s "p-11") (s "C2") (s "s-2")
                                 Reassociate.CAP]
     <= length Samples.sch_caps.
Proof.
  apply (mapping_is_no_longer_than_its_inputs Samples.first_seen
           Samples.sch_caps Samples.pcb_caps _
           [Reassociate.msg_group Reassociate.CAP 3 2;
            Reassociate.msg_pair (Samples.cap "C10" "p-10")
                                 (Samples.cap "C1" "s-1");
            Reassociate.msg_pair (Samples.cap "C11" "p-11")
                                 (Samples.cap "C2" "s-2")]).
  - exact first_seen_nodup.
  - vm_compute. reflexivity.
Defined.

Lemma entry_raises_on_sample :
  ApplyMapping.scan_matches Samples.doc_bad_y (s "U11") (s "U27")
    Samples.u27_uuid (re_finditer ApplyMapping.pattern Samples.doc_bad_y) []
  = Raise ValueError.
Proof.
  apply (proj2 (entry_raises_on_the_first_bad_y Samples.doc_bad_y
                  (s "U11") (s "U27") Samples.u27_uuid
                  (re_finditer ApplyMapping.pattern Samples.doc_bad_y) [])).
  exists [], (hd (MkMatch 0 0 [])
                 (re_finditer ApplyMapping.pattern Samples.doc_bad_y)), [].
  split; [vm_compute; reflexivity |].
  split; [vm_compute; reflexivity | intros m' []].
Defined.

Lemma create_mapping_raises_on_sample :
  exists e,
    Reassociate.create_mapping Samples.first_seen
      [Samples.part "S2"] [Samples.part ""]
    = Raise e.
Proof.
  apply (proj1 (proj2 (create_mapping_raises_what_a_sort_key_raises
                         Samples.first_seen
                         [Samples.part "S2"] [Samples.part ""]))).
  exists (Samples.part ""), IndexError.
  split; [right; left; reflexivity | reflexivity].
Defined.

Lemma groups_are_the_components_on_sample :
  In (Samples.cap "C2" "s-2")
     (flat_map snd (Reassociate.group_by_type Samples.sch_caps)).
Proof.
  apply (proj2 (proj2 (groups_are_the_components_of_each_type
                         Samples.sch_caps))).
  right. left. reflexivity.
Defined.
